(** * gitversion: the git history reader and the gradle workspace plugin

    A shallow embedding of
      - [core/git.ts]  ([gitExec], [gitRoot] and the methods of [Git]) and
      - [plugins/embedded/gradle/gradle-project.ts]
        ([loadGradleBuildFile], [persistGradleBuildFile], [GradleWorkspace],
         [GradleProject]),
    followed by the properties the specification states about them and by
    further properties of the same code.

    Conventions.
      - A JavaScript string is a [list ascii]; an [ascii] stands for the code
        point of the same number (U+0000 .. U+00FF).  Text beyond that range
        is not representable here.
      - A computation that may raise returns an [outcome]; console output,
        the file system and the object heap are threaded explicitly.
      - What the platform supplies (the git child process, [glob], the
        contents of files) is an explicit argument of the functions. *)

From Stdlib Require Import Ascii String.
From Stdlib Require Import List ZArith Lia Bool Arith.
From Stdlib Require DecimalFacts DecimalPos DecimalN.
Import ListNotations.

Local Open Scope list_scope.

(* ===================================================================== *)
(** * JavaScript strings                                                  *)
(* ===================================================================== *)

Definition jsstring : Type := list ascii.

(** String literals. *)
Definition str (s : string) : jsstring := list_ascii_of_string s.

Definition code (c : ascii) : Z := Z.of_N (N_of_ascii c).
Definition chr (z : Z) : ascii := ascii_of_N (Z.to_N z).

Definition jsstring_eqb (a b : jsstring) : bool :=
  if list_eq_dec ascii_dec a b then true else false.

(** [s.startsWith(p)] *)
Fixpoint startsWith (p s : jsstring) : bool :=
  match p, s with
  | [], _ => true
  | _ :: _, [] => false
  | a :: p', b :: s' => Ascii.eqb a b && startsWith p' s'
  end.

(** [s.endsWith(p)] *)
Definition endsWith (p s : jsstring) : bool := startsWith (rev p) (rev s).

(** [s.includes(p)]: [p] occurs somewhere in [s]. *)
Fixpoint includes (p s : jsstring) : bool :=
  startsWith p s ||
  match s with
  | [] => false
  | _ :: s' => includes p s'
  end.

(** [s.split(d)] for a non-empty separator [d] (every separator of the
    source is one): cut at each occurrence of [d], scanning from the left;
    an occurrence consumed is not scanned again.  [skip] counts the
    characters of a matched separator still to pass over, [cur] is the piece
    being collected, reversed. *)
Fixpoint split_go (d : jsstring) (skip : nat) (cur : jsstring) (s : jsstring)
  : list jsstring :=
  match s with
  | [] => [rev cur]
  | c :: s' =>
      match skip with
      | S k => split_go d k cur s'
      | O =>
          if startsWith d s
          then rev cur :: split_go d (length d - 1) [] s'
          else split_go d 0 (c :: cur) s'
      end
  end.

Definition split (d s : jsstring) : list jsstring := split_go d 0 [] s.

(** [l.join(d)] *)
Fixpoint join (d : jsstring) (l : list jsstring) : jsstring :=
  match l with
  | [] => []
  | [x] => x
  | x :: l' => x ++ d ++ join d l'
  end.

(** White space and line terminators of ECMAScript in U+0000 .. U+00FF:
    TAB, LF, VT, FF, CR, SP and NBSP. *)
Definition isWhiteSpace (c : ascii) : bool :=
  let n := code c in
  ((9 <=? n) && (n <=? 13) || (n =? 32) || (n =? 160))%Z.

Fixpoint trimStart (s : jsstring) : jsstring :=
  match s with
  | [] => []
  | c :: s' => if isWhiteSpace c then trimStart s' else s
  end.

Definition trimEnd (s : jsstring) : jsstring := rev (trimStart (rev s)).

(** [s.trim()] *)
Definition trim (s : jsstring) : jsstring := trimEnd (trimStart s).

(** Remove a suffix, when it is one. *)
Definition dropSuffix (p s : jsstring) : option jsstring :=
  if endsWith p s then Some (firstn (length s - length p) s) else None.

(** [s.replace(re, '')] for a regular expression [re] that is anchored at the
    end of the input and matches exactly the strings of [alts]: the match
    found is the leftmost one, that is the longest suffix in [alts]; [alts]
    is listed longest first.  Without a match the string is unchanged. *)
Fixpoint replaceAtEnd (alts : list jsstring) (s : jsstring) : jsstring :=
  match alts with
  | [] => s
  | p :: alts' =>
      match dropSuffix p s with
      | Some s' => s'
      | None => replaceAtEnd alts' s
      end
  end.

(** Decimal digits of a natural number, most significant first, without
    leading zeros. *)
Fixpoint uint_chars (d : Decimal.uint) : jsstring :=
  match d with
  | Decimal.Nil => []
  | Decimal.D0 d' => "0"%char :: uint_chars d'
  | Decimal.D1 d' => "1"%char :: uint_chars d'
  | Decimal.D2 d' => "2"%char :: uint_chars d'
  | Decimal.D3 d' => "3"%char :: uint_chars d'
  | Decimal.D4 d' => "4"%char :: uint_chars d'
  | Decimal.D5 d' => "5"%char :: uint_chars d'
  | Decimal.D6 d' => "6"%char :: uint_chars d'
  | Decimal.D7 d' => "7"%char :: uint_chars d'
  | Decimal.D8 d' => "8"%char :: uint_chars d'
  | Decimal.D9 d' => "9"%char :: uint_chars d'
  end.

Definition digits (n : N) : jsstring := uint_chars (N.to_uint n).

(** [String(z)] for an integer [z]. *)
Definition Z_toString (z : Z) : jsstring :=
  match z with
  | Zneg p => str "-" ++ digits (Npos p)
  | _ => digits (Z.to_N z)
  end.

(* ===================================================================== *)
(** * Outcomes                                                            *)
(* ===================================================================== *)

(** The exceptions that the embedded code raises or lets through. *)
Inductive exn : Type :=
| SpawnError (e : jsstring)      (* [output.error] of the child process, rethrown *)
| Error (message : jsstring)     (* [new Error(message)] *)
| TypeError                      (* a method call on [undefined] *)
| SyntaxError                    (* [JSON.parse] on text that is not JSON *)
| ENOENT (path : jsstring).      (* [readFile] on a path that does not exist *)

(** A computation returns, throws, or leaves the fragment of JavaScript
    modelled here ([Unmodelled]: numbers that are not safe integers, text
    beyond U+00FF). *)
Inductive outcome (A : Type) : Type :=
| Ret (a : A)
| Throw (e : exn)
| Unmodelled.

Arguments Ret {A} a.
Arguments Throw {A} e.
Arguments Unmodelled {A}.

Definition obind {A B} (m : outcome A) (k : A -> outcome B) : outcome B :=
  match m with
  | Ret a => k a
  | Throw e => Throw e
  | Unmodelled => Unmodelled
  end.

(** [l.map(f)] where [f] may throw: the first exception, from the left,
    ends the loop. *)
Fixpoint omap {A B} (f : A -> outcome B) (l : list A) : outcome (list B) :=
  match l with
  | [] => Ret []
  | x :: l' =>
      obind (f x) (fun y => obind (omap f l') (fun ys => Ret (y :: ys)))
  end.

(** [l.filter(e => !!e)] on a list of possibly-undefined elements. *)
Fixpoint somes {A} (l : list (option A)) : list A :=
  match l with
  | [] => []
  | Some x :: l' => x :: somes l'
  | None :: l' => somes l'
  end.

(* ===================================================================== *)
(** * SHA-256 and base64 ([crypto.createHash], [Buffer.toString])         *)
(* ===================================================================== *)

(** [createHash('sha256')] is the hash function of FIPS 180-4; words are
    32-bit integers in [Z], every sum reduced modulo 2^32. *)
Module Sha256.

Local Open Scope Z_scope.

Definition w32 (x : Z) : Z := x mod 2 ^ 32.
Definition add32 (x y : Z) : Z := w32 (x + y).
Definition rotr (n x : Z) : Z :=
  Z.lor (Z.shiftr x n) (w32 (Z.shiftl x (32 - n))).
Definition shr (n x : Z) : Z := Z.shiftr x n.
Definition not32 (x : Z) : Z := Z.lxor x 0xffffffff.

Definition Ch (x y z : Z) : Z := Z.lxor (Z.land x y) (Z.land (not32 x) z).
Definition Maj (x y z : Z) : Z :=
  Z.lxor (Z.lxor (Z.land x y) (Z.land x z)) (Z.land y z).
Definition Sigma0 (x : Z) : Z := Z.lxor (Z.lxor (rotr 2 x) (rotr 13 x)) (rotr 22 x).
Definition Sigma1 (x : Z) : Z := Z.lxor (Z.lxor (rotr 6 x) (rotr 11 x)) (rotr 25 x).
Definition sigma0 (x : Z) : Z := Z.lxor (Z.lxor (rotr 7 x) (rotr 18 x)) (shr 3 x).
Definition sigma1 (x : Z) : Z := Z.lxor (Z.lxor (rotr 17 x) (rotr 19 x)) (shr 10 x).

(** The primes up to 311, the first sixty-four. *)
Definition is_prime (n : nat) : bool :=
  forallb (fun d => negb (n mod d =? 0)%nat) (seq 2 (n - 2)).

Definition primes : list Z := map Z.of_nat (filter is_prime (seq 2 310)).

(** The integer cube root, one bit at a time. *)
Fixpoint cbrt_go (bits : nat) (n r : Z) : Z :=
  match bits with
  | O => r
  | S b =>
      let r' := r + 2 ^ Z.of_nat b in
      if r' * r' * r' <=? n then cbrt_go b n r' else cbrt_go b n r
  end.

(** The round constants: the first 32 bits of the fractional part of the
    cube root of each of the first sixty-four primes. *)
Definition K : list Z := map (fun p => w32 (cbrt_go 40 (p * 2 ^ 96) 0)) primes.

(** The initial hash value: the first 32 bits of the fractional part of the
    square root of each of the first eight primes. *)
Definition H0 : list Z := map (fun p => w32 (Z.sqrt (p * 2 ^ 64))) (firstn 8 primes).

(** Big-endian bytes of a [n]-byte number. *)
Fixpoint be_bytes (n : nat) (x : Z) : list Z :=
  match n with
  | O => []
  | S n' => (x / 256 ^ Z.of_nat n') mod 256 :: be_bytes n' x
  end.

(** The message, a 1 bit, zeros up to 56 modulo 64, the length in bits. *)
Definition pad (msg : list Z) : list Z :=
  let len := Z.of_nat (length msg) in
  msg ++ [128] ++ repeat 0 (Z.to_nat ((55 - len) mod 64)) ++ be_bytes 8 (8 * len).

(** Big-endian 32-bit words of a byte string. *)
Fixpoint words (fuel : nat) (bs : list Z) : list Z :=
  match fuel, bs with
  | S fuel', b0 :: b1 :: b2 :: b3 :: bs' =>
      (((b0 * 256 + b1) * 256 + b2) * 256 + b3) :: words fuel' bs'
  | _, _ => []
  end.

(** The message schedule, most recent word first in [W]. *)
Fixpoint schedule (n : nat) (W : list Z) : list Z :=
  match n with
  | O => W
  | S n' =>
      let wt := add32 (add32 (add32 (sigma1 (nth 1 W 0)) (nth 6 W 0))
                              (sigma0 (nth 14 W 0))) (nth 15 W 0) in
      schedule n' (wt :: W)
  end.

Definition round (s : list Z) (kw : Z * Z) : list Z :=
  match s with
  | [a; b; c; d; e; f; g; h] =>
      let T1 := add32 (add32 (add32 (add32 h (Sigma1 e)) (Ch e f g)) (fst kw)) (snd kw) in
      let T2 := add32 (Sigma0 a) (Maj a b c) in
      [add32 T1 T2; a; b; c; add32 d T1; e; f; g]
  | _ => s
  end.

Definition compress (H : list Z) (block : list Z) : list Z :=
  let W := rev (schedule 48 (rev block)) in
  map (fun p => add32 (fst p) (snd p))
      (combine H (fold_left round (combine K W) H)).

Fixpoint blocks (fuel : nat) (H : list Z) (ws : list Z) : list Z :=
  match fuel, ws with
  | S fuel', _ :: _ => blocks fuel' (compress H (firstn 16 ws)) (skipn 16 ws)
  | _, _ => H
  end.

(** The 32 bytes of the digest of a byte string. *)
Definition sha256 (msg : list Z) : list Z :=
  let bs := pad msg in
  let ws := words (length bs) bs in
  flat_map (be_bytes 4) (blocks (length ws) H0 ws).

End Sha256.

(** [Buffer.from(s, 'utf-8')]: the bytes of a string. *)
Definition utf8 (s : jsstring) : list Z :=
  flat_map (fun c => let n := code c in
                     if (n <? 128)%Z then [n]
                     else [192 + n / 64; 128 + n mod 64]%Z) s.

Definition base64_alphabet : jsstring :=
  str "ABCDEFGHIJKLMNOPQRSTUVWXYZabcdefghijklmnopqrstuvwxyz0123456789+/".

Definition base64_char (i : Z) : ascii := nth (Z.to_nat i) base64_alphabet "="%char.

(** [buf.toString('base64')] *)
Fixpoint base64 (fuel : nat) (bs : list Z) : jsstring :=
  match fuel with
  | O => []
  | S fuel' =>
      match bs with
      | [] => []
      | [a] =>
          [base64_char (a / 4); base64_char ((a mod 4) * 16); "="; "="]%char%Z
      | [a; b] =>
          [base64_char (a / 4); base64_char ((a mod 4) * 16 + b / 16);
           base64_char ((b mod 16) * 4); "="]%char%Z
      | a :: b :: c :: bs' =>
          ([base64_char (a / 4); base64_char ((a mod 4) * 16 + b / 16);
            base64_char ((b mod 16) * 4 + c / 64); base64_char (c mod 64)]
             ++ base64 fuel' bs')%Z
      end
  end.

Definition toString_base64 (bs : list Z) : jsstring := base64 (S (length bs)) bs.

(** Lower-case hexadecimal, two digits a byte ([buf.toString('hex')]);
    used to compare [Sha256.sha256] with published digests. *)
Definition toString_hex (bs : list Z) : jsstring :=
  flat_map (fun b => [nth (Z.to_nat (b / 16)) (str "0123456789abcdef") "0"%char;
                      nth (Z.to_nat (b mod 16)) (str "0123456789abcdef") "0"%char]) bs.

(* ===================================================================== *)
(** * core/git.ts                                                         *)
(* ===================================================================== *)

Definition LF : ascii := "010"%char.
Definition CR : ascii := "013"%char.

Definition delim1 : jsstring := str "E2B4D2F3-B7AF-4377-BF0F-D81F4E0723F3".
Definition delim2 : jsstring := str "25B7DA41-228B-4679-B2A2-86E328D3C3DE".

(** [endRegex = new RegExp(`${delim2}\\r?\\n?$`)]: [delim2], an optional
    carriage return, an optional line feed, the end of the input. *)
Definition endRegex : list jsstring :=
  [delim2 ++ [CR; LF]; delim2 ++ [CR]; delim2 ++ [LF]; delim2].

Record GitCommit : Type := mkGitCommit {
  subject : jsstring;
  body : jsstring;
  date : jsstring;   (* the argument of [new Date(...)] *)
  hash : jsstring
}.

(** What [crossSpawnAsync('git', args, {cwd})] resolves to. *)
Record SpawnResult : Type := mkSpawnResult {
  error : option jsstring;
  exitCode : option Z;          (* [null] when a signal ended the process *)
  stdout : jsstring;
  stderr : jsstring
}.

(** The git executable: the result of a run, by arguments and directory. *)
Definition GitProcess : Type := list jsstring -> option jsstring -> SpawnResult.

(** A computation that writes lines to the console ([console.log]). *)
Definition io (A : Type) : Type := list jsstring * outcome A.

Definition io_ret {A} (a : A) : io A := ([], Ret a).

Definition io_bind {A B} (m : io A) (k : A -> io B) : io B :=
  match m with
  | (out, Ret a) => let (out', r) := k a in (out ++ out', r)
  | (out, Throw e) => (out, Throw e)
  | (out, Unmodelled) => (out, Unmodelled)
  end.

Definition exitCode_toString (c : option Z) : jsstring :=
  match c with
  | Some z => Z_toString z
  | None => str "null"
  end.

(** The regular expression of [gitExec] is written [/\\r?\\n?$/]: a
    backslash, an optional letter r, a backslash, an optional letter n, the
    end of the input. *)
Definition gitExec_regex : list jsstring :=
  [str "\r\n"; str "\r\"; str "\\n"; str "\\"].

Definition gitExec (git : GitProcess) (args : list jsstring) (cwd : option jsstring)
  : io jsstring :=
  let output := git args cwd in
  match error output with
  | Some e => ([], Throw (SpawnError e))
  | None =>
      if match exitCode output with Some 0%Z => false | _ => true end
      then ([stderr output; stdout output],
            Throw (Error (str "Invalid status code from git output: "
                            ++ exitCode_toString (exitCode output))))
      else ([], Ret (trim (replaceAtEnd gitExec_regex (stdout output))))
  end.

(** A string used as a condition: [undefined] and [''] are false. *)
Definition truthy (s : option jsstring) : bool :=
  match s with
  | Some (_ :: _) => true
  | _ => false
  end.

Definition formatFlag : jsstring :=
  str "--format=format:%s" ++ delim1 ++ str "%cI" ++ delim1 ++ str "%H"
    ++ delim1 ++ str "%b" ++ delim2.

(** [parseEntry]: [undefined] for the empty record; in a record with fewer
    than four fields [hash] or [body] is [undefined] and its [.trim()]
    raises a TypeError. *)
Definition parseEntry (entry : jsstring) : outcome (option GitCommit) :=
  match entry with
  | [] => Ret None
  | _ :: _ =>
      match split delim1 entry with
      | subject :: date :: hash :: body :: _ =>
          Ret (Some {| subject := trim subject;
                       date := date;
                       hash := trim hash;
                       body := trim body |})
      | _ => Throw TypeError
      end
  end.

Definition logs_args (sinceHash relativeCwd : option jsstring) : list jsstring :=
  [str "log"; str "--reverse"; formatFlag]
    ++ (match sinceHash with
        | Some h => if truthy (Some h) then [h ++ str ".."] else []
        | None => []
        end)
    ++ (match relativeCwd with
        | Some p => if truthy (Some p) then [str "--"; p] else []
        | None => []
        end).

(** [Git.logs] *)
Definition logs (git : GitProcess) (cwd : jsstring)
           (sinceHash relativeCwd : option jsstring) : io (list GitCommit) :=
  io_bind (gitExec git (logs_args sinceHash relativeCwd) (Some cwd)) (fun output =>
  ([], obind (omap parseEntry (split delim2 (replaceAtEnd endRegex output)))
             (fun es => Ret (somes es)))).

Definition isGenerated (l : jsstring) : bool :=
  includes (str "package.json") l || includes (str "CHANGELOG.md") l.

Definition cleanStatus (status : jsstring) : jsstring :=
  join [LF] (filter (fun l => negb (isGenerated l)) (split [LF] status)).

(** [Git.gitStatusHash] *)
Definition gitStatusHash (git : GitProcess) (cwd : jsstring) : io jsstring :=
  io_bind (gitExec git [str "rev-parse"; str "--revs-only"; str "HEAD"] (Some cwd))
          (fun commit =>
  io_bind (gitExec git [str "status"; str "--porcelain"] (Some cwd))
          (fun status =>
  let cleanedStatus := cleanStatus status in
  io_ret (toString_base64 (Sha256.sha256 (utf8 commit ++ utf8 cleanedStatus))))).

(** ** The other operations of [core/git.ts] *)


Module GitTag.

(** A field is [None] where the JavaScript object holds [undefined]. *)
Record t : Type := mk {
  tagName : option jsstring;
  hash : option jsstring
}.

End GitTag.

(** [s.replace(/\n*$/, '')]: the leftmost position from which only line
    feeds follow is where the line feeds at the end of [s] begin. *)
Fixpoint dropLineFeeds (s : jsstring) : jsstring :=
  match s with
  | [] => []
  | c :: s' => if Ascii.eqb c LF then dropLineFeeds s' else s
  end.

Definition replaceLineFeedsAtEnd (s : jsstring) : jsstring :=
  rev (dropLineFeeds (rev s)).

(** Modelled from the spec: the classes of [./git-platform], the hosted
    platform that renders links and the generic one. *)
Inductive IGitPlatform : Type :=
| Github
| Generic.

(** The git executable as it acts on a repository of type [R]: a run
    answers and leaves the repository changed. *)
Definition GitRepository (R : Type) : Type :=
  list jsstring -> option jsstring -> R -> R * SpawnResult.

(** A computation that runs git on the repository and writes to the
    console. *)
Definition act (R A : Type) : Type := R -> R * io A.

Definition act_ret {R A} (a : A) : act R A := fun r => (r, io_ret a).

Definition act_bind {R A B} (m : act R A) (k : A -> act R B) : act R B :=
  fun r =>
    match m r with
    | (r', (out, Ret a)) =>
        match k a r' with
        | (r'', (out', b)) => (r'', (out ++ out', b))
        end
    | (r', (out, Throw e)) => (r', (out, Throw e))
    | (r', (out, Unmodelled)) => (r', (out, Unmodelled))
    end.

(** [gitExec] on a repository. *)
Definition gitExec_in {R} (git : GitRepository R) (args : list jsstring)
           (cwd : option jsstring) : act R jsstring :=
  fun r =>
    match git args cwd r with
    | (r', output) => (r', gitExec (fun _ _ => output) args cwd)
    end.

(** The methods of the class [Git]; [cwd] is [this.cwd]. *)
Module Git.

(** The [parseEntry] of [versionTags]:
    [const [hash, tagName] = entry.trim().split(delim1)]. *)
Definition versionTags_parseEntry (entry : jsstring) : option GitTag.t :=
  match entry with
  | [] => None
  | _ :: _ =>
      let fields := split delim1 (trim entry) in
      Some {| GitTag.hash := nth_error fields 0;
              GitTag.tagName := nth_error fields 1 |}
  end.

(** The arguments of [git tag]; [prefix] defaults to ['v']. *)
Definition versionTags_args (prefix : option jsstring) : list jsstring :=
  let prefix := match prefix with Some p => p | None => str "v" end in
  let prefixFilter := prefix ++ str "*" in
  [str "tag"; str "--list"; str "--merged=HEAD";
   str "--format=%(objectname)" ++ delim1 ++ str "%(refname:strip=2)" ++ delim2;
   prefixFilter].

Definition versionTags (git : GitProcess) (cwd : jsstring)
           (prefix : option jsstring) : io (list GitTag.t) :=
  io_bind (gitExec git (versionTags_args prefix) (Some cwd)) (fun output =>
  io_ret (somes (map versionTags_parseEntry
                     (split delim2 (replaceAtEnd endRegex output))))).


Definition addAndCommitFiles {R} (git : GitRepository R) (message : jsstring)
           (files : list jsstring) : act R unit :=
  act_bind (gitExec_in git (str "add" :: files) None) (fun _ =>
  act_bind (gitExec_in git ([str "commit"; str "-m"; message ++ str " [skip ci]";
                             str "--"] ++ files) None) (fun _ =>
  act_ret tt)).

Definition push {R} (git : GitRepository R) : act R unit :=
  act_bind (gitExec_in git [str "push"; str "origin"; str "--follow-tags"] None)
           (fun _ => act_ret tt).

(** [currentBranch]; the first argument is
    [process.env.BUILD_SOURCEBRANCHNAME]. *)
Definition currentBranch (BUILD_SOURCEBRANCHNAME : option jsstring)
           (git : GitProcess) (cwd : jsstring) : io jsstring :=
  match BUILD_SOURCEBRANCHNAME with
  | Some (c :: name) => io_ret (c :: name)
  | _ =>
      io_bind (gitExec git [str "rev-parse"; str "--abbrev-ref"; str "HEAD"]
                       (Some cwd)) (fun output =>
      io_ret (replaceLineFeedsAtEnd output))
  end.


Definition cleanChangeLogs {R} (git : GitRepository R) (cwd : jsstring)
  : act R unit :=
  act_bind (gitExec_in git [str "clean"; str "-f"; str "**/CHANGELOG.md";
                            str "CHANGELOG.md"] (Some cwd)) (fun _ =>
  act_bind (gitExec_in git [str "checkout"; str "CHANGELOG.md"] (Some cwd))
           (fun _ =>
  act_bind (gitExec_in git [str "checkout"; str "**/CHANGELOG.md"] (Some cwd))
           (fun _ =>
  act_ret tt))).

(** [platform]: [origin] is the first element of
    [branchOutput.trim().split('/')], which always exists. *)
Definition platform (git : GitProcess) (cwd : jsstring) : io IGitPlatform :=
  io_bind (gitExec git [str "rev-parse"; str "--abbrev-ref";
                        str "--symbolic-full-name"; str "@{u}"] (Some cwd))
          (fun branchOutput =>
  let origin := hd (str "undefined") (split (str "/") (trim branchOutput)) in
  io_bind (gitExec git [str "config"; str "--get";
                        str "remote." ++ origin ++ str ".url"] (Some cwd))
          (fun gitUrl =>
  io_ret (if includes (str "github.com") gitUrl then Github else Generic))).

End Git.

(* ===================================================================== *)
(** * JSON values, [JSON.parse] and [JSON.stringify]                      *)
(* ===================================================================== *)

(** The values [JSON.parse] builds.  A number is an integer (see
    [Unmodelled]); an object lists its own properties in the order in which
    JavaScript enumerates them. *)
Unset Elimination Schemes.
Inductive json : Type :=
| JNull
| JBool (b : bool)
| JNumber (z : Z)
| JString (s : jsstring)
| JArray (l : list json)
| JObject (props : list (jsstring * json)).
Set Elimination Schemes.

Definition is_digit (c : ascii) : bool := ((48 <=? code c) && (code c <=? 57))%Z.

(** Read the decimal digits at the head of the input. *)
Fixpoint scan_uint (s : jsstring) : Decimal.uint * jsstring :=
  match s with
  | [] => (Decimal.Nil, [])
  | c :: r =>
      let k (D : Decimal.uint -> Decimal.uint) := let (d, r') := scan_uint r in (D d, r') in
      if Ascii.eqb c "0" then k Decimal.D0
      else if Ascii.eqb c "1" then k Decimal.D1
      else if Ascii.eqb c "2" then k Decimal.D2
      else if Ascii.eqb c "3" then k Decimal.D3
      else if Ascii.eqb c "4" then k Decimal.D4
      else if Ascii.eqb c "5" then k Decimal.D5
      else if Ascii.eqb c "6" then k Decimal.D6
      else if Ascii.eqb c "7" then k Decimal.D7
      else if Ascii.eqb c "8" then k Decimal.D8
      else if Ascii.eqb c "9" then k Decimal.D9
      else (Decimal.Nil, s)
  end.

(** A property key that is an array index: the canonical decimal numeral of
    an integer below 2^32 - 1. *)
Definition array_index (k : jsstring) : option N :=
  match scan_uint k with
  | (Decimal.Nil, _) => None
  | (d, []) =>
      let n := N.of_uint d in
      if jsstring_eqb (digits n) k && (n <=? 4294967294)%N then Some n else None
  | _ => None
  end.

Fixpoint get (k : jsstring) (props : list (jsstring * json)) : option json :=
  match props with
  | [] => None
  | (k', v) :: props' => if jsstring_eqb k k' then Some v else get k props'
  end.

Fixpoint replace_value (k : jsstring) (v : json) (props : list (jsstring * json))
  : list (jsstring * json) :=
  match props with
  | [] => []
  | (k', v') :: props' =>
      if jsstring_eqb k k' then (k', v) :: props'
      else (k', v') :: replace_value k v props'
  end.

Fixpoint insert_index (n : N) (k : jsstring) (v : json) (props : list (jsstring * json))
  : list (jsstring * json) :=
  match props with
  | [] => [(k, v)]
  | (k', v') :: props' =>
      match array_index k' with
      | Some n' =>
          if (n' <? n)%N then (k', v') :: insert_index n k v props'
          else (k, v) :: props
      | None => (k, v) :: props
      end
  end.

(** [o[k] = v] on an ordinary object: an existing property keeps its place;
    a new one is enumerated among the array indices, in ascending order, when
    its key is one, and after every other property otherwise. *)
Definition set (k : jsstring) (v : json) (props : list (jsstring * json))
  : list (jsstring * json) :=
  match get k props with
  | Some _ => replace_value k v props
  | None =>
      match array_index k with
      | Some n => insert_index n k v props
      | None => props ++ [(k, v)]
      end
  end.

Definition DQUOTE : ascii := "034"%char.
Definition BSLASH : ascii := "\"%char.

(** White space of the JSON grammar. *)
Definition json_ws (c : ascii) : bool :=
  Ascii.eqb c " " || Ascii.eqb c "009" || Ascii.eqb c LF || Ascii.eqb c CR.

Fixpoint skip_ws (s : jsstring) : jsstring :=
  match s with
  | [] => []
  | c :: r => if json_ws c then skip_ws r else s
  end.

Definition hex_value (c : ascii) : option Z :=
  let n := code c in
  if ((48 <=? n) && (n <=? 57))%Z then Some (n - 48)%Z
  else if ((97 <=? n) && (n <=? 102))%Z then Some (n - 87)%Z
  else if ((65 <=? n) && (n <=? 70))%Z then Some (n - 55)%Z
  else None.

Definition hex4 (a b c d : ascii) : option Z :=
  match hex_value a, hex_value b, hex_value c, hex_value d with
  | Some x, Some y, Some z, Some w => Some (((x * 16 + y) * 16 + z) * 16 + w)%Z
  | _, _, _, _ => None
  end.

(** The character an escape letter stands for. *)
Definition unescape (e : ascii) : option ascii :=
  if Ascii.eqb e DQUOTE then Some DQUOTE
  else if Ascii.eqb e BSLASH then Some BSLASH
  else if Ascii.eqb e "/" then Some "/"%char
  else if Ascii.eqb e "b" then Some "008"%char
  else if Ascii.eqb e "f" then Some "012"%char
  else if Ascii.eqb e "n" then Some LF
  else if Ascii.eqb e "r" then Some CR
  else if Ascii.eqb e "t" then Some "009"%char
  else None.

Definition omap_fst {A B C} (f : A -> C) (m : outcome (A * B)) : outcome (C * B) :=
  obind m (fun p => Ret (f (fst p), snd p)).

(** The characters of a string literal, after its opening quote. *)
Fixpoint parse_string (s : jsstring) : outcome (jsstring * jsstring) :=
  match s with
  | [] => Throw SyntaxError
  | c :: r =>
      if Ascii.eqb c DQUOTE then Ret ([], r)
      else if Ascii.eqb c BSLASH then
        match r with
        | [] => Throw SyntaxError
        | e :: r1 =>
            if Ascii.eqb e "u" then
              match r1 with
              | h1 :: h2 :: h3 :: h4 :: r2 =>
                  match hex4 h1 h2 h3 h4 with
                  | Some n =>
                      if (n <? 256)%Z then omap_fst (cons (chr n)) (parse_string r2)
                      else Unmodelled
                  | None => Throw SyntaxError
                  end
              | _ => Throw SyntaxError
              end
            else
              match unescape e with
              | Some c' => omap_fst (cons c') (parse_string r1)
              | None => Throw SyntaxError
              end
        end
      else if (code c <? 32)%Z then Throw SyntaxError
      else omap_fst (cons c) (parse_string r)
  end.

Definition MAX_SAFE_INTEGER : N := 9007199254740991.

(** The digits of a number literal and what follows them.  Fractions,
    exponents, integers that a double does not hold exactly and the negative
    zero are outside this model ([Unmodelled]); among them are the literals
    that [JSON.parse] reads as a number [JSON.stringify] does not write
    back, such as [1e999], read as [Infinity] and written as [null]. *)
Definition parse_digits (neg : bool) (s : jsstring) : outcome (json * jsstring) :=
  let (d, r) := scan_uint s in
  match d with
  | Decimal.Nil => Throw SyntaxError
  | _ =>
      if match d with Decimal.D0 Decimal.Nil => false | Decimal.D0 _ => true | _ => false end
      then Throw SyntaxError
      else if match r with
              | c :: _ => Ascii.eqb c "." || Ascii.eqb c "e" || Ascii.eqb c "E"
              | [] => false
              end
      then Unmodelled
      else
        let n := N.of_uint d in
        if (MAX_SAFE_INTEGER <? n)%N then Unmodelled
        else if neg && (n =? 0)%N then Unmodelled
        else Ret (JNumber (if neg then - Z.of_N n else Z.of_N n)%Z, r)
  end.

(** A number literal: an optional minus sign, then the digits. *)
Definition parse_number (s : jsstring) : outcome (json * jsstring) :=
  match s with
  | c :: r => if Ascii.eqb c "-" then parse_digits true r else parse_digits false s
  | [] => parse_digits false s
  end.

Definition parse_literal (lit : jsstring) (v : json) (s : jsstring)
  : outcome (json * jsstring) :=
  if startsWith lit s then Ret (v, skipn (length lit) s) else Throw SyntaxError.

(** Recursive descent over the JSON grammar.  [fuel] bounds the number of
    nested calls; running out of it is [Unmodelled]. *)
Fixpoint parse_value (fuel : nat) (s : jsstring) {struct fuel}
  : outcome (json * jsstring) :=
  match fuel with
  | O => Unmodelled
  | S fuel' =>
      match skip_ws s with
      | [] => Throw SyntaxError
      | c :: r =>
          if Ascii.eqb c "{" then
            match skip_ws r with
            | [] => Throw SyntaxError
            | c' :: r' =>
                if Ascii.eqb c' "}" then Ret (JObject [], r')
                else parse_members fuel' [] (c' :: r')
            end
          else if Ascii.eqb c "[" then
            match skip_ws r with
            | [] => Throw SyntaxError
            | c' :: r' =>
                if Ascii.eqb c' "]" then Ret (JArray [], r')
                else parse_elements fuel' [] (c' :: r')
            end
          else if Ascii.eqb c DQUOTE then omap_fst JString (parse_string r)
          else if Ascii.eqb c "t" then parse_literal (str "true") (JBool true) (c :: r)
          else if Ascii.eqb c "f" then parse_literal (str "false") (JBool false) (c :: r)
          else if Ascii.eqb c "n" then parse_literal (str "null") JNull (c :: r)
          else if Ascii.eqb c "-" || is_digit c then parse_number (c :: r)
          else Throw SyntaxError
      end
  end

with parse_elements (fuel : nat) (acc : list json) (s : jsstring) {struct fuel}
  : outcome (json * jsstring) :=
  match fuel with
  | O => Unmodelled
  | S fuel' =>
      obind (parse_value fuel' s) (fun p =>
        match skip_ws (snd p) with
        | [] => Throw SyntaxError
        | c :: r =>
            if Ascii.eqb c "," then parse_elements fuel' (fst p :: acc) r
            else if Ascii.eqb c "]" then Ret (JArray (rev (fst p :: acc)), r)
            else Throw SyntaxError
        end)
  end

with parse_members (fuel : nat) (acc : list (jsstring * json)) (s : jsstring)
       {struct fuel} : outcome (json * jsstring) :=
  match fuel with
  | O => Unmodelled
  | S fuel' =>
      match skip_ws s with
      | [] => Throw SyntaxError
      | q :: r =>
          if Ascii.eqb q DQUOTE then
            obind (parse_string r) (fun kr =>
              match skip_ws (snd kr) with
              | [] => Throw SyntaxError
              | c :: r1 =>
                  if Ascii.eqb c ":" then
                    obind (parse_value fuel' r1) (fun p =>
                      match skip_ws (snd p) with
                      | [] => Throw SyntaxError
                      | c' :: r2 =>
                          if Ascii.eqb c' "," then
                            parse_members fuel' (set (fst kr) (fst p) acc) r2
                          else if Ascii.eqb c' "}" then
                            Ret (JObject (set (fst kr) (fst p) acc), r2)
                          else Throw SyntaxError
                      end)
                  else Throw SyntaxError
              end)
          else Throw SyntaxError
      end
  end.

(** [JSON.parse(text)] *)
Definition JSON_parse (text : jsstring) : outcome json :=
  obind (parse_value (2 * length text + 2) text) (fun p =>
    match skip_ws (snd p) with
    | [] => Ret (fst p)
    | _ :: _ => Throw SyntaxError
    end).

Definition hex_digit (n : Z) : ascii := nth (Z.to_nat n) (str "0123456789abcdef") "0"%char.

(** [QuoteJSONString], one character at a time. *)
Definition escape (c : ascii) : jsstring :=
  let n := code c in
  if (n =? 8)%Z then str "\b"
  else if (n =? 9)%Z then str "\t"
  else if (n =? 10)%Z then str "\n"
  else if (n =? 12)%Z then str "\f"
  else if (n =? 13)%Z then str "\r"
  else if (n =? 34)%Z then [BSLASH; DQUOTE]
  else if (n =? 92)%Z then [BSLASH; BSLASH]
  else if (n <? 32)%Z then str "\u00" ++ [hex_digit (n / 16); hex_digit (n mod 16)]
  else [c].

Definition quote (s : jsstring) : jsstring :=
  DQUOTE :: flat_map escape s ++ [DQUOTE].

Definition spaces (n : nat) : jsstring := repeat " "%char n.

(** [JSON.stringify(v, null, 2)] at indentation [ind]: every element or
    property on a line of its own, two spaces deeper than its container. *)
Fixpoint stringify (ind : nat) (v : json) : jsstring :=
  match v with
  | JNull => str "null"
  | JBool true => str "true"
  | JBool false => str "false"
  | JNumber z => Z_toString z
  | JString s => quote s
  | JArray [] => str "[]"
  | JArray (x :: l) =>
      str "[" ++ [LF] ++ spaces (2 + ind) ++ stringify (2 + ind) x
        ++ (fix rest (l : list json) : jsstring :=
              match l with
              | [] => [LF] ++ spaces ind ++ str "]"
              | y :: l' =>
                  str "," ++ [LF] ++ spaces (2 + ind) ++ stringify (2 + ind) y ++ rest l'
              end) l
  | JObject [] => str "{}"
  | JObject ((k, x) :: ps) =>
      str "{" ++ [LF] ++ spaces (2 + ind) ++ quote k ++ str ": " ++ stringify (2 + ind) x
        ++ (fix rest (ps : list (jsstring * json)) : jsstring :=
              match ps with
              | [] => [LF] ++ spaces ind ++ str "}"
              | (k', y) :: ps' =>
                  str "," ++ [LF] ++ spaces (2 + ind) ++ quote k' ++ str ": "
                    ++ stringify (2 + ind) y ++ rest ps'
              end) ps
  end.

Definition JSON_stringify2 (v : json) : jsstring := stringify 0 v.

(* ===================================================================== *)
(** * plugins/embedded/gradle/gradle-project.ts                           *)
(* ===================================================================== *)

(** ** The schema [isGradleBuildFile]

    [t.isPartial({version: t.isOptional(t.isString()), name: t.isString(),
    private: t.isOptional(t.isBoolean()),
    workspaces: t.isOptional(t.isArray(t.isString()))})] of the typanion
    library: the value is an object, each listed property passes its
    validator (an absent property is tested as [undefined], which only
    [isOptional] lets through), other properties are allowed, and no own
    property is named [constructor] or [__proto__].  An array is an object
    without a [name], so it fails like the primitive values do. *)

Definition isString (v : option json) : bool :=
  match v with Some (JString _) => true | _ => false end.

Definition isBoolean (v : option json) : bool :=
  match v with Some (JBool _) => true | _ => false end.

Definition isArray (spec : option json -> bool) (v : option json) : bool :=
  match v with
  | Some (JArray l) => forallb (fun x => spec (Some x)) l
  | _ => false
  end.

Definition isOptional (spec : option json -> bool) (v : option json) : bool :=
  match v with None => true | Some _ => spec v end.

Definition unsafe_name (k : jsstring) : bool :=
  jsstring_eqb k (str "constructor") || jsstring_eqb k (str "__proto__").

Definition isGradleBuildFile (content : json) : bool :=
  match content with
  | JObject props =>
      negb (existsb unsafe_name (map fst props))
      && isOptional isString (get (str "version") props)
      && isString (get (str "name") props)
      && isOptional isBoolean (get (str "private") props)
      && isOptional (isArray isString) (get (str "workspaces") props)
  | _ => false
  end.

Record GradleManifestContent : Type := mkContent {
  manifest : json;
  eofInEnd : bool
}.

Definition GRADLE_MANIFEST_NAME : jsstring := str "build.gradle".

(** ** The platform and the state *)

(** [path.join] and [glob] are the platform's. *)
Record Platform : Type := mkPlatform {
  path_join : jsstring -> jsstring -> jsstring;
  glob : list jsstring -> jsstring -> list jsstring   (* patterns, [cwd] *)
}.

(** The text of each file that exists. *)
Definition Files : Type := jsstring -> option jsstring.

(** Modelled from the spec: the options of [core/configuration] that the
    gradle plugin reads, [independentVersioning] and [versionTagPrefix]. *)
Record Options : Type := mkOptions {
  independentVersioning : bool;
  versionTagPrefix : jsstring
}.

(** Modelled from the spec: the argument of [initialize], of which the
    plugin reads [cwd] and [options]; the same value is passed on as the
    configuration of the project. *)
Record IPluginInitialize : Type := mkInitialize {
  cwd : jsstring;
  options : Options
}.

Definition ref : Type := nat.

(** The fields [GradleProject] adds to [GradleWorkspace]. *)
Record ProjectFields : Type := mkProjectFields {
  _cwd : jsstring;
  _config : IPluginInitialize;
  childWorkspaces : list ref
}.

(** An instance of [GradleWorkspace]; of [GradleProject] when [asProject]
    is set.  The [manifestContent] object is referenced by its workspace
    alone, so it is kept in place. *)
Record Instance : Type := mkInstance {
  _project : option ref;          (* [undefined] until the constructor sets it *)
  manifestContent : GradleManifestContent;
  relativeCwd : jsstring;
  asProject : option ProjectFields
}.

Record State : Type := mkState {
  files : Files;
  heap : list Instance
}.

Definition M (A : Type) : Type := State -> State * outcome A.

Definition ret {A} (a : A) : M A := fun st => (st, Ret a).
Definition throw {A} (e : exn) : M A := fun st => (st, Throw e).
Definition unmodelled {A} : M A := fun st => (st, Unmodelled).
Definition lift {A} (o : outcome A) : M A := fun st => (st, o).

Definition bind {A B} (m : M A) (k : A -> M B) : M B :=
  fun st =>
    match m st with
    | (st', Ret a) => k a st'
    | (st', Throw e) => (st', Throw e)
    | (st', Unmodelled) => (st', Unmodelled)
    end.

Notation "x <- m ;; k" := (bind m (fun x => k))
  (at level 61, m at next level, right associativity).

(** [paths.map(async path => ...)] joined by [Promise.all], which rejects
    with the rejection that comes first in time; which one that is, when
    several callbacks fail, the code does not determine.  Here the
    callbacks run in the order of the list and the first failure in that
    order is the one reported: the statements below rely on whether a
    callback fails, not on which failure is reported. *)
Fixpoint mapM {A B} (f : A -> M B) (l : list A) : M (list B) :=
  match l with
  | [] => ret []
  | x :: l' => y <- f x ;; ys <- mapM f l' ;; ret (y :: ys)
  end.

Definition readFile (path : jsstring) : M jsstring :=
  fun st =>
    match files st path with
    | Some text => (st, Ret text)
    | None => (st, Throw (ENOENT path))
    end.

(** [writeFile(path, text, 'utf-8')] where the write goes through: the
    directory of [path] exists and the file can be written.  The rejections
    of [writeFile] (a missing directory, a file that is read-only) are not
    part of this model, which holds files only. *)
Definition writeFile (path text : jsstring) : M unit :=
  fun st =>
    ({| files := fun p => if jsstring_eqb p path then Some text else files st p;
        heap := heap st |}, Ret tt).

Definition deref (r : ref) : M Instance :=
  fun st =>
    match nth_error (heap st) r with
    | Some o => (st, Ret o)
    | None => (st, Unmodelled)
    end.

(** [existsSync] *)
Definition existsSync (path : jsstring) : M bool :=
  fun st =>
    (st, Ret (match files st path with Some _ => true | None => false end)).

Definition alloc (o : Instance) : M ref :=
  fun st => ({| files := files st; heap := heap st ++ [o] |}, Ret (length (heap st))).

Fixpoint update_nth {A} (n : nat) (x : A) (l : list A) : list A :=
  match l, n with
  | [], _ => []
  | _ :: l', O => x :: l'
  | y :: l', S n' => y :: update_nth n' x l'
  end.

Definition store (r : ref) (o : Instance) : M unit :=
  fun st => ({| files := files st; heap := update_nth r o (heap st) |}, Ret tt).

(** ** Loading and persisting the manifest *)

Definition loadGradleBuildFile (P : Platform) (folder : jsstring)
  : M (option GradleManifestContent) :=
  stringContent <- readFile (path_join P folder GRADLE_MANIFEST_NAME) ;;
  content <- lift (JSON_parse stringContent) ;;
  if isGradleBuildFile content
  then ret (Some {| eofInEnd := endsWith [LF] stringContent; manifest := content |})
  else ret None.

Definition persistGradleBuildFile (P : Platform) (folder : jsstring)
           (manifestContent : GradleManifestContent) : M unit :=
  let stringContent := JSON_stringify2 (manifest manifestContent) in
  let stringContent :=
    if eofInEnd manifestContent then stringContent ++ [LF] else stringContent in
  writeFile (path_join P folder GRADLE_MANIFEST_NAME) stringContent.

(** [o.k] on a value of the manifest's type. *)
Definition field (k : string) (m : json) : option json :=
  match m with
  | JObject props => get (str k) props
  | _ => None
  end.

(** [!v] *)
Definition falsy (v : option json) : bool :=
  match v with
  | None | Some JNull | Some (JBool false) | Some (JNumber 0) | Some (JString []) => true
  | Some _ => false
  end.

(** [o.manifest], through the [manifestContent] of an instance. *)
Definition manifestOf (o : Instance) : json := manifest (manifestContent o).

Module GradleWorkspace.

(** The constructor: the instance is created only when the manifest has
    a name. *)
Definition new (project : option ref) (relativeCwd : jsstring)
           (manifestContent : GradleManifestContent) : M ref :=
  if falsy (field "name" (manifest manifestContent))
  then throw (Error (str "Invalid manifest. Package at '" ++ relativeCwd
                       ++ str "' does not have a name"))
  else alloc {| _project := project;
                manifestContent := manifestContent;
                relativeCwd := relativeCwd;
                asProject := None |}.

(** [get project()]: [this] on a [GradleProject], [_project] otherwise. *)
Definition project (this : ref) : M ref :=
  o <- deref this ;;
  match asProject o with
  | Some _ => ret this
  | None =>
      match _project o with
      | Some p => ret p
      | None => unmodelled
      end
  end.

Definition projectFields (this : ref) : M ProjectFields :=
  p <- project this ;;
  o <- deref p ;;
  match asProject o with
  | Some f => ret f
  | None => unmodelled
  end.

(** [get cwd()]: [_cwd] on a [GradleProject],
    [join(this.project.cwd, this.relativeCwd)] otherwise. *)
Definition cwd (P : Platform) (this : ref) : M jsstring :=
  o <- deref this ;;
  match asProject o with
  | Some f => ret (_cwd f)
  | None => f <- projectFields this ;; ret (path_join P (_cwd f) (relativeCwd o))
  end.

(** [get config()] *)
Definition config (this : ref) : M IPluginInitialize :=
  o <- deref this ;;
  match asProject o with
  | Some f => ret (_config f)
  | None => f <- projectFields this ;; ret (_config f)
  end.

Definition manifest (this : ref) : M json :=
  o <- deref this ;; ret (manifestOf o).

(** [get packageName()] *)
Definition packageName (this : ref) : M (option json) :=
  m <- manifest this ;; ret (field "name" m).

(** [get private()]: [this.manifest.private ?? false] *)
Definition private (this : ref) : M json :=
  m <- manifest this ;;
  ret (match field "private" m with
       | None | Some JNull => JBool false
       | Some v => v
       end).

(** [get version()]: [this.manifest.version ?? DEFAULT_PACKAGE_VERSION];
    the constant of [core/constants] is an argument here. *)
Definition version (DEFAULT_PACKAGE_VERSION : jsstring) (this : ref) : M json :=
  m <- manifest this ;;
  ret (match field "version" m with
       | None | Some JNull => JString DEFAULT_PACKAGE_VERSION
       | Some v => v
       end).

(** [get tagPrefix()]; the name in the template is a string. *)
Definition tagPrefix (this : ref) : M jsstring :=
  c <- config this ;;
  if independentVersioning (options c) then
    n <- packageName this ;;
    match n with
    | Some (JString name) => ret (versionTagPrefix (options c) ++ name ++ str "@")
    | _ => unmodelled
    end
  else ret (versionTagPrefix (options c)).

(** [updateVersion]: [{...this.manifest, version}] replaces the manifest,
    which is then written out. *)
Definition updateVersion (P : Platform) (this : ref) (version : jsstring) : M unit :=
  o <- deref this ;;
  match manifestOf o with
  | JObject props =>
      let newManifest := JObject (set (str "version") (JString version) props) in
      let content := mkContent newManifest (eofInEnd (manifestContent o)) in
      _ <- store this {| _project := _project o;
                         manifestContent := content;
                         relativeCwd := relativeCwd o;
                         asProject := asProject o |} ;;
      folder <- cwd P this ;;
      persistGradleBuildFile P folder content
  | _ => unmodelled
  end.

(** [updateChangelog]; [addToChangelog] is the function of
    [core/changelog], an argument here, which may raise. *)
Definition updateChangelog {ChangelogEntry : Type}
           (addToChangelog : ChangelogEntry -> jsstring -> outcome jsstring)
           (P : Platform) (this : ref) (entry : ChangelogEntry) : M jsstring :=
  folder <- cwd P this ;;
  let changeLogFile := path_join P folder (str "CHANGELOG.md") in
  present <- existsSync changeLogFile ;;
  changeLog <- (if present then readFile changeLogFile else ret []) ;;
  changeLog <- lift (addToChangelog entry changeLog) ;;
  _ <- writeFile changeLogFile changeLog ;;
  ret changeLogFile.

End GradleWorkspace.

Module GradleProject.

(** The constructor: [super(undefined, '.', manifestContent)], then
    [this._project = this] and the fields of the project. *)
Definition new (cwd : jsstring) (manifestContent : GradleManifestContent)
           (config : IPluginInitialize) : M ref :=
  this <- GradleWorkspace.new None (str ".") manifestContent ;;
  o <- deref this ;;
  _ <- store this (mkInstance (Some this) manifestContent (relativeCwd o)
                              (Some {| _cwd := cwd;
                                       _config := config;
                                       childWorkspaces := [] |})) ;;
  ret this.

(** [get workspaces()]: [[this, ...this.childWorkspaces]] *)
Definition workspaces (this : ref) : M (list ref) :=
  o <- deref this ;;
  match asProject o with
  | Some f => ret (this :: childWorkspaces f)
  | None => unmodelled
  end.

Definition set_childWorkspaces (this : ref) (ws : list ref) : M unit :=
  o <- deref this ;;
  match asProject o with
  | Some f =>
      store this {| _project := _project o;
                    manifestContent := manifestContent o;
                    relativeCwd := relativeCwd o;
                    asProject := Some {| _cwd := _cwd f;
                                         _config := _config f;
                                         childWorkspaces := ws |} |}
  | None => unmodelled
  end.

(** The strings of an array of strings. *)
Fixpoint strings (l : list json) : list jsstring :=
  match l with
  | [] => []
  | JString s :: l' => s :: strings l'
  | _ :: l' => strings l'
  end.

(** The callback of [paths.map]: the workspace at [path], or [undefined]. *)
Definition loadWorkspace (P : Platform) (initialize : IPluginInitialize)
           (project : ref) (path : jsstring) : M (option ref) :=
  worspaceManifestContent <-
    loadGradleBuildFile P (path_join P (cwd initialize) path) ;;
  match worspaceManifestContent with
  | Some c =>
      match field "private" (manifest c) with
      | Some (JBool true) => ret None
      | _ => w <- GradleWorkspace.new (Some project) path c ;; ret (Some w)
      end
  | None => ret None
  end.

(** [GradleProject.initialize]; [None] is the [null] result. *)
Definition initialize (P : Platform) (initialize : IPluginInitialize)
  : M (option ref) :=
  manifestContent <- loadGradleBuildFile P (cwd initialize) ;;
  match manifestContent with
  | None => ret None
  | Some manifestContent =>
      project <- new (cwd initialize) manifestContent initialize ;;
      m <- GradleWorkspace.manifest project ;;
      _ <- match field "workspaces" m with
           | Some (JArray patterns) =>
               let paths := glob P (strings patterns) (cwd initialize) in
               workspaces <- mapM (loadWorkspace P initialize project) paths ;;
               set_childWorkspaces project (somes workspaces)
           | _ => ret tt
           end ;;
      ret (Some project)
  end.

End GradleProject.

(** ** A POSIX platform

    [path.join] of a POSIX system: the arguments joined by a slash and
    normalised (empty and [.] segments dropped, [..] resolved). *)
Fixpoint normalize_segments (absolute : bool) (stack : list jsstring)
         (segs : list jsstring) : list jsstring :=
  match segs with
  | [] => rev stack
  | seg :: segs' =>
      if jsstring_eqb seg [] || jsstring_eqb seg (str ".")
      then normalize_segments absolute stack segs'
      else if jsstring_eqb seg (str "..") then
        match stack with
        | top :: stack' =>
            if jsstring_eqb top (str "..")
            then normalize_segments absolute (seg :: stack) segs'
            else normalize_segments absolute stack' segs'
        | [] =>
            if absolute then normalize_segments absolute [] segs'
            else normalize_segments absolute [seg] segs'
        end
      else normalize_segments absolute (seg :: stack) segs'
  end.

Definition posix_normalize (path : jsstring) : jsstring :=
  match path with
  | [] => str "."
  | _ :: _ =>
      let absolute := startsWith (str "/") path in
      let trailing := endsWith (str "/") path in
      let res := join (str "/") (normalize_segments absolute [] (split (str "/") path)) in
      match res with
      | [] => if absolute then str "/" else if trailing then str "./" else str "."
      | _ :: _ =>
          (if absolute then str "/" else [])
            ++ res ++ (if trailing then str "/" else [])
      end
  end.

Definition posix_join (a b : jsstring) : jsstring :=
  match a, b with
  | [], [] => str "."
  | [], _ => posix_normalize b
  | _, [] => posix_normalize a
  | _, _ => posix_normalize (a ++ str "/" ++ b)
  end.

(* ===================================================================== *)
(** * Definitions used in the statements                                 *)
(* ===================================================================== *)

Definition failing_git (out err : string) : GitProcess :=
  fun _ _ => {| error := None; exitCode := Some 128%Z;
                stdout := str out; stderr := str err |}.

(** C6, as the specification words it: the exception raised on a non-zero
    exit would carry the captured stdout and stderr, that is, both could be
    read back from it.  Two runs with different output raise the same
    exception, so it carries neither. *)
Definition exception_carries_output : Prop :=
  exists (captured_stdout captured_stderr : exn -> jsstring),
    forall (git : GitProcess) args cwd,
      error (git args cwd) = None ->
      exitCode (git args cwd) <> Some 0%Z ->
      exists e, snd (gitExec git args cwd) = Throw e
                /\ captured_stdout e = stdout (git args cwd)
                /\ captured_stderr e = stderr (git args cwd).

(** What [loadGradleBuildFile] computes from the files alone. *)
Definition load_outcome (P : Platform) (folder : jsstring) (fs : Files)
  : outcome (option GradleManifestContent) :=
  match fs (path_join P folder GRADLE_MANIFEST_NAME) with
  | None => Throw (ENOENT (path_join P folder GRADLE_MANIFEST_NAME))
  | Some text =>
      match JSON_parse text with
      | Ret content =>
          Ret (if isGradleBuildFile content
               then Some {| manifest := content; eofInEnd := endsWith [LF] text |}
               else None)
      | Throw e => Throw e
      | Unmodelled => Unmodelled
      end
  end.

(** A POSIX platform on which [glob] finds [paths]. *)
Definition posix (paths : list jsstring) : Platform :=
  {| path_join := posix_join; glob := fun _ _ => paths |}.

Definition no_files : Files := fun _ => None.

Definition locked (dir : string) : IPluginInitialize :=
  {| cwd := str dir;
     options := {| independentVersioning := false; versionTagPrefix := str "v" |} |}.

Definition independent (dir : string) : IPluginInitialize :=
  {| cwd := str dir;
     options := {| independentVersioning := true; versionTagPrefix := str "v" |} |}.

(** A manifest content that is not marked private. *)
Definition accepted (c : GradleManifestContent) : bool :=
  match field "private" (manifest c) with
  | Some (JBool true) => false
  | _ => true
  end.

Definition nameless (c : GradleManifestContent) : bool :=
  falsy (field "name" (manifest c)).

Definition missing_name (relativeCwd : jsstring) : exn :=
  Error (str "Invalid manifest. Package at '" ++ relativeCwd
           ++ str "' does not have a name").

Definition workspaceInstance (project : ref) (path : jsstring)
           (c : GradleManifestContent) : Instance :=
  {| _project := Some project; manifestContent := c;
     relativeCwd := path; asProject := None |}.

Definition projectInstance (this : ref) (init : IPluginInitialize)
           (c : GradleManifestContent) (children : list ref) : Instance :=
  {| _project := Some this; manifestContent := c; relativeCwd := str ".";
     asProject := Some {| _cwd := cwd init; _config := init;
                          childWorkspaces := children |} |}.

Definition push (st : State) (o : Instance) : State :=
  {| files := files st; heap := heap st ++ [o] |}.

(** The instances that the discovery creates, in the order of [paths]. *)
Fixpoint children (P : Platform) (init : IPluginInitialize) (fs : Files)
         (project : ref) (paths : list jsstring) : list Instance :=
  match paths with
  | [] => []
  | path :: paths' =>
      match load_outcome P (path_join P (cwd init) path) fs with
      | Ret (Some c) =>
          if accepted c
          then workspaceInstance project path c :: children P init fs project paths'
          else children P init fs project paths'
      | _ => children P init fs project paths'
      end
  end.

(** The patterns the root manifest declares, expanded by [glob]. *)
Definition candidates (P : Platform) (init : IPluginInitialize)
           (c : GradleManifestContent) : list jsstring :=
  match field "workspaces" (manifest c) with
  | Some (JArray patterns) =>
      glob P (GradleProject.strings patterns) (cwd init)
  | _ => []
  end.

Definition loads_accepted (P : Platform) (init : IPluginInitialize) (fs : Files)
           (path : jsstring) : bool :=
  match load_outcome P (path_join P (cwd init) path) fs with
  | Ret (Some c) => accepted c
  | _ => false
  end.

(** The candidate paths whose manifest loads and is not marked private. *)
Definition accepted_paths (P : Platform) (init : IPluginInitialize) (fs : Files)
           (c : GradleManifestContent) : list jsstring :=
  filter (loads_accepted P init fs) (candidates P init c).

Definition relativeCwdOf (st : State) (w : ref) : option jsstring :=
  option_map relativeCwd (nth_error (heap st) w).

(** The text [s] with a double quote in place of each apostrophe. *)
Definition text (s : string) : jsstring :=
  map (fun c => if Ascii.eqb c "'" then DQUOTE else c) (str s).

(** A repository with a root manifest and three packages: [a] has an empty
    name and is marked private, [b] is a regular package, [c] has an empty
    name and is not private. *)
Definition sample_files : Files := fun p =>
  if jsstring_eqb p (str "/repo/build.gradle") then
    Some (text "{'name': 'root', 'workspaces': ['packages/*']}" ++ [LF])
  else if jsstring_eqb p (str "/repo/packages/a/build.gradle") then
    Some (text "{'name':'','private':true}")
  else if jsstring_eqb p (str "/repo/packages/b/build.gradle") then
    Some (text "{'name':'b','version':'1.0.0'}" ++ [LF])
  else if jsstring_eqb p (str "/repo/packages/c/build.gradle") then
    Some (text "{'name':''}")
  else None.

Definition sample : State := {| files := sample_files; heap := [] |}.

Definition packages_a_b : list jsstring := [str "packages/a"; str "packages/b"].
Definition packages_b_c : list jsstring := [str "packages/b"; str "packages/c"].

(** C1, as the specification words it: whenever the manifest of a candidate
    path loads and has no name, [initialize] does not return. *)
Definition nameless_child_always_fatal : Prop :=
  forall P init st c path w,
    load_outcome P (cwd init) (files st) = Ret (Some c) ->
    In path (candidates P init c) ->
    load_outcome P (path_join P (cwd init) path) (files st) = Ret (Some w) ->
    nameless w = true ->
    forall r, snd (GradleProject.initialize P init st) <> Ret r.

(** [p] occurs in [s]. *)
Definition substring (p s : jsstring) : Prop := exists a b, s = a ++ p ++ b.

(** No proper, non-empty suffix of [d] is a prefix of [d]: two occurrences of
    [d] never overlap. *)
Definition border_free (d : jsstring) : bool :=
  forallb (fun m => negb (startsWith (skipn m d) d)) (seq 1 (length d - 1)).

(** A line of the status that mentions a generated file, the way the
    specification puts it. *)
Definition mentions_generated (l : jsstring) : Prop :=
  substring (str "package.json") l \/ substring (str "CHANGELOG.md") l.

(** Two lists of lines that differ only in lines mentioning a generated
    file: such lines may be added, dropped or changed, every other line is
    the same, in the same order. *)
Inductive differ_only_in_generated : list jsstring -> list jsstring -> Prop :=
| dg_nil : differ_only_in_generated [] []
| dg_same l a b :
    differ_only_in_generated a b -> differ_only_in_generated (l :: a) (l :: b)
| dg_left l a b :
    mentions_generated l ->
    differ_only_in_generated a b -> differ_only_in_generated (l :: a) b
| dg_right l a b :
    mentions_generated l ->
    differ_only_in_generated a b -> differ_only_in_generated a (l :: b).

(** A repository at [commit] whose [git status --porcelain] prints
    [status]. *)
Definition repository (commit status : jsstring) : GitProcess :=
  fun args _ =>
    {| error := None; exitCode := Some 0%Z;
       stdout := if jsstring_eqb (nth 0 args []) (str "status")
                 then status else commit ++ [LF];
       stderr := [] |}.

Definition HEAD : jsstring := str "3f2a9c1d5e7b4a6088f1c2d3e4f5a6b7c8d9e0f1".

(** ** The output of [git log] under the format of [logs] *)

(** The four fields of a commit, separated by the field delimiter. *)
Definition payload (c : GitCommit) : jsstring :=
  subject c ++ delim1 ++ date c ++ delim1 ++ hash c ++ delim1 ++ body c.

(** What [--format=format:%s<delim1>%cI<delim1>%H<delim1>%b<delim2>] prints
    for the commits [cs], oldest first under [--reverse]: one record a
    commit, ended by the record delimiter, with a line feed between two
    records. *)
Definition git_log_output (cs : list GitCommit) : jsstring :=
  join [LF] (map (fun c => payload c ++ delim2) cs).

(** The delimiters occur in the record of [c] only where the format puts
    them. *)
Definition unambiguous (c : GitCommit) : Prop :=
  ~ substring delim1 (subject c) /\ ~ substring delim1 (date c)
  /\ ~ substring delim1 (hash c) /\ ~ substring delim1 (body c)
  /\ ~ substring delim2 (payload c).

(** The commit that [parseEntry] builds from the fields of [c]. *)
Definition parsed (c : GitCommit) : GitCommit :=
  {| subject := trim (subject c); date := date c;
     hash := trim (hash c); body := trim (body c) |}.

(** A git that prints [out] and succeeds. *)
Definition prints (out : jsstring) : GitProcess :=
  fun _ _ => {| error := None; exitCode := Some 0%Z; stdout := out; stderr := [] |}.

(** C4, as the specification words it: whatever the text of the commits,
    [logs] returns them, field by field, in the order of the output. *)
Definition logs_parses_any_text : Prop :=
  forall cs : list GitCommit,
    logs (prints (git_log_output cs)) (str "/repo") None None
    = ([], Ret (map parsed cs)).

(** The pieces between the record delimiters of [git_log_output]. *)
Definition pieces (cs : list GitCommit) : list jsstring :=
  match cs with
  | [] => []
  | c :: cs' => payload c :: map (fun c' => LF :: payload c') cs'
  end.

Definition trimmed_subject (c : GitCommit) : GitCommit :=
  {| subject := trimStart (subject c); date := date c;
     hash := hash c; body := body c |}.

Definition unambiguous_b (c : GitCommit) : bool :=
  negb (includes delim1 (subject c)) && negb (includes delim1 (date c))
  && negb (includes delim1 (hash c)) && negb (includes delim1 (body c))
  && negb (includes delim2 (payload c)).

Definition commit (subject date hash body : string) : GitCommit :=
  {| subject := str subject; date := str date; hash := str hash; body := str body |}.

(** Two commits; the body of the first spans three lines. *)
Definition two_commits : list GitCommit :=
  [ {| subject := str "fix: trim output";
       date := str "2024-03-01T10:00:00+01:00";
       hash := str "8c1f0e5a";
       body := str "first line" ++ [LF; LF] ++ str "Closes #12" ++ [LF] |};
    commit "feat: gradle plugin" "2024-03-02T09:30:00+01:00" "41d2b7c9" EmptyString ].

(** A commit whose body quotes the record delimiter. *)
Definition quoting_commit : GitCommit :=
  {| subject := str "docs: describe the log format";
     date := str "2024-03-03T08:00:00+01:00";
     hash := str "77aa01f3";
     body := str "records end with " ++ delim2 ++ str " in the output" |}.

(** A commit none of whose fields contains a delimiter: the subject is the
    record delimiter without its last letter, which the field delimiter
    that follows supplies. *)
Definition overlapping_commit : GitCommit :=
  {| subject := removelast delim2;
     date := str "2024-03-04T08:00:00+01:00";
     hash := str "0b5e66d2";
     body := [] |}.

(** ** The values [JSON.parse] builds *)

(** The order in which an object enumerates its keys: the array indices
    first, in ascending order from [bound] on, then the other keys, each
    once. *)
Fixpoint ordered (bound : N) (ks : list jsstring) : Prop :=
  match ks with
  | [] => True
  | k :: ks' =>
      match array_index k with
      | Some n => (bound <= n)%N /\ ordered (n + 1) ks'
      | None => Forall (fun k' => array_index k' = None) ks' /\ NoDup ks
      end
  end.

(** A value as JavaScript holds it: the numbers are safe integers and the
    properties of every object are in enumeration order. *)
Fixpoint well_formed (v : json) : Prop :=
  match v with
  | JNumber z => (Z.abs z <= Z.of_N MAX_SAFE_INTEGER)%Z
  | JArray l =>
      (fix all (l : list json) : Prop :=
         match l with
         | [] => True
         | x :: l' => well_formed x /\ all l'
         end) l
  | JObject ps =>
      ordered 0 (map fst ps)
      /\ (fix all (ps : list (jsstring * json)) : Prop :=
            match ps with
            | [] => True
            | (_, x) :: ps' => well_formed x /\ all ps'
            end) ps
  | _ => True
  end.

(** The calls that [parse_value] nests on the text of a value. *)
Fixpoint cost (v : json) : nat :=
  match v with
  | JArray l =>
      S ((fix sum (l : list json) : nat :=
            match l with
            | [] => 0
            | x :: l' => S (cost x + sum l')
            end) l)
  | JObject ps =>
      S ((fix sum (ps : list (jsstring * json)) : nat :=
            match ps with
            | [] => 0
            | (_, x) :: ps' => S (cost x + sum ps')
            end) ps)
  | _ => 1
  end.

Definition elements_cost (l : list json) : nat :=
  fold_right (fun x n => S (cost x + n)) 0 l.

Definition members_cost (ps : list (jsstring * json)) : nat :=
  fold_right (fun kx n => S (cost (snd kx) + n)) 0 ps.

(** The text of an array after its first element, and of an object after
    its first property. *)
Fixpoint array_tail (ind : nat) (l : list json) : jsstring :=
  match l with
  | [] => [LF] ++ spaces ind ++ str "]"
  | y :: l' =>
      str "," ++ [LF] ++ spaces (2 + ind) ++ stringify (2 + ind) y
        ++ array_tail ind l'
  end.

Fixpoint object_tail (ind : nat) (ps : list (jsstring * json)) : jsstring :=
  match ps with
  | [] => [LF] ++ spaces ind ++ str "}"
  | (k, y) :: ps' =>
      str "," ++ [LF] ++ spaces (2 + ind) ++ quote k ++ str ": "
        ++ stringify (2 + ind) y ++ object_tail ind ps'
  end.

(** What may follow the text of a value: nothing, a comma or a line feed. *)
Definition delimited (rest : jsstring) : Prop :=
  match rest with
  | [] => True
  | c :: _ => c = ","%char \/ c = LF
  end.

(** [parse_value], given fuel for the nesting of [v], reads [v] back from
    its text and leaves what follows. *)
Definition reads_back (v : json) : Prop :=
  forall ind fuel rest,
    cost v <= fuel -> delimited rest ->
    parse_value fuel (stringify ind v ++ rest) = Ret (v, rest).

(** The state after [initialize] on the sample repository, found by [glob]
    to have the packages [a] and [b]. *)
Definition initialized : State :=
  fst (GradleProject.initialize (posix packages_a_b) (locked "/repo") sample).

(** The workspace of package [b] in that state. *)
Definition workspace_b : Instance :=
  workspaceInstance 0 (str "packages/b")
    {| manifest := JObject [(str "name", JString (str "b"));
                            (str "version", JString (str "1.0.0"))];
       eofInEnd := true |}.


(** A directory whose [build.gradle] is a build script in gradle's own
    syntax. *)
Definition groovy_files : Files := fun p =>
  if jsstring_eqb p (str "/app/build.gradle")
  then Some (str "plugins { id 'java' }" ++ [LF])
  else None.

(** What [git status --porcelain] prints for the lines [ls]: each line
    followed by a line feed. *)
Definition porcelain (ls : list jsstring) : jsstring :=
  flat_map (fun l => l ++ [LF]) ls.

(** C10, as the specification words it, on what git prints: two outputs of
    [git status --porcelain] at the same commit whose lines differ only in
    lines that mention a generated file give the same digest. *)
Definition digest_ignores_generated_lines : Prop :=
  forall commit cwd (ls1 ls2 : list jsstring),
    Forall (fun l => ~ In LF l) ls1 ->
    Forall (fun l => ~ In LF l) ls2 ->
    differ_only_in_generated ls1 ls2 ->
    gitStatusHash (repository commit (porcelain ls1)) cwd
    = gitStatusHash (repository commit (porcelain ls2)) cwd.

(** ** Runs of git *)

(** The run started and exited with status 0. *)
Definition succeeded (o : SpawnResult) : Prop :=
  error o = None /\ exitCode o = Some 0%Z.

(** A git that answers a list of commands, each with one line, and fails
    on every other. *)
Fixpoint answers (table : list (list jsstring * jsstring)) : GitProcess :=
  fun args cwd =>
    match table with
    | [] => {| error := None; exitCode := Some 128%Z; stdout := []; stderr := [] |}
    | (args', line) :: table' =>
        if list_eq_dec (list_eq_dec ascii_dec) args args'
        then {| error := None; exitCode := Some 0%Z;
                stdout := line ++ [LF]; stderr := [] |}
        else answers table' args cwd
    end.

(** The arguments of the runs of [platform]. *)
Definition upstream_args : list jsstring :=
  [str "rev-parse"; str "--abbrev-ref"; str "--symbolic-full-name"; str "@{u}"].

Definition remote_url_args (remote : jsstring) : list jsstring :=
  [str "config"; str "--get"; str "remote." ++ remote ++ str ".url"].

(** A run of git: its arguments and its directory. *)
Definition Call : Type := (list jsstring * option jsstring)%type.

(** The repository together with the runs made so far, oldest first. *)
Definition recording {R} (git : GitRepository R) : GitRepository (R * list Call) :=
  fun args cwd s =>
    match git args cwd (fst s) with
    | (r', o) => ((r', snd s ++ [(args, cwd)]), o)
    end.



(** The three runs of [cleanChangeLogs], in their order. *)
Definition cleanChangeLogs_calls (cwd : jsstring) : list Call :=
  [([str "clean"; str "-f"; str "**/CHANGELOG.md"; str "CHANGELOG.md"], Some cwd);
   ([str "checkout"; str "CHANGELOG.md"], Some cwd);
   ([str "checkout"; str "**/CHANGELOG.md"], Some cwd)].

(** A repository that counts the runs; the run numbered [failing] exits
    with status 1, the others with 0. *)
Definition failing_at (failing : nat) : GitRepository nat :=
  fun _ _ n =>
    (S n, {| error := None;
             exitCode := Some (if Nat.eqb n failing then 1 else 0)%Z;
             stdout := []; stderr := [] |}).

(** ** The output of [git tag] under the format of [versionTags] *)

(** The two fields of a tag, the object name and the tag name, separated
    by the field delimiter. *)
Definition tag_record (t : jsstring * jsstring) : jsstring :=
  fst t ++ delim1 ++ snd t.

(** What [git tag --format=%(objectname)<delim1>%(refname:strip=2)<delim2>]
    prints for the tags [ts]: one line a tag, ended by the record delimiter
    and a line feed. *)
Definition git_tag_output (ts : list (jsstring * jsstring)) : jsstring :=
  concat (map (fun t => tag_record t ++ delim2 ++ [LF]) ts).

(** The delimiters occur in the record of [t] only where the format puts
    them. *)
Definition plain_tag (t : jsstring * jsstring) : Prop :=
  ~ substring delim1 (fst t) /\ ~ substring delim1 (snd t)
  /\ ~ substring delim2 (tag_record t).

Definition plain_tag_b (t : jsstring * jsstring) : bool :=
  negb (includes delim1 (fst t)) && negb (includes delim1 (snd t))
  && negb (includes delim2 (tag_record t)).

(** The tag that the [parseEntry] of [versionTags] builds from the fields
    of [t]: the record is trimmed as a whole. *)
Definition parsed_tag (t : jsstring * jsstring) : GitTag.t :=
  {| GitTag.hash := Some (trimStart (fst t));
     GitTag.tagName := Some (trimEnd (snd t)) |}.

Definition tag_pieces (ts : list (jsstring * jsstring)) : list jsstring :=
  match ts with
  | [] => [[]]
  | t :: ts' => tag_record t :: map (fun t' => LF :: tag_record t') ts'
  end.

Definition two_tags : list (jsstring * jsstring) :=
  [(str "9fceb02d0ae598e95dc970b74767f19372d61af8", str "v1.2.0");
   (str "3f2a9c1d5e7b4a6088f1c2d3e4f5a6b7c8d9e0f1", str "v1.3.0-beta.1")].

(** ** Workspaces and their manifests *)

Definition packages_b_docs : list jsstring := [str "packages/b"; str "packages/docs"].

(** The instance [o] after [updateVersion]: the manifest with the new
    version, the rest as it was. *)
Definition withVersion (version : jsstring) (o : Instance) : Instance :=
  match manifestOf o with
  | JObject props =>
      {| _project := _project o;
         manifestContent :=
           {| manifest := JObject (set (str "version") (JString version) props);
              eofInEnd := eofInEnd (manifestContent o) |};
         relativeCwd := relativeCwd o;
         asProject := asProject o |}
  | _ => o
  end.

(** The text that [persistGradleBuildFile] writes for a manifest content. *)
Definition manifestText (c : GradleManifestContent) : jsstring :=
  JSON_stringify2 (manifest c) ++ if eofInEnd c then [LF] else [].

(** The files after [path] has been written with [text]. *)
Definition written (path text : jsstring) (fs : Files) : Files :=
  fun p => if jsstring_eqb p path then Some text else fs p.

(** ** The accessors as functions of the heap

    The getters read the heap and leave the state as it is; what each one
    returns, by the instances that the references point to. *)

Definition projectOf (h : list Instance) (this : ref) : outcome ref :=
  match nth_error h this with
  | Some o =>
      match asProject o with
      | Some _ => Ret this
      | None => match _project o with Some p => Ret p | None => Unmodelled end
      end
  | None => Unmodelled
  end.

Definition projectFieldsOf (h : list Instance) (this : ref) : outcome ProjectFields :=
  obind (projectOf h this) (fun p =>
  match nth_error h p with
  | Some o => match asProject o with Some f => Ret f | None => Unmodelled end
  | None => Unmodelled
  end).

Definition configOf (h : list Instance) (this : ref) : outcome IPluginInitialize :=
  match nth_error h this with
  | Some o =>
      match asProject o with
      | Some f => Ret (_config f)
      | None => obind (projectFieldsOf h this) (fun f => Ret (_config f))
      end
  | None => Unmodelled
  end.

Definition cwdOf (P : Platform) (h : list Instance) (this : ref) : outcome jsstring :=
  match nth_error h this with
  | Some o =>
      match asProject o with
      | Some f => Ret (_cwd f)
      | None => obind (projectFieldsOf h this) (fun f =>
                Ret (path_join P (_cwd f) (relativeCwd o)))
      end
  | None => Unmodelled
  end.

Definition packageNameOf (h : list Instance) (this : ref) : outcome (option json) :=
  match nth_error h this with
  | Some o => Ret (field "name" (manifestOf o))
  | None => Unmodelled
  end.

Definition tagPrefixOf (h : list Instance) (this : ref) : outcome jsstring :=
  obind (configOf h this) (fun c =>
  if independentVersioning (options c) then
    obind (packageNameOf h this) (fun n =>
    match n with
    | Some (JString name) => Ret (versionTagPrefix (options c) ++ name ++ str "@")
    | _ => Unmodelled
    end)
  else Ret (versionTagPrefix (options c))).

(** Two heaps whose instances differ at most in properties of their
    manifests other than the name. *)
Definition same_identity (h h' : list Instance) : Prop :=
  forall r,
    match nth_error h r, nth_error h' r with
    | Some a, Some b =>
        _project a = _project b /\ relativeCwd a = relativeCwd b
        /\ asProject a = asProject b
        /\ field "name" (manifestOf a) = field "name" (manifestOf b)
    | None, None => True
    | _, _ => False
    end.

(** A candidate path that the discovery gets past: its manifest is read
    and is JSON, and when it fits the schema and is not marked private it
    has a name. *)
Definition passable (P : Platform) (init : IPluginInitialize) (fs : Files)
           (path : jsstring) : bool :=
  match load_outcome P (path_join P (cwd init) path) fs with
  | Ret (Some w) => negb (accepted w) || negb (nameless w)
  | Ret None => true
  | _ => false
  end.

(** A changelog function for the examples: the entry is put on top. *)
Definition prepend (entry changeLog : jsstring) : outcome jsstring :=
  Ret (entry ++ [LF] ++ changeLog).

Definition workspacesOf (h : list Instance) (this : ref) : outcome (list ref) :=
  match nth_error h this with
  | Some o =>
      match asProject o with
      | Some f => Ret (this :: childWorkspaces f)
      | None => Unmodelled
      end
  | None => Unmodelled
  end.

(** The names of the properties that the schema mentions or refuses. *)
Definition schema_names : list jsstring :=
  [str "version"; str "name"; str "private"; str "workspaces";
   str "constructor"; str "__proto__"].

(* ===================================================================== *)
(** * Properties                                                          *)
(* ===================================================================== *)

(** ** [gitExec] *)

Lemma gitExec_spawn_error git args cwd e :
  error (git args cwd) = Some e ->
  gitExec git args cwd = ([], Throw (SpawnError e)).
Proof. intros H. unfold gitExec. now rewrite H. Qed.

Lemma gitExec_success git args cwd :
  error (git args cwd) = None ->
  exitCode (git args cwd) = Some 0%Z ->
  gitExec git args cwd
  = ([], Ret (trim (replaceAtEnd gitExec_regex (stdout (git args cwd))))).
Proof. intros H1 H2. unfold gitExec. now rewrite H1, H2. Qed.

(** C6, as the code has it: a run of git that ends with a status other than
    zero writes the captured stderr, then the captured stdout, to the
    console and raises an [Error] whose message holds the exit status and
    nothing else; no result is returned. *)
Theorem gitExec_nonzero_exit git args cwd :
  error (git args cwd) = None ->
  exitCode (git args cwd) <> Some 0%Z ->
  gitExec git args cwd
  = ([stderr (git args cwd); stdout (git args cwd)],
     Throw (Error (str "Invalid status code from git output: "
                     ++ exitCode_toString (exitCode (git args cwd))))).
Proof.
  intros Herr Hcode. unfold gitExec. rewrite Herr.
  destruct (exitCode (git args cwd)) as [[|p|p]|]; try reflexivity.
  now contradiction Hcode.
Qed.

Lemma gitExec_nonzero_exit_witness :
  gitExec (failing_git "warning: x" "fatal: not a git repository") [str "status"] None
  = ([str "fatal: not a git repository"; str "warning: x"],
     Throw (Error (str "Invalid status code from git output: 128"))).
Proof.
  rewrite (gitExec_nonzero_exit (failing_git "warning: x" "fatal: not a git repository")
                                [str "status"] None).
  - reflexivity.
  - reflexivity.
  - discriminate.
Defined.

Lemma gitExec_exception_drops_output : ~ exception_carries_output.
Proof.
  intros (out & err & H).
  destruct (H (failing_git "a" "e") [] None eq_refl ltac:(discriminate))
    as (e1 & He1 & Hout1 & _).
  destruct (H (failing_git "b" "e") [] None eq_refl ltac:(discriminate))
    as (e2 & He2 & Hout2 & _).
  cbn in He1, He2. rewrite He1 in He2. injection He2 as <-.
  rewrite Hout1 in Hout2. discriminate.
Qed.

(** ** Loading a manifest *)

Lemma loadGradleBuildFile_eq P folder st :
  loadGradleBuildFile P folder st = (st, load_outcome P folder (files st)).
Proof.
  unfold loadGradleBuildFile, load_outcome, bind, readFile, lift.
  destruct (files st _) as [text|]; [|reflexivity].
  destruct (JSON_parse text) as [content| |]; try reflexivity.
  destruct (isGradleBuildFile content); reflexivity.
Qed.

Lemma loadGradleBuildFile_absent P folder st :
  files st (path_join P folder GRADLE_MANIFEST_NAME) = None ->
  loadGradleBuildFile P folder st
  = (st, Throw (ENOENT (path_join P folder GRADLE_MANIFEST_NAME))).
Proof.
  intros H. rewrite loadGradleBuildFile_eq. unfold load_outcome. now rewrite H.
Qed.

(** Where the root manifest is absent, [initialize] does not return [null]:
    the rejection of [readFile] goes through it. *)
Lemma initialize_absent_manifest P init st :
  files st (path_join P (cwd init) GRADLE_MANIFEST_NAME) = None ->
  GradleProject.initialize P init st
  = (st, Throw (ENOENT (path_join P (cwd init) GRADLE_MANIFEST_NAME))).
Proof.
  intros H. unfold GradleProject.initialize, bind.
  now rewrite (loadGradleBuildFile_absent _ _ _ H).
Qed.

(** C5 at a directory without [build.gradle] (of a node project, say):
    [initialize] raises the ENOENT of [readFile]; the specification has it
    return [null]. *)
Theorem initialize_without_manifest_raises :
  snd (GradleProject.initialize (posix []) (locked "/repo")
                                {| files := no_files; heap := [] |})
  = Throw (ENOENT (str "/repo/build.gradle")).
Proof.
  unfold GradleProject.initialize, bind.
  rewrite loadGradleBuildFile_absent by reflexivity.
  reflexivity.
Qed.

(** [null] is what [initialize] returns for a manifest that is JSON but
    does not fit the schema. *)
Lemma initialize_schema_mismatch P init st text content :
  files st (path_join P (cwd init) GRADLE_MANIFEST_NAME) = Some text ->
  JSON_parse text = Ret content ->
  isGradleBuildFile content = false ->
  GradleProject.initialize P init st = (st, Ret None).
Proof.
  intros Hf Hp Hv. unfold GradleProject.initialize, bind.
  rewrite loadGradleBuildFile_eq. unfold load_outcome.
  now rewrite Hf, Hp, Hv.
Qed.

(** ** The heap *)

Lemma update_nth_app {A} (l : list A) (x y : A) (l' : list A) :
  update_nth (length l) y (l ++ x :: l') = l ++ y :: l'.
Proof. induction l as [|a l IH]; simpl; [reflexivity | now rewrite IH]. Qed.

Lemma nth_error_middle {A} (l : list A) (x : A) (l' : list A) :
  nth_error (l ++ x :: l') (length l) = Some x.
Proof. induction l as [|a l IH]; simpl; [reflexivity | exact IH]. Qed.

Lemma nth_error_after {A} (l : list A) (x : A) (l' : list A) (i : nat) :
  nth_error (l ++ x :: l') (S (length l) + i) = nth_error l' i.
Proof. induction l as [|a l IH]; simpl; [reflexivity | exact IH]. Qed.

Lemma nth_error_seq_app {A} (cs : list A) : forall h : list A,
  map (nth_error (h ++ cs)) (seq (length h) (length cs)) = map Some cs.
Proof.
  induction cs as [|o cs IH]; intros h; [reflexivity|].
  simpl. rewrite nth_error_middle. f_equal.
  specialize (IH (h ++ [o])).
  rewrite <- app_assoc, length_app, Nat.add_1_r in IH. exact IH.
Qed.

Lemma nth_error_seq_after {A} (h : list A) (r : A) (cs : list A) :
  map (nth_error (h ++ r :: cs)) (seq (S (length h)) (length cs)) = map Some cs.
Proof.
  pose proof (nth_error_seq_app cs (h ++ [r])) as H.
  now rewrite <- app_assoc, length_app, Nat.add_1_r in H.
Qed.

Lemma GradleWorkspace_new_eq project path c st :
  GradleWorkspace.new project path c st
  = if nameless c then (st, Throw (missing_name path))
    else (push st (mkInstance project c path None), Ret (length (heap st))).
Proof.
  unfold GradleWorkspace.new, nameless. now destruct (falsy _).
Qed.

Lemma GradleProject_new_eq init c st :
  GradleProject.new (cwd init) c init st
  = if nameless c then (st, Throw (missing_name (str ".")))
    else (push st (projectInstance (length (heap st)) init c []),
          Ret (length (heap st))).
Proof.
  unfold GradleProject.new, bind. rewrite GradleWorkspace_new_eq.
  destruct (nameless c); [reflexivity|].
  unfold deref, store, ret, push; simpl.
  rewrite nth_error_middle; simpl.
  now rewrite update_nth_app.
Qed.

(** The callback of the discovery, by cases on the manifest of the path. *)
Lemma loadWorkspace_eq P init project path st :
  GradleProject.loadWorkspace P init project path st
  = match load_outcome P (path_join P (cwd init) path) (files st) with
    | Ret (Some c) =>
        if accepted c then
          if nameless c then (st, Throw (missing_name path))
          else (push st (workspaceInstance project path c),
                Ret (Some (length (heap st))))
        else (st, Ret None)
    | Ret None => (st, Ret None)
    | Throw e => (st, Throw e)
    | Unmodelled => (st, Unmodelled)
    end.
Proof.
  unfold GradleProject.loadWorkspace, bind. rewrite loadGradleBuildFile_eq.
  destruct (load_outcome _ _ _) as [[c|]| |]; try reflexivity.
  unfold accepted.
  destruct (field "private" (manifest c)) as [[| [|] | | | |]|];
    try reflexivity;
    rewrite GradleWorkspace_new_eq; now destruct (nameless c).
Qed.

Lemma mapM_loadWorkspace P init project paths : forall st st' rs,
  mapM (GradleProject.loadWorkspace P init project) paths st = (st', Ret rs) ->
  files st' = files st
  /\ heap st' = heap st ++ children P init (files st) project paths
  /\ somes rs = seq (length (heap st))
                    (length (children P init (files st) project paths)).
Proof.
  induction paths as [|path paths IH]; intros st st' rs H.
  - injection H as <- <-. simpl. now rewrite app_nil_r.
  - simpl in H. unfold bind in H. rewrite loadWorkspace_eq in H. simpl.
    destruct (load_outcome _ _ _) as [[c|]| |]; try discriminate.
    + destruct (accepted c).
      * destruct (nameless c); [discriminate|].
        destruct (mapM _ paths (push st _)) as [st1 [rs1| |]] eqn:E;
          try discriminate.
        injection H as <- <-.
        destruct (IH _ _ _ E) as (Hf & Hh & Hs). simpl in *.
        rewrite Hf, Hh, Hs, length_app, <- app_assoc. simpl.
        repeat split. now rewrite Nat.add_1_r.
      * destruct (mapM _ paths st) as [st1 [rs1| |]] eqn:E; try discriminate.
        injection H as <- <-. exact (IH _ _ _ E).
    + destruct (mapM _ paths st) as [st1 [rs1| |]] eqn:E; try discriminate.
      injection H as <- <-. exact (IH _ _ _ E).
Qed.

(** The shape of the heap after a successful [initialize]: the project,
    then its accepted children. *)
Lemma initialize_heap P init st st' p :
  GradleProject.initialize P init st = (st', Ret (Some p)) ->
  exists c,
    load_outcome P (cwd init) (files st) = Ret (Some c)
    /\ nameless c = false
    /\ p = length (heap st)
    /\ files st' = files st
    /\ let cs := children P init (files st) p (candidates P init c) in
       heap st'
       = heap st ++ projectInstance p init c (seq (S p) (length cs)) :: cs.
Proof.
  intros H. unfold GradleProject.initialize in H. unfold bind at 1 in H.
  rewrite loadGradleBuildFile_eq in H.
  destruct (load_outcome P (cwd init) (files st)) as [[c|]| |] eqn:Hload;
    try discriminate.
  exists c. split; [reflexivity|].
  unfold bind at 1 in H. rewrite GradleProject_new_eq in H.
  destruct (nameless c) eqn:Hname; [discriminate|].
  split; [reflexivity|].
  unfold bind at 1 in H.
  unfold GradleWorkspace.manifest, bind, deref, ret in H; simpl in H.
  rewrite nth_error_middle in H; simpl in H.
  unfold manifestOf, candidates in *; simpl in *.
  set (root := projectInstance (length (heap st)) init c []) in *.
  destruct (field "workspaces" (manifest c)) as [[| | | |patterns|]|];
    try (injection H as <- <-; simpl; now rewrite ?app_nil_r).
  destruct (mapM _ _ (push st root)) as [st1 [rs| |]] eqn:E; try discriminate.
  destruct (mapM_loadWorkspace _ _ _ _ _ _ _ E) as (Hf & Hh & Hs).
  simpl in Hf, Hh, Hs.
  unfold GradleProject.set_childWorkspaces, bind, deref, store in H.
  rewrite Hh, <- app_assoc in H. simpl in H.
  rewrite nth_error_middle in H; simpl in H.
  injection H as <- <-. simpl.
  rewrite Hh, <- app_assoc. simpl.
  rewrite update_nth_app, Hs, length_app, Nat.add_1_r.
  repeat split; assumption.
Qed.

(** ** The project and its workspaces *)

Lemma children_relativeCwd P init fs p paths :
  map relativeCwd (children P init fs p paths)
  = filter (loads_accepted P init fs) paths.
Proof.
  induction paths as [|path paths IH]; [reflexivity|].
  simpl. unfold loads_accepted at 1.
  destruct (load_outcome _ _ _) as [[c|]| |]; try exact IH.
  destruct (accepted c); simpl; [now rewrite IH | exact IH].
Qed.

Lemma load_outcome_valid P folder fs c :
  load_outcome P folder fs = Ret (Some c) ->
  isGradleBuildFile (manifest c) = true.
Proof.
  unfold load_outcome. destruct (fs _) as [text|]; [|discriminate].
  destruct (JSON_parse text) as [content| |]; try discriminate.
  destruct (isGradleBuildFile content) eqn:E; [|discriminate].
  now intros [= <-].
Qed.

Lemma valid_name m :
  isGradleBuildFile m = true -> exists name, field "name" m = Some (JString name).
Proof.
  destruct m as [| | | | |props]; try discriminate.
  unfold isGradleBuildFile, field. intros H.
  apply andb_prop in H; destruct H as [H _].
  apply andb_prop in H; destruct H as [H _].
  apply andb_prop in H; destruct H as [_ H].
  destruct (get (str "name") props) as [[| | |name| |]|]; try discriminate H.
  now exists name.
Qed.

Lemma children_spec P init fs p paths o :
  In o (children P init fs p paths) ->
  _project o = Some p /\ asProject o = None
  /\ isGradleBuildFile (manifestOf o) = true
  /\ load_outcome P (path_join P (cwd init) (relativeCwd o)) fs
     = Ret (Some (manifestContent o)).
Proof.
  induction paths as [|path paths IH]; [intros []|].
  simpl.
  destruct (load_outcome P (path_join P (cwd init) path) fs)
    as [[c|]| |] eqn:E; try exact IH.
  destruct (accepted c); [|exact IH].
  intros [<-|H]; [|now apply IH].
  repeat split; [exact (load_outcome_valid _ _ _ _ E) | exact E].
Qed.

(** What the references of the [workspaces] of an initialized project point
    to: the project itself and the instances of the discovery. *)
Lemma initialize_members P init st st' p :
  GradleProject.initialize P init st = (st', Ret (Some p)) ->
  exists c cs,
    load_outcome P (cwd init) (files st) = Ret (Some c)
    /\ cs = children P init (files st) p (candidates P init c)
    /\ nth_error (heap st') p
       = Some (projectInstance p init c (seq (S p) (length cs)))
    /\ map (nth_error (heap st')) (seq (S p) (length cs)) = map Some cs.
Proof.
  intros H. destruct (initialize_heap _ _ _ _ _ H) as (c & Hl & _ & -> & _ & Hh).
  simpl in Hh. exists c, (children P init (files st) (length (heap st))
                                   (candidates P init c)).
  rewrite Hh. repeat split; try assumption.
  - apply nth_error_middle.
  - apply nth_error_seq_after.
Qed.

Lemma map_Some_In {A} (f : nat -> option A) (ws : list nat) (cs : list A) w :
  map f ws = map Some cs -> In w ws -> exists o, f w = Some o /\ In o cs.
Proof.
  revert cs. induction ws as [|w' ws IH]; intros cs Hm []; destruct cs as [|o cs];
    try discriminate; injection Hm as Hw Hm.
  - subst w'. exists o. split; [assumption | now left].
  - destruct (IH cs Hm H) as (o' & ? & ?). exists o'. split; [assumption | now right].
Qed.

(** C9: after [initialize] the [workspaces] of the project are the project
    itself followed by one workspace for each accepted candidate path, in
    the order of the paths; the [project] of the project is the project, and
    the [project] of every workspace is the project, so that following
    [project] ends at the root after one step. *)
Theorem initialize_workspaces P init st st' p :
  GradleProject.initialize P init st = (st', Ret (Some p)) ->
  exists c cs,
    load_outcome P (cwd init) (files st) = Ret (Some c)
    /\ GradleProject.workspaces p st' = (st', Ret (p :: cs))
    /\ map (relativeCwdOf st') cs
       = map Some (accepted_paths P init (files st) c)
    /\ GradleWorkspace.project p st' = (st', Ret p)
    /\ Forall (fun w => GradleWorkspace.project w st' = (st', Ret p)) (p :: cs)
    /\ ~ In p cs.
Proof.
  intros H.
  destruct (initialize_members _ _ _ _ _ H) as (c & cs & Hl & Hcs & Hp & Hm).
  assert (Hproj : GradleWorkspace.project p st' = (st', Ret p)).
  { unfold GradleWorkspace.project, bind, deref. now rewrite Hp. }
  exists c, (seq (S p) (length cs)). repeat split; try assumption.
  - unfold GradleProject.workspaces, bind, deref. now rewrite Hp.
  - unfold accepted_paths. rewrite <- children_relativeCwd with (p := p), <- Hcs.
    unfold relativeCwdOf.
    rewrite <- (map_map (nth_error (heap st')) (option_map relativeCwd)), Hm.
    now rewrite !map_map.
  - constructor; [assumption|].
    apply Forall_forall. intros w Hw.
    destruct (map_Some_In _ _ _ _ Hm Hw) as (o & Ho & Hin).
    rewrite Hcs in Hin. apply children_spec in Hin. destruct Hin as (Hpr & Has & _).
    unfold GradleWorkspace.project, bind, deref. now rewrite Ho, Has, Hpr.
  - intros Hin. apply in_seq in Hin. lia.
Qed.


Lemma initialize_workspaces_witness :
  exists c cs,
    load_outcome (posix packages_a_b) (str "/repo") sample_files = Ret (Some c)
    /\ GradleProject.workspaces 0 (fst (GradleProject.initialize
                                          (posix packages_a_b) (independent "/repo") sample))
       = (fst (GradleProject.initialize
                 (posix packages_a_b) (independent "/repo") sample), Ret (0 :: cs))
    /\ map (relativeCwdOf (fst (GradleProject.initialize
                                  (posix packages_a_b) (independent "/repo") sample))) cs
       = map Some (accepted_paths (posix packages_a_b) (independent "/repo")
                                  sample_files c)
    /\ GradleWorkspace.project 0 (fst (GradleProject.initialize
                                         (posix packages_a_b) (independent "/repo") sample))
       = (fst (GradleProject.initialize
                 (posix packages_a_b) (independent "/repo") sample), Ret 0)
    /\ Forall (fun w =>
                 GradleWorkspace.project w
                   (fst (GradleProject.initialize
                           (posix packages_a_b) (independent "/repo") sample))
                 = (fst (GradleProject.initialize
                           (posix packages_a_b) (independent "/repo") sample), Ret 0))
              (0 :: cs)
    /\ ~ In 0 cs.
Proof.
  apply (initialize_workspaces (posix packages_a_b) (independent "/repo") sample).
  vm_compute. reflexivity.
Defined.

(** ** [tagPrefix] *)

Lemma tagPrefix_eq st this c :
  GradleWorkspace.config this st = (st, Ret c) ->
  GradleWorkspace.tagPrefix this st
  = if independentVersioning (options c)
    then match GradleWorkspace.packageName this st with
         | (st', Ret (Some (JString name))) =>
             (st', Ret (versionTagPrefix (options c) ++ name ++ str "@"))
         | (st', Ret _) => (st', Unmodelled)
         | (st', Throw e) => (st', Throw e)
         | (st', Unmodelled) => (st', Unmodelled)
         end
    else (st, Ret (versionTagPrefix (options c))).
Proof.
  intros Hc. unfold GradleWorkspace.tagPrefix. unfold bind at 1. rewrite Hc.
  destruct (independentVersioning (options c)); [|reflexivity].
  unfold bind at 1.
  destruct (GradleWorkspace.packageName this st) as [st' [[[| | |name| |]|]| |]];
    reflexivity.
Qed.

(** C7: with [c] the configuration of the workspace, [tagPrefix] is the
    configured [versionTagPrefix] when [independentVersioning] is off, and
    the [versionTagPrefix], the [packageName] and an [@] when it is on. *)
Theorem tagPrefix_spec st this c :
  GradleWorkspace.config this st = (st, Ret c) ->
  (independentVersioning (options c) = false ->
   GradleWorkspace.tagPrefix this st = (st, Ret (versionTagPrefix (options c))))
  /\ (independentVersioning (options c) = true ->
      forall name,
        GradleWorkspace.packageName this st = (st, Ret (Some (JString name))) ->
        GradleWorkspace.tagPrefix this st
        = (st, Ret (versionTagPrefix (options c) ++ name ++ str "@"))).
Proof.
  intros Hc. rewrite (tagPrefix_eq _ _ _ Hc).
  split; intros ->; [reflexivity|]. now intros name ->.
Qed.

(** The accessors, from what the references point to. *)
Lemma deref_eq st r o :
  nth_error (heap st) r = Some o -> deref r st = (st, Ret o).
Proof. intros H. unfold deref. now rewrite H. Qed.

Lemma project_of_project st this o f :
  nth_error (heap st) this = Some o -> asProject o = Some f ->
  GradleWorkspace.project this st = (st, Ret this).
Proof.
  intros Ho Hf. unfold GradleWorkspace.project, bind.
  now rewrite (deref_eq _ _ _ Ho), Hf.
Qed.

Lemma project_of_workspace st this o p :
  nth_error (heap st) this = Some o -> asProject o = None ->
  _project o = Some p ->
  GradleWorkspace.project this st = (st, Ret p).
Proof.
  intros Ho Hf Hp. unfold GradleWorkspace.project, bind.
  now rewrite (deref_eq _ _ _ Ho), Hf, Hp.
Qed.

Lemma projectFields_eq st this p o f :
  GradleWorkspace.project this st = (st, Ret p) ->
  nth_error (heap st) p = Some o -> asProject o = Some f ->
  GradleWorkspace.projectFields this st = (st, Ret f).
Proof.
  intros Hp Ho Hf. unfold GradleWorkspace.projectFields, bind.
  now rewrite Hp, (deref_eq _ _ _ Ho), Hf.
Qed.

Lemma config_of_project st this o f :
  nth_error (heap st) this = Some o -> asProject o = Some f ->
  GradleWorkspace.config this st = (st, Ret (_config f)).
Proof.
  intros Ho Hf. unfold GradleWorkspace.config, bind.
  now rewrite (deref_eq _ _ _ Ho), Hf.
Qed.

Lemma config_of_workspace st this o f :
  nth_error (heap st) this = Some o -> asProject o = None ->
  GradleWorkspace.projectFields this st = (st, Ret f) ->
  GradleWorkspace.config this st = (st, Ret (_config f)).
Proof.
  intros Ho Hf Hp. unfold GradleWorkspace.config, bind.
  rewrite (deref_eq _ _ _ Ho), Hf. unfold bind. now rewrite Hp.
Qed.

Lemma cwd_of_project P st this o f :
  nth_error (heap st) this = Some o -> asProject o = Some f ->
  GradleWorkspace.cwd P this st = (st, Ret (_cwd f)).
Proof.
  intros Ho Hf. unfold GradleWorkspace.cwd, bind.
  now rewrite (deref_eq _ _ _ Ho), Hf.
Qed.

Lemma cwd_of_workspace P st this o f :
  nth_error (heap st) this = Some o -> asProject o = None ->
  GradleWorkspace.projectFields this st = (st, Ret f) ->
  GradleWorkspace.cwd P this st
  = (st, Ret (path_join P (_cwd f) (relativeCwd o))).
Proof.
  intros Ho Hf Hp. unfold GradleWorkspace.cwd, bind.
  rewrite (deref_eq _ _ _ Ho), Hf. unfold bind. now rewrite Hp.
Qed.

Lemma packageName_eq st this o :
  nth_error (heap st) this = Some o ->
  GradleWorkspace.packageName this st = (st, Ret (field "name" (manifestOf o))).
Proof.
  intros Ho. unfold GradleWorkspace.packageName, GradleWorkspace.manifest, bind.
  now rewrite (deref_eq _ _ _ Ho).
Qed.

(** The accessors on the workspaces of an initialized project: the
    configuration is the argument of [initialize] and the name is a
    string. *)
Lemma initialized_accessors P init st st' p ws w :
  GradleProject.initialize P init st = (st', Ret (Some p)) ->
  GradleProject.workspaces p st' = (st', Ret ws) ->
  In w ws ->
  GradleWorkspace.config w st' = (st', Ret init)
  /\ exists name,
       GradleWorkspace.packageName w st' = (st', Ret (Some (JString name))).
Proof.
  intros H Hws Hin.
  destruct (initialize_members _ _ _ _ _ H) as (c & cs & Hl & Hcs & Hp & Hm).
  unfold GradleProject.workspaces, bind in Hws.
  rewrite (deref_eq _ _ _ Hp) in Hws. injection Hws as <-.
  destruct Hin as [<-|Hin].
  - split; [exact (config_of_project _ _ _ _ Hp eq_refl)|].
    destruct (valid_name _ (load_outcome_valid _ _ _ _ Hl)) as (name & Hn).
    exists name. now rewrite (packageName_eq _ _ _ Hp), <- Hn.
  - destruct (map_Some_In _ _ _ _ Hm Hin) as (o & Ho & Ho').
    rewrite Hcs in Ho'. apply children_spec in Ho'.
    destruct Ho' as (Hpr & Has & Hv & _).
    split.
    + apply (config_of_workspace _ _ _
               {| _cwd := cwd init; _config := init;
                  childWorkspaces := seq (S p) (length cs) |} Ho Has).
      apply (projectFields_eq _ _ p _ _ (project_of_workspace _ _ _ _ Ho Has Hpr) Hp).
      reflexivity.
    + destruct (valid_name _ Hv) as (name & Hn). exists name.
      now rewrite (packageName_eq _ _ _ Ho), Hn.
Qed.

(** On an initialized project every workspace has a tag prefix. *)
Lemma initialized_tagPrefix P init st st' p ws w :
  GradleProject.initialize P init st = (st', Ret (Some p)) ->
  GradleProject.workspaces p st' = (st', Ret ws) ->
  In w ws ->
  exists name,
    GradleWorkspace.packageName w st' = (st', Ret (Some (JString name)))
    /\ GradleWorkspace.tagPrefix w st'
       = (st', Ret (if independentVersioning (options init)
                    then versionTagPrefix (options init) ++ name ++ str "@"
                    else versionTagPrefix (options init))).
Proof.
  intros H Hws Hin.
  destruct (initialized_accessors _ _ _ _ _ _ _ H Hws Hin) as (Hc & name & Hn).
  exists name. split; [assumption|].
  rewrite (tagPrefix_eq _ _ _ Hc), Hn.
  now destruct (independentVersioning (options init)).
Qed.

Lemma tagPrefix_spec_witness :
  let st := fst (GradleProject.initialize
                   (posix packages_a_b) (independent "/repo") sample) in
  (independentVersioning (options (independent "/repo")) = false ->
   GradleWorkspace.tagPrefix 1 st = (st, Ret (str "v")))
  /\ (independentVersioning (options (independent "/repo")) = true ->
      forall name,
        GradleWorkspace.packageName 1 st = (st, Ret (Some (JString name))) ->
        GradleWorkspace.tagPrefix 1 st = (st, Ret (str "v" ++ name ++ str "@"))).
Proof.
  intros st.
  apply (tagPrefix_spec st 1 (independent "/repo")).
  vm_compute. reflexivity.
Defined.

Example tagPrefix_independent :
  snd (GradleWorkspace.tagPrefix 1
         (fst (GradleProject.initialize
                 (posix packages_a_b) (independent "/repo") sample)))
  = Ret (str "vb@").
Proof. vm_compute. reflexivity. Qed.

Example tagPrefix_locked :
  snd (GradleWorkspace.tagPrefix 1
         (fst (GradleProject.initialize
                 (posix packages_a_b) (locked "/repo") sample)))
  = Ret (str "v").
Proof. vm_compute. reflexivity. Qed.

(** ** Discovery of the child workspaces *)

Lemma loadWorkspace_files P init project path st :
  files (fst (GradleProject.loadWorkspace P init project path st)) = files st.
Proof.
  rewrite loadWorkspace_eq.
  destruct (load_outcome _ _ _) as [[c|]| |]; try reflexivity.
  destruct (accepted c); [|reflexivity]. now destruct (nameless c).
Qed.

(** The callback on a path whose manifest loads, is not marked private and
    has no name. *)
Lemma loadWorkspace_nameless P init project path st w :
  load_outcome P (path_join P (cwd init) path) (files st) = Ret (Some w) ->
  accepted w = true -> nameless w = true ->
  GradleProject.loadWorkspace P init project path st
  = (st, Throw (missing_name path)).
Proof. intros Hl Ha Hn. rewrite loadWorkspace_eq. now rewrite Hl, Ha, Hn. Qed.

(** The callback on a path whose manifest is marked private: no workspace,
    and no error, whatever the name. *)
Lemma loadWorkspace_private P init project path st w :
  load_outcome P (path_join P (cwd init) path) (files st) = Ret (Some w) ->
  accepted w = false ->
  GradleProject.loadWorkspace P init project path st = (st, Ret None).
Proof. intros Hl Ha. rewrite loadWorkspace_eq. now rewrite Hl, Ha. Qed.

Lemma mapM_loadWorkspace_nameless P init project path w paths : forall st,
  In path paths ->
  load_outcome P (path_join P (cwd init) path) (files st) = Ret (Some w) ->
  accepted w = true -> nameless w = true ->
  forall rs,
    snd (mapM (GradleProject.loadWorkspace P init project) paths st) <> Ret rs.
Proof.
  induction paths as [|path' paths IH]; intros st Hin Hl Ha Hn rs; [destruct Hin|].
  simpl. unfold bind.
  destruct (GradleProject.loadWorkspace P init project path' st)
    as [st1 [r| |]] eqn:E; try discriminate.
  destruct Hin as [->|Hin].
  - rewrite (loadWorkspace_nameless _ _ _ _ _ _ Hl Ha Hn) in E. discriminate.
  - assert (Hf : files st1 = files st).
    { pose proof (loadWorkspace_files P init project path' st) as Hf.
      now rewrite E in Hf. }
    rewrite <- Hf in Hl.
    specialize (IH st1 Hin Hl Ha Hn).
    destruct (mapM _ paths st1) as [st2 [rs'| |]]; try discriminate.
    now contradiction (IH rs').
Qed.

(** C1, as the code has it.  Take a candidate path whose manifest loads and
    has no name.  When the manifest is not marked private, the callback of
    the path raises the error that names the path and [initialize] does not
    return.  When it is marked private, the callback returns [undefined]
    and raises nothing: the privacy test comes before the constructor, which
    is where the name is looked at. *)
Theorem nameless_child P init st c path w :
  load_outcome P (cwd init) (files st) = Ret (Some c) ->
  In path (candidates P init c) ->
  load_outcome P (path_join P (cwd init) path) (files st) = Ret (Some w) ->
  nameless w = true ->
  (accepted w = true ->
   (forall project,
       GradleProject.loadWorkspace P init project path st
       = (st, Throw (Error (str "Invalid manifest. Package at '" ++ path
                              ++ str "' does not have a name"))))
   /\ (forall r, snd (GradleProject.initialize P init st) <> Ret r))
  /\ (accepted w = false ->
      forall project,
        GradleProject.loadWorkspace P init project path st = (st, Ret None)).
Proof.
  intros Hroot Hin Hl Hn. split; [intros Ha; split | intros Ha].
  - intros project. exact (loadWorkspace_nameless _ _ _ _ _ _ Hl Ha Hn).
  - intros r. unfold GradleProject.initialize. unfold bind at 1.
    rewrite loadGradleBuildFile_eq, Hroot.
    unfold bind at 1. rewrite GradleProject_new_eq.
    destruct (nameless c); [discriminate|].
    unfold bind at 1.
    unfold GradleWorkspace.manifest, bind, deref, ret; simpl.
    rewrite nth_error_middle; simpl.
    unfold candidates in Hin. unfold manifestOf; simpl.
    destruct (field "workspaces" (manifest c)) as [[| | | |patterns|]|];
      try destruct Hin.
    match goal with
    | |- context [mapM ?f ?l ?s] =>
        pose proof (mapM_loadWorkspace_nameless P init (length (heap st)) path w l s)
          as Hm;
        destruct (mapM f l s) as [st1 [rs| |]]
    end; try discriminate.
    now contradiction (Hm Hin Hl Ha Hn rs).
  - intros project. exact (loadWorkspace_private _ _ _ _ _ _ Hl Ha).
Qed.

Lemma nameless_child_witness :
  (accepted {| manifest := JObject [(str "name", JString [])];
               eofInEnd := false |} = true ->
   (forall project,
       GradleProject.loadWorkspace (posix packages_b_c) (locked "/repo") project
                                   (str "packages/c") sample
       = (sample,
          Throw (Error (str "Invalid manifest. Package at '" ++ str "packages/c"
                          ++ str "' does not have a name"))))
   /\ (forall r, snd (GradleProject.initialize (posix packages_b_c)
                                               (locked "/repo") sample) <> Ret r))
  /\ (accepted {| manifest := JObject [(str "name", JString [])];
                  eofInEnd := false |} = false ->
      forall project,
        GradleProject.loadWorkspace (posix packages_b_c) (locked "/repo") project
                                    (str "packages/c") sample
        = (sample, Ret None)).
Proof.
  refine (nameless_child (posix packages_b_c) (locked "/repo") sample
            {| manifest := JObject [(str "name", JString (str "root"));
                                    (str "workspaces",
                                     JArray [JString (str "packages/*")])];
               eofInEnd := true |}
            (str "packages/c")
            {| manifest := JObject [(str "name", JString [])];
               eofInEnd := false |} _ _ _ _).
  - vm_compute. reflexivity.
  - right. left. reflexivity.
  - vm_compute. reflexivity.
  - reflexivity.
Defined.

Example nameless_child_error :
  snd (GradleProject.initialize (posix packages_b_c) (locked "/repo") sample)
  = Throw (Error (str "Invalid manifest. Package at 'packages/c' does not have a name")).
Proof. vm_compute. reflexivity. Qed.

(** C1, as the specification words it, fails on a candidate that has no
    name and is marked private: the privacy test comes first, the package is
    left out and [initialize] returns the project. *)
Lemma private_nameless_child_excluded : ~ nameless_child_always_fatal.
Proof.
  intros H.
  apply (H (posix packages_a_b) (locked "/repo") sample
           {| manifest := JObject [(str "name", JString (str "root"));
                                   (str "workspaces",
                                    JArray [JString (str "packages/*")])];
              eofInEnd := true |}
           (str "packages/a")
           {| manifest := JObject [(str "name", JString []);
                                   (str "private", JBool true)];
              eofInEnd := false |}) with (r := Some 0).
  - vm_compute. reflexivity.
  - left. reflexivity.
  - vm_compute. reflexivity.
  - reflexivity.
  - vm_compute. reflexivity.
Qed.

Example private_nameless_child_left_out :
  let st := fst (GradleProject.initialize (posix packages_a_b)
                                          (locked "/repo") sample) in
  snd (GradleProject.workspaces 0 st) = Ret [0; 1]
  /\ map (relativeCwdOf st) [0; 1] = [Some (str "."); Some (str "packages/b")].
Proof. vm_compute. split; reflexivity. Qed.

(** ** Strings *)

Lemma startsWith_spec p : forall s,
  startsWith p s = true <-> exists r, s = p ++ r.
Proof.
  induction p as [|a p IH]; intros s; simpl.
  - split; [intros _; now exists s | reflexivity].
  - destruct s as [|b s]; [split; [discriminate | intros (r & H); discriminate]|].
    rewrite andb_true_iff, Ascii.eqb_eq, IH. split.
    + intros (-> & r & ->). now exists r.
    + intros (r & [= -> ->]). split; [reflexivity | now exists r].
Qed.

Lemma startsWith_app p r : startsWith p (p ++ r) = true.
Proof. apply startsWith_spec. now exists r. Qed.

Lemma includes_spec p : forall s, includes p s = true <-> substring p s.
Proof.
  induction s as [|c s IH].
  - simpl. rewrite orb_false_r, startsWith_spec. split.
    + intros (r & H). now exists [], r.
    + intros (a & b & H). destruct a; [now exists b|discriminate].
  - simpl. rewrite orb_true_iff, startsWith_spec, IH. split.
    + intros [(r & H)|(a & b & H)]; [now exists [], r|].
      exists (c :: a), b. now rewrite H.
    + intros (a & b & H). destruct a as [|c' a]; [left; now exists b|].
      right. injection H as -> ->. now exists a, b.
Qed.

Lemma includes_false_cons p c s :
  includes p (c :: s) = false ->
  startsWith p (c :: s) = false /\ includes p s = false.
Proof. simpl. now rewrite orb_false_iff. Qed.

Lemma includes_skipn p k : forall s,
  includes p s = false -> includes p (skipn k s) = false.
Proof.
  induction k as [|k IH]; intros s H; [exact H|].
  destruct s as [|c s]; [exact H|]. simpl.
  apply IH. now apply includes_false_cons in H.
Qed.

Lemma includes_single c s : ~ In c s -> includes [c] s = false.
Proof.
  intros H. destruct (includes [c] s) eqn:E; [|reflexivity].
  apply includes_spec in E. destruct E as (a & b & ->).
  contradiction H. apply in_or_app. right. now left.
Qed.

Lemma startsWith_shorter q : forall d rest,
  startsWith q (d ++ rest) = true -> length q <= length d ->
  startsWith q d = true.
Proof.
  induction q as [|a q IH]; intros d rest H Hlen; [reflexivity|].
  destruct d as [|b d]; [simpl in Hlen; lia|].
  simpl in *. apply andb_prop in H. destruct H as [-> H].
  apply (IH _ _ H). lia.
Qed.

Lemma startsWith_across p : forall y z,
  startsWith p (y ++ z) = true -> length y <= length p ->
  startsWith (skipn (length y) p) z = true.
Proof.
  induction p as [|a p IH]; intros y z H Hlen.
  - destruct y; [reflexivity | simpl in Hlen; lia].
  - destruct y as [|b y]; [exact H|].
    simpl in *. apply andb_prop in H. destruct H as [_ H].
    apply (IH _ _ H). lia.
Qed.

(** Before a separator that follows a piece free of it, no occurrence of
    the separator starts. *)
Lemma no_early_match d x rest k :
  border_free d = true -> includes d x = false -> k < length x ->
  startsWith d (skipn k (x ++ d ++ rest)) = false.
Proof.
  intros Hb Hx Hk.
  rewrite skipn_app. replace (k - length x) with 0 by lia. simpl.
  pose proof (includes_skipn d k x Hx) as Hy.
  assert (Hlen : 0 < length (skipn k x)) by (rewrite length_skipn; lia).
  set (y := skipn k x) in *. clearbody y.
  destruct (startsWith d (y ++ d ++ rest)) eqn:E; [|reflexivity].
  destruct (Nat.le_gt_cases (length d) (length y)) as [Hle|Hgt].
  - apply startsWith_shorter in E; [|exact Hle].
    destruct y as [|c y]; [simpl in Hlen; lia|].
    apply includes_false_cons in Hy. destruct Hy as [Hy _]. congruence.
  - apply startsWith_across in E; [|lia].
    apply startsWith_shorter in E; [|rewrite length_skipn; lia].
    unfold border_free in Hb. rewrite forallb_forall in Hb.
    specialize (Hb (length y)). rewrite E in Hb.
    discriminate Hb. apply in_seq. lia.
Qed.

Lemma split_go_skip d cur y : forall k rest,
  length y = k -> split_go d k cur (y ++ rest) = split_go d 0 cur rest.
Proof.
  induction y as [|c y IH]; intros k rest H; subst k; [reflexivity|].
  simpl. now apply IH.
Qed.

Lemma split_go_clean d x : forall cur,
  d <> [] -> includes d x = false -> split_go d 0 cur x = [rev cur ++ x].
Proof.
  induction x as [|c x IH]; intros cur Hd Hx.
  - simpl. now rewrite app_nil_r.
  - apply includes_false_cons in Hx. destruct Hx as [Hs Hx].
    simpl split_go. rewrite Hs, (IH _ Hd Hx). simpl.
    now rewrite <- app_assoc.
Qed.

Lemma split_go_first d x rest : forall cur,
  d <> [] ->
  (forall k, k < length x -> startsWith d (skipn k (x ++ d ++ rest)) = false) ->
  split_go d 0 cur (x ++ d ++ rest) = (rev cur ++ x) :: split_go d 0 [] rest.
Proof.
  induction x as [|c x IH]; intros cur Hd Hx.
  - destruct d as [|a d]; [congruence|].
    rewrite app_nil_r. simpl app. simpl split_go at 1.
    rewrite Ascii.eqb_refl, startsWith_app. simpl.
    f_equal. apply split_go_skip. lia.
  - pose proof (Hx 0 ltac:(simpl; lia)) as H0. simpl in H0.
    simpl app. simpl split_go at 1. rewrite H0.
    rewrite IH; [simpl; now rewrite <- app_assoc | exact Hd |].
    intros k Hk. apply (Hx (S k)). simpl. lia.
Qed.

(** Splitting undoes joining when no piece contains the separator and the
    separator cannot overlap itself. *)
Lemma split_join d pieces :
  d <> [] -> border_free d = true -> pieces <> [] ->
  Forall (fun x => includes d x = false) pieces ->
  split d (join d pieces) = pieces.
Proof.
  intros Hd Hb Hne H. unfold split.
  induction H as [|x ps Hx Hps IH]; [congruence|].
  destruct ps as [|y ps].
  - simpl. now rewrite (split_go_clean d x [] Hd Hx).
  - change (join d (x :: y :: ps)) with (x ++ d ++ join d (y :: ps)).
    rewrite split_go_first; [|exact Hd|].
    + rewrite IH by discriminate. reflexivity.
    + intros k Hk. now apply no_early_match.
Qed.

Lemma split_lines ls :
  ls <> [] -> Forall (fun l => ~ In LF l) ls ->
  split [LF] (join [LF] ls) = ls.
Proof.
  intros Hne H. apply split_join; try easy.
  eapply Forall_impl; [|exact H]. intros l. apply includes_single.
Qed.

(** ** [gitStatusHash] *)

Lemma isGenerated_spec l : isGenerated l = true <-> mentions_generated l.
Proof.
  unfold isGenerated, mentions_generated.
  now rewrite orb_true_iff, !includes_spec.
Qed.

Lemma differ_only_in_generated_filter a b :
  differ_only_in_generated a b ->
  filter (fun l => negb (isGenerated l)) a
  = filter (fun l => negb (isGenerated l)) b.
Proof.
  induction 1 as [|l a b _ IH|l a b Hl _ IH|l a b Hl _ IH]; simpl.
  - reflexivity.
  - now rewrite IH.
  - apply isGenerated_spec in Hl. now rewrite Hl.
  - apply isGenerated_spec in Hl. now rewrite Hl.
Qed.

Lemma gitStatusHash_eq git cwd commit status :
  gitExec git [str "rev-parse"; str "--revs-only"; str "HEAD"] (Some cwd)
  = ([], Ret commit) ->
  gitExec git [str "status"; str "--porcelain"] (Some cwd) = ([], Ret status) ->
  gitStatusHash git cwd
  = ([], Ret (toString_base64
                (Sha256.sha256 (utf8 commit ++ utf8 (cleanStatus status))))).
Proof.
  intros Hc Hs. unfold gitStatusHash, io_bind. now rewrite Hc, Hs.
Qed.

Lemma cleanStatus_lines ls :
  Forall (fun l => ~ In LF l) ls ->
  cleanStatus (join [LF] ls)
  = join [LF] (filter (fun l => negb (isGenerated l)) ls).
Proof.
  intros Hl. unfold cleanStatus. destruct ls as [|l ls]; [reflexivity|].
  now rewrite split_lines by (discriminate || exact Hl).
Qed.

(** The filter of [gitStatusHash], on the status as [gitExec] returns it:
    the lines that contain [package.json] or [CHANGELOG.md] anywhere do not
    enter the digest.  For two repositories at the same commit whose status
    texts have lines [ls1] and [ls2] that differ only in such lines (either
    list may be empty: a clean work tree), [gitStatusHash] returns the same
    digest. *)
Lemma gitStatusHash_ignores_generated git1 git2 cwd commit ls1 ls2 :
  gitExec git1 [str "rev-parse"; str "--revs-only"; str "HEAD"] (Some cwd)
  = ([], Ret commit) ->
  gitExec git2 [str "rev-parse"; str "--revs-only"; str "HEAD"] (Some cwd)
  = ([], Ret commit) ->
  gitExec git1 [str "status"; str "--porcelain"] (Some cwd)
  = ([], Ret (join [LF] ls1)) ->
  gitExec git2 [str "status"; str "--porcelain"] (Some cwd)
  = ([], Ret (join [LF] ls2)) ->
  Forall (fun l => ~ In LF l) ls1 -> Forall (fun l => ~ In LF l) ls2 ->
  differ_only_in_generated ls1 ls2 ->
  gitStatusHash git1 cwd = gitStatusHash git2 cwd.
Proof.
  intros Hc1 Hc2 Hs1 Hs2 Hl1 Hl2 Hd.
  rewrite (gitStatusHash_eq _ _ _ _ Hc1 Hs1), (gitStatusHash_eq _ _ _ _ Hc2 Hs2).
  rewrite (cleanStatus_lines _ Hl1), (cleanStatus_lines _ Hl2).
  now rewrite (differ_only_in_generated_filter _ _ Hd).
Qed.

Lemma not_In_b (c : ascii) (l : jsstring) :
  existsb (Ascii.eqb c) l = false -> ~ In c l.
Proof.
  intros H Hin. assert (E : existsb (Ascii.eqb c) l = true).
  { apply existsb_exists. exists c. split; [exact Hin | apply Ascii.eqb_refl]. }
  congruence.
Qed.

Example gitStatusHash_ignores_nested_paths :
  gitStatusHash (repository HEAD (porcelain [str "M  src/a.ts"])) (str "/repo")
  = gitStatusHash
      (repository HEAD (porcelain [str "M  src/a.ts"; str " M subpackage.json"; str "?? docs/CHANGELOG.md/notes.txt"]))
      (str "/repo").
Proof.
  apply (gitStatusHash_ignores_generated _ _ (str "/repo") HEAD
           [str "M  src/a.ts"]
           [str "M  src/a.ts"; str " M subpackage.json";
            str "?? docs/CHANGELOG.md/notes.txt"]).
  - vm_compute. reflexivity.
  - vm_compute. reflexivity.
  - vm_compute. reflexivity.
  - vm_compute. reflexivity.
  - repeat constructor; apply not_In_b; reflexivity.
  - repeat constructor; apply not_In_b; reflexivity.
  - apply dg_same. apply dg_right; [apply isGenerated_spec; reflexivity|].
    apply dg_right; [apply isGenerated_spec; reflexivity|]. apply dg_nil.
Qed.

(** A clean work tree and one in which only [CHANGELOG.md] and
    [package.json] are modified have the same digest. *)
Example gitStatusHash_clean_and_generated_only :
  gitStatusHash (repository HEAD []) (str "/repo")
  = gitStatusHash
      (repository HEAD (porcelain [str " M CHANGELOG.md"; str " M package.json"]))
      (str "/repo").
Proof.
  apply (gitStatusHash_ignores_generated _ _ (str "/repo") HEAD
           [] [str "M CHANGELOG.md"; str " M package.json"]).
  - vm_compute. reflexivity.
  - vm_compute. reflexivity.
  - vm_compute. reflexivity.
  - vm_compute. reflexivity.
  - constructor.
  - repeat constructor; apply not_In_b; reflexivity.
  - apply dg_right; [apply isGenerated_spec; reflexivity|].
    apply dg_right; [apply isGenerated_spec; reflexivity|]. apply dg_nil.
Qed.

(** The same state queried twice gives the same digest: [gitStatusHash] is
    a function of what git prints. *)
Lemma gitStatusHash_deterministic git1 git2 cwd :
  (forall args, git1 args (Some cwd) = git2 args (Some cwd)) ->
  gitStatusHash git1 cwd = gitStatusHash git2 cwd.
Proof.
  intros H. unfold gitStatusHash, gitExec. now rewrite !H.
Qed.

(** C3 on a gradle project: a modified [build.gradle], the manifest that
    [updateVersion] rewrites, changes the digest; only [package.json] and
    [CHANGELOG.md] are left out of it. *)
Theorem gitStatusHash_counts_build_gradle :
  gitStatusHash (repository HEAD []) (str "/repo")
  = ([], Ret (str "5UwXnLlBoFJjQtJoUzImnE0CFrqeCsVa8C+QC3QA9N8="))
  /\ gitStatusHash (repository HEAD (porcelain [str " M build.gradle"])) (str "/repo")
     = ([], Ret (str "yLO0bpEq0hRbFvX74AAjOBelcAdd2tnmCtiD6oRmEXw="))
  /\ gitStatusHash (repository HEAD []) (str "/repo")
     <> gitStatusHash (repository HEAD (porcelain [str " M build.gradle"]))
                      (str "/repo").
Proof.
  repeat split; try (vm_compute; reflexivity).
  vm_compute. intros H. discriminate H.
Qed.

(** C10 on what git prints.  The two outputs of [git status --porcelain]
    below differ only in a line that mentions [package.json], and the
    digests differ: [gitExec] trims the status as a whole before
    [gitStatusHash] cuts it into lines, so the first line loses the blank
    of its status column and a later line keeps it.  With [src/a.ts]
    modified, the digest depends on whether [package.json], which git lists
    before it, is modified too. *)
Theorem gitStatusHash_generated_first_line :
  differ_only_in_generated [str " M package.json"; str " M src/a.ts"]
                           [str " M src/a.ts"]
  /\ gitStatusHash
       (repository HEAD (porcelain [str " M package.json"; str " M src/a.ts"]))
       (str "/repo")
     = ([], Ret (str "RLpBkkdZAclpggt69CAc9GHW5VoCbOPvn5XJ8A4cc8A="))
  /\ gitStatusHash (repository HEAD (porcelain [str " M src/a.ts"])) (str "/repo")
     = ([], Ret (str "QxbSPRvWsUl0shqZFHvW/DufALtCwTm0AUFnIlenC1E="))
  /\ gitStatusHash
       (repository HEAD (porcelain [str " M package.json"; str " M src/a.ts"]))
       (str "/repo")
     <> gitStatusHash (repository HEAD (porcelain [str " M src/a.ts"])) (str "/repo").
Proof.
  split; [|split; [|split]].
  - apply dg_left; [apply isGenerated_spec; reflexivity|].
    apply dg_same. apply dg_nil.
  - vm_compute. reflexivity.
  - vm_compute. reflexivity.
  - vm_compute. intros H. discriminate H.
Qed.

(** The statement of the specification, for all outputs of
    [git status --porcelain], does not hold. *)
Lemma gitStatusHash_first_line_trimmed : ~ digest_ignores_generated_lines.
Proof.
  intros H.
  specialize (H HEAD (str "/repo")
                [str " M package.json"; str " M src/a.ts"] [str " M src/a.ts"]).
  assert (E : gitStatusHash
                (repository HEAD (porcelain [str " M package.json"; str " M src/a.ts"]))
                (str "/repo")
              = gitStatusHash (repository HEAD (porcelain [str " M src/a.ts"]))
                              (str "/repo")).
  { apply H.
    - repeat constructor; apply not_In_b; reflexivity.
    - repeat constructor; apply not_In_b; reflexivity.
    - apply dg_left; [apply isGenerated_spec; reflexivity|].
      apply dg_same. apply dg_nil. }
  vm_compute in E. discriminate E.
Qed.

Example cleanStatus_first_line_trimmed :
  cleanStatus (trim (porcelain [str " M src/a.ts"])) = str "M src/a.ts"
  /\ cleanStatus (trim (porcelain [str " M package.json"; str " M src/a.ts"]))
     = str " M src/a.ts".
Proof. split; vm_compute; reflexivity. Qed.

(** ** [logs] *)

Lemma delim1_border_free : border_free delim1 = true.
Proof. vm_compute. reflexivity. Qed.

Lemma delim2_border_free : border_free delim2 = true.
Proof. vm_compute. reflexivity. Qed.

Lemma trimStart_app s c r :
  isWhiteSpace c = false -> trimStart (s ++ c :: r) = trimStart s ++ c :: r.
Proof.
  intros Hc. induction s as [|a s IH]; simpl; [now rewrite Hc|].
  now destruct (isWhiteSpace a).
Qed.

Lemma trimStart_idempotent s : trimStart (trimStart s) = trimStart s.
Proof.
  induction s as [|c s IH]; [reflexivity|]. simpl.
  destruct (isWhiteSpace c) eqn:E; [exact IH|]. simpl. now rewrite E.
Qed.

Lemma trim_trimStart s : trim (trimStart s) = trim s.
Proof. unfold trim. now rewrite trimStart_idempotent. Qed.

Lemma trimEnd_nonws s c :
  isWhiteSpace c = false -> trimEnd (s ++ [c]) = s ++ [c].
Proof.
  intros Hc. unfold trimEnd. rewrite rev_app_distr. simpl. rewrite Hc.
  change (c :: rev s) with (rev [c] ++ rev s).
  now rewrite <- rev_app_distr, rev_involutive.
Qed.

Lemma endsWith_mismatch p a s b :
  a <> b -> endsWith (p ++ [a]) (s ++ [b]) = false.
Proof.
  intros H. unfold endsWith. rewrite !rev_app_distr. simpl.
  destruct (Ascii.eqb a b) eqn:E; [|reflexivity].
  apply Ascii.eqb_eq in E. contradiction.
Qed.

Lemma replaceAtEnd_none alts s :
  Forall (fun p => endsWith p s = false) alts -> replaceAtEnd alts s = s.
Proof.
  induction 1 as [|p alts Hp _ IH]; [reflexivity|].
  simpl. unfold dropSuffix. now rewrite Hp.
Qed.

Lemma dropSuffix_app p x : dropSuffix p (x ++ p) = Some x.
Proof.
  unfold dropSuffix, endsWith. rewrite rev_app_distr, startsWith_app.
  rewrite length_app, Nat.add_sub, firstn_app, Nat.sub_diag, firstn_all.
  simpl. now rewrite app_nil_r.
Qed.

(** Every record delimiter ends with the letter E. *)
Lemma delim2_last : delim2 = removelast delim2 ++ ["E"%char].
Proof. reflexivity. Qed.

Lemma gitExec_regex_no_match x :
  replaceAtEnd gitExec_regex (x ++ delim2) = x ++ delim2.
Proof.
  apply replaceAtEnd_none. rewrite delim2_last, app_assoc.
  repeat constructor;
    match goal with
    | |- endsWith ?p _ = false =>
        change p with (removelast p ++ [last p " "%char])
    end; apply endsWith_mismatch; discriminate.
Qed.

Lemma endRegex_strips x : replaceAtEnd endRegex (x ++ delim2) = x.
Proof.
  cbv [endRegex replaceAtEnd].
  assert (H : forall p c, c <> "E"%char ->
                          dropSuffix (p ++ [c]) (x ++ delim2) = None).
  { intros p c Hc. unfold dropSuffix.
    rewrite delim2_last, app_assoc, endsWith_mismatch; [reflexivity | exact Hc]. }
  change (delim2 ++ [CR; LF]) with ((delim2 ++ [CR]) ++ [LF]).
  rewrite !H by discriminate.
  now rewrite dropSuffix_app.
Qed.

Lemma trimEnd_delim2 x : trimEnd (x ++ delim2) = x ++ delim2.
Proof.
  rewrite delim2_last, app_assoc. now apply trimEnd_nonws.
Qed.

Lemma join_cons2 d (a b : jsstring) l :
  join d (a :: b :: l) = a ++ d ++ join d (b :: l).
Proof. reflexivity. Qed.

Lemma join_app_head d (x y : jsstring) l :
  join d ((x ++ y) :: l) = x ++ join d (y :: l).
Proof. destruct l; simpl; [reflexivity | now rewrite <- app_assoc]. Qed.

Lemma git_log_output_pieces cs :
  cs <> [] -> git_log_output cs = join delim2 (pieces cs) ++ delim2.
Proof.
  unfold git_log_output.
  destruct cs as [|c cs]; [congruence|]. intros _.
  revert c. induction cs as [|c' cs IH]; intros c; [reflexivity|].
  specialize (IH c').
  change (join [LF] (map (fun c => payload c ++ delim2) (c :: c' :: cs)))
    with ((payload c ++ delim2) ++ [LF]
            ++ join [LF] (map (fun c => payload c ++ delim2) (c' :: cs))).
  rewrite IH.
  change (pieces (c :: c' :: cs))
    with (payload c :: (LF :: payload c') :: map (fun c' => LF :: payload c') cs).
  change (pieces (c' :: cs))
    with (payload c' :: map (fun c' => LF :: payload c') cs).
  rewrite join_cons2, (join_app_head delim2 [LF] (payload c')).
  now rewrite <- !app_assoc.
Qed.

Lemma payload_head c :
  payload c
  = subject c ++ ["E"%char]
      ++ tl delim1 ++ date c ++ delim1 ++ hash c ++ delim1 ++ body c.
Proof. reflexivity. Qed.

(** What [gitExec] hands to [logs]: the output, without the white space
    before the first subject. *)
Lemma trim_git_log_output c cs :
  trim (git_log_output (c :: cs)) = git_log_output (trimmed_subject c :: cs).
Proof.
  rewrite !git_log_output_pieces by discriminate.
  unfold trim. simpl pieces.
  assert (E : forall ps,
             trimStart (join delim2 (payload c :: ps) ++ delim2)
             = join delim2 (payload (trimmed_subject c) :: ps) ++ delim2).
  { intros ps. rewrite (payload_head c), (payload_head (trimmed_subject c)).
    rewrite !join_app_head, <- !app_assoc.
    exact (trimStart_app (subject c) "E"%char _ eq_refl). }
  rewrite E. apply trimEnd_delim2.
Qed.

Lemma not_substring_includes p s : ~ substring p s -> includes p s = false.
Proof.
  intros H. destruct (includes p s) eqn:E; [|reflexivity].
  apply includes_spec in E. contradiction.
Qed.

Lemma substring_app_l p x y : substring p y -> substring p (x ++ y).
Proof.
  intros (a & b & ->). exists (x ++ a), b. now rewrite <- app_assoc.
Qed.

Lemma trimStart_decomp s : exists w, s = w ++ trimStart s.
Proof.
  induction s as [|c s (w & IH)]; [now exists []|].
  simpl. destruct (isWhiteSpace c); [|now exists []].
  exists (c :: w). simpl. now rewrite <- IH.
Qed.

Lemma unambiguous_trimmed c : unambiguous c -> unambiguous (trimmed_subject c).
Proof.
  intros (Hs & Hd & Hh & Hb & Hp).
  destruct (trimStart_decomp (subject c)) as (w & Hw).
  repeat split; try assumption; simpl.
  - intros H. apply Hs. rewrite Hw. now apply substring_app_l.
  - intros H. apply Hp. unfold payload in *. simpl in H.
    rewrite Hw, <- app_assoc. now apply substring_app_l.
Qed.

Lemma parseEntry_nonempty e :
  e <> [] ->
  parseEntry e
  = match split delim1 e with
    | subject :: date :: hash :: body :: _ =>
        Ret (Some {| subject := trim subject; date := date;
                     hash := trim hash; body := trim body |})
    | _ => Throw TypeError
    end.
Proof. destruct e; [congruence | reflexivity]. Qed.

Lemma parseEntry_fields s d h b :
  includes delim1 s = false -> includes delim1 d = false ->
  includes delim1 h = false -> includes delim1 b = false ->
  parseEntry (s ++ delim1 ++ d ++ delim1 ++ h ++ delim1 ++ b)
  = Ret (Some {| subject := trim s; date := d; hash := trim h; body := trim b |}).
Proof.
  intros Hs Hd Hh Hb. rewrite parseEntry_nonempty.
  - change (s ++ delim1 ++ d ++ delim1 ++ h ++ delim1 ++ b)
      with (join delim1 [s; d; h; b]).
    rewrite split_join; [reflexivity | discriminate | apply delim1_border_free
                         | discriminate | now repeat constructor].
  - destruct s; discriminate.
Qed.

Lemma unambiguous_fields c :
  unambiguous c ->
  includes delim1 (subject c) = false /\ includes delim1 (date c) = false
  /\ includes delim1 (hash c) = false /\ includes delim1 (body c) = false
  /\ includes delim2 (payload c) = false.
Proof.
  intros (Hs & Hd & Hh & Hb & Hp).
  repeat split; now apply not_substring_includes.
Qed.

Lemma parseEntry_payload c :
  unambiguous c -> parseEntry (payload c) = Ret (Some (parsed c)).
Proof.
  intros H. apply unambiguous_fields in H.
  destruct H as (Hs & Hd & Hh & Hb & _). now apply parseEntry_fields.
Qed.

Lemma includes_cons_other a d c s :
  Ascii.eqb a c = false ->
  includes (a :: d) s = false -> includes (a :: d) (c :: s) = false.
Proof. intros H Hs. simpl. now rewrite H, Hs. Qed.

Lemma trim_LF s : trim (LF :: s) = trim s.
Proof. reflexivity. Qed.

Lemma parseEntry_next c :
  unambiguous c -> parseEntry (LF :: payload c) = Ret (Some (parsed c)).
Proof.
  intros H. apply unambiguous_fields in H.
  destruct H as (Hs & Hd & Hh & Hb & _).
  change (LF :: payload c)
    with ((LF :: subject c) ++ delim1 ++ date c ++ delim1 ++ hash c
            ++ delim1 ++ body c).
  rewrite parseEntry_fields; try assumption.
  now rewrite trim_LF.
Qed.

Lemma omap_parseEntry_pieces cs :
  Forall unambiguous cs ->
  omap parseEntry (pieces cs) = Ret (map (fun c => Some (parsed c)) cs).
Proof.
  destruct cs as [|c cs]; [reflexivity|].
  intros H. inversion_clear H as [|? ? Hc Hcs].
  cbn [pieces omap]. rewrite (parseEntry_payload _ Hc). cbn [obind].
  assert (E : omap parseEntry (map (fun c' => LF :: payload c') cs)
              = Ret (map (fun c => Some (parsed c)) cs)).
  { induction Hcs as [|c' cs' Hc' _ IH]; [reflexivity|].
    cbn [map omap]. rewrite (parseEntry_next _ Hc'). cbn [obind].
    now rewrite IH. }
  now rewrite E.
Qed.

Lemma pieces_clean cs :
  Forall unambiguous cs ->
  Forall (fun x => includes delim2 x = false) (pieces cs).
Proof.
  destruct cs as [|c cs]; [constructor|].
  intros H. inversion_clear H as [|? ? Hc Hcs].
  simpl pieces. constructor.
  - now apply unambiguous_fields in Hc.
  - apply Forall_map. eapply Forall_impl; [|exact Hcs].
    intros c' Hc'. apply unambiguous_fields in Hc'.
    apply (includes_cons_other "2" (tl delim2) LF); [reflexivity | apply Hc'].
Qed.

Lemma somes_map_Some {A B} (f : A -> B) (l : list A) :
  somes (map (fun x => Some (f x)) l) = map f l.
Proof. induction l as [|x l IH]; simpl; [reflexivity | now rewrite IH]. Qed.

Lemma parsed_trimmed c : parsed (trimmed_subject c) = parsed c.
Proof. unfold parsed. simpl. now rewrite trim_trimStart. Qed.

(** C4, as the code has it.  When git prints the commits [cs] under the
    format of [logs] and the delimiters occur in no record except where the
    format puts them, [logs] drops the record delimiter at the end, cuts the
    output at the record delimiters and each record at the field delimiters
    into subject, date, hash and body, and returns the commits, their
    subject, hash and body trimmed, in the order of the output.  Line feeds
    in a body, or any other text without the delimiters, do not move a
    boundary. *)
Theorem logs_parses git cwd sinceHash relativeCwd cs :
  error (git (logs_args sinceHash relativeCwd) (Some cwd)) = None ->
  exitCode (git (logs_args sinceHash relativeCwd) (Some cwd)) = Some 0%Z ->
  stdout (git (logs_args sinceHash relativeCwd) (Some cwd)) = git_log_output cs ->
  Forall unambiguous cs ->
  logs git cwd sinceHash relativeCwd = ([], Ret (map parsed cs)).
Proof.
  intros Herr Hexit Hout Hcs. unfold logs.
  rewrite (gitExec_success _ _ _ Herr Hexit), Hout.
  destruct cs as [|c cs]; [reflexivity|].
  rewrite git_log_output_pieces by discriminate.
  rewrite gitExec_regex_no_match.
  rewrite <- git_log_output_pieces by discriminate.
  rewrite trim_git_log_output.
  rewrite git_log_output_pieces by discriminate.
  unfold io_bind. rewrite endRegex_strips.
  assert (Hcs' : Forall unambiguous (trimmed_subject c :: cs)).
  { inversion_clear Hcs. constructor; [now apply unambiguous_trimmed | assumption]. }
  rewrite split_join;
    [| discriminate | apply delim2_border_free | discriminate
     | now apply pieces_clean].
  rewrite (omap_parseEntry_pieces _ Hcs'). cbn [obind].
  rewrite somes_map_Some. cbn [map]. now rewrite parsed_trimmed.
Qed.

Lemma unambiguous_b_spec c : unambiguous_b c = true -> unambiguous c.
Proof.
  unfold unambiguous_b, unambiguous. rewrite !andb_true_iff, !negb_true_iff.
  intros ((((Hs & Hd) & Hh) & Hb) & Hp).
  repeat split; intros H; apply includes_spec in H; congruence.
Qed.

Lemma logs_parses_witness :
  logs (prints (git_log_output two_commits)) (str "/repo") None None
  = ([], Ret (map parsed two_commits)).
Proof.
  apply (logs_parses (prints (git_log_output two_commits)) (str "/repo")
                     None None two_commits).
  - reflexivity.
  - reflexivity.
  - reflexivity.
  - repeat constructor; apply unambiguous_b_spec; vm_compute; reflexivity.
Defined.

Example logs_two_commits :
  snd (logs (prints (git_log_output two_commits)) (str "/repo") None None)
  = Ret [ {| subject := str "fix: trim output";
             date := str "2024-03-01T10:00:00+01:00";
             hash := str "8c1f0e5a";
             body := str "first line" ++ [LF; LF] ++ str "Closes #12" |};
          commit "feat: gradle plugin" "2024-03-02T09:30:00+01:00" "41d2b7c9" EmptyString ].
Proof. vm_compute. reflexivity. Qed.

Example logs_no_commits :
  logs (prints []) (str "/repo") None None = ([], Ret []).
Proof. reflexivity. Qed.

(** C4, as the specification words it, fails on a commit whose body quotes
    the record delimiter: the text after the quotation is taken for a
    record of its own, and that record, which has a single field, is not
    discarded: [logs] raises a TypeError. *)
Lemma logs_body_with_delimiter : ~ logs_parses_any_text.
Proof.
  intros H. specialize (H [quoting_commit]).
  vm_compute in H. discriminate H.
Qed.

Example logs_quoting_commit :
  logs (prints (git_log_output [quoting_commit])) (str "/repo") None None
  = ([], Throw TypeError).
Proof. vm_compute. reflexivity. Qed.

(** The fields of a commit may be free of both delimiters and its record
    ambiguous all the same. *)
Example logs_overlapping_commit :
  includes delim1 (subject overlapping_commit) = false
  /\ includes delim2 (subject overlapping_commit) = false
  /\ includes delim2 (payload overlapping_commit) = true
  /\ logs (prints (git_log_output [overlapping_commit])) (str "/repo") None None
     = ([], Throw TypeError).
Proof. repeat split; vm_compute; reflexivity. Qed.

(** A record with fewer than four fields is not discarded. *)
Example logs_short_record :
  logs (prints (str "subject" ++ delim1 ++ str "2024-03-01" ++ delim2))
       (str "/repo") None None
  = ([], Throw TypeError).
Proof. vm_compute. reflexivity. Qed.

(** ** JSON values *)

(** Induction on a JSON value, with the hypothesis for every element of an
    array and every value of an object. *)
Lemma json_ind (P : json -> Prop) :
  P JNull ->
  (forall b, P (JBool b)) ->
  (forall z, P (JNumber z)) ->
  (forall s, P (JString s)) ->
  (forall l, Forall P l -> P (JArray l)) ->
  (forall ps, Forall (fun kx => P (snd kx)) ps -> P (JObject ps)) ->
  forall v, P v.
Proof.
  intros Hnull Hbool Hnum Hstr Harr Hobj.
  fix IH 1. intros [| b | z | s | l | ps].
  - exact Hnull.
  - apply Hbool.
  - apply Hnum.
  - apply Hstr.
  - apply Harr. induction l as [|x l IHl]; constructor; [apply IH | exact IHl].
  - apply Hobj. induction ps as [|[k x] ps IHps]; constructor;
      [apply IH | exact IHps].
Qed.

Lemma well_formed_array l : well_formed (JArray l) <-> Forall well_formed l.
Proof.
  induction l as [|x l IH]; simpl.
  - split; [constructor | trivial].
  - simpl in IH. rewrite IH. split.
    + intros [Hx Hl]. now constructor.
    + intros H. now inversion_clear H.
Qed.

Lemma well_formed_object ps :
  well_formed (JObject ps)
  <-> ordered 0 (map fst ps) /\ Forall (fun kx => well_formed (snd kx)) ps.
Proof.
  simpl. apply and_iff_compat_l.
  induction ps as [|[k x] ps IH].
  - split; [constructor | trivial].
  - rewrite IH. split.
    + intros [Hx Hl]. now constructor.
    + intros H. now inversion_clear H.
Qed.

Lemma cost_array l : cost (JArray l) = S (elements_cost l).
Proof. reflexivity. Qed.

Lemma cost_object ps : cost (JObject ps) = S (members_cost ps).
Proof.
  simpl. f_equal. induction ps as [|[k x] ps IH]; [reflexivity|].
  simpl. now rewrite IH.
Qed.

Lemma stringify_array ind x l :
  stringify ind (JArray (x :: l))
  = str "[" ++ [LF] ++ spaces (2 + ind) ++ stringify (2 + ind) x
      ++ array_tail ind l.
Proof.
  cbn [stringify]. do 4 f_equal.
  induction l as [|y l IH]; [reflexivity|]. cbn [array_tail]. now rewrite IH.
Qed.

Lemma stringify_object ind k x ps :
  stringify ind (JObject ((k, x) :: ps))
  = str "{" ++ [LF] ++ spaces (2 + ind) ++ quote k ++ str ": "
      ++ stringify (2 + ind) x ++ object_tail ind ps.
Proof.
  cbn [stringify]. do 6 f_equal.
  induction ps as [|[k' y] ps IH]; [reflexivity|].
  cbn [object_tail]. now rewrite IH.
Qed.

(** ** The properties of an object *)

Lemma jsstring_eqb_eq a b : jsstring_eqb a b = true <-> a = b.
Proof.
  unfold jsstring_eqb. destruct (list_eq_dec ascii_dec a b); split;
    congruence.
Qed.

Lemma jsstring_eqb_refl a : jsstring_eqb a a = true.
Proof. now apply jsstring_eqb_eq. Qed.

Lemma jsstring_eqb_neq a b : jsstring_eqb a b = false <-> a <> b.
Proof.
  unfold jsstring_eqb. destruct (list_eq_dec ascii_dec a b); split;
    congruence.
Qed.

(** An array index is the decimal numeral of its number. *)
Lemma array_index_digits k n : array_index k = Some n -> k = digits n.
Proof.
  unfold array_index. destruct (scan_uint k) as [d r].
  destruct d; try discriminate; destruct r; try discriminate;
    match goal with
    | |- (if ?c && _ then _ else _) = _ -> _ =>
        destruct c eqn:E; [|discriminate]
    end;
    (match goal with
     | |- (if ?c then _ else _) = _ -> _ => destruct c; [|discriminate]
     end);
    intros [= <-]; symmetry; now apply jsstring_eqb_eq.
Qed.

Lemma array_index_inj k k' n :
  array_index k = Some n -> array_index k' = Some n -> k = k'.
Proof.
  intros H H'. apply array_index_digits in H, H'. congruence.
Qed.

Lemma ordered_bound b ks k n :
  ordered b ks -> In k ks -> array_index k = Some n -> (b <= n)%N.
Proof.
  revert b. induction ks as [|k' ks IH]; intros b Ho Hin Hk; [destruct Hin|].
  simpl in Ho. destruct Hin as [->|Hin].
  - rewrite Hk in Ho. apply Ho.
  - destruct (array_index k') as [n'|].
    + destruct Ho as [Hb Ho]. specialize (IH _ Ho Hin Hk). lia.
    + destruct Ho as [Hf _]. rewrite Forall_forall in Hf.
      specialize (Hf _ Hin). congruence.
Qed.

Lemma ordered_prefix ks : forall b ks', ordered b (ks ++ ks') -> ordered b ks.
Proof.
  induction ks as [|k ks IH]; intros b ks' H; [exact I|].
  simpl in *. destruct (array_index k) as [n|].
  - destruct H as [Hb H]. split; [exact Hb | now apply IH in H].
  - destruct H as [Hf Hn]. split.
    + now apply Forall_app in Hf.
    + change (k :: ks ++ ks') with ((k :: ks) ++ ks') in Hn.
      now apply NoDup_app_remove_r in Hn.
Qed.

Lemma ordered_last_fresh ks : forall b k, ordered b (ks ++ [k]) -> ~ In k ks.
Proof.
  induction ks as [|k' ks IH]; intros b k H; [intros []|].
  simpl in H. destruct (array_index k') as [n'|] eqn:E.
  - destruct H as [_ H]. intros [->|Hin]; [|now apply (IH _ _ H)].
    assert (Hb : (n' + 1 <= n')%N).
    { apply (ordered_bound _ _ k _ H); [|exact E].
      apply in_or_app. right. now left. }
    lia.
  - destruct H as [_ H].
    change (k' :: ks ++ [k]) with ((k' :: ks) ++ [k]) in H.
    apply NoDup_remove_2 in H. now rewrite app_nil_r in H.
Qed.

Lemma get_None k ps : get k ps = None <-> ~ In k (map fst ps).
Proof.
  induction ps as [|[k' v] ps IH]; simpl.
  - split; [now intros _ [] | reflexivity].
  - destruct (jsstring_eqb k k') eqn:E.
    + apply jsstring_eqb_eq in E. subst. split; [discriminate|].
      intros H. contradiction H. now left.
    + apply jsstring_eqb_neq in E. rewrite IH. split.
      * intros H [->|Hin]; [congruence | contradiction].
      * intros H Hin. apply H. now right.
Qed.

Lemma keys_replace_value k v ps :
  map fst (replace_value k v ps) = map fst ps.
Proof.
  induction ps as [|[k' v'] ps IH]; [reflexivity|].
  simpl. destruct (jsstring_eqb k k'); simpl; [reflexivity | now rewrite IH].
Qed.

Lemma insert_index_last n k v ps : forall b,
  array_index k = Some n -> ordered b (map fst ps ++ [k]) ->
  insert_index n k v ps = ps ++ [(k, v)].
Proof.
  induction ps as [|[k' v'] ps IH]; intros b Hk Ho; [reflexivity|].
  simpl in *. destruct (array_index k') as [n'|] eqn:E.
  - destruct Ho as [_ Ho].
    assert (Hb : (n' + 1 <= n)%N).
    { apply (ordered_bound _ _ k _ Ho); [|exact Hk].
      apply in_or_app. right. now left. }
    replace (n' <? n)%N with true by (symmetry; apply N.ltb_lt; lia).
    now rewrite (IH _ Hk Ho).
  - destruct Ho as [Hf _]. apply Forall_app in Hf. destruct Hf as [_ Hf].
    inversion_clear Hf. congruence.
Qed.

(** Adding, at the end, a property that keeps the enumeration order is
    what assignment does. *)
Lemma set_last k v ps b :
  ordered b (map fst ps ++ [k]) -> set k v ps = ps ++ [(k, v)].
Proof.
  intros Ho. unfold set.
  replace (get k ps) with (@None json)
    by (symmetry; apply get_None; exact (ordered_last_fresh _ _ _ Ho)).
  destruct (array_index k) as [n|] eqn:E; [|reflexivity].
  exact (insert_index_last _ _ _ _ _ E Ho).
Qed.

Lemma ordered_insert_index n k v ps : forall b,
  array_index k = Some n -> ~ In k (map fst ps) -> (b <= n)%N ->
  ordered b (map fst ps) -> ordered b (map fst (insert_index n k v ps)).
Proof.
  induction ps as [|[k' v'] ps IH]; intros b Hk Hnin Hb Ho.
  - simpl. now rewrite Hk.
  - simpl in *. destruct (array_index k') as [n'|] eqn:E.
    + destruct Ho as [Hb' Ho].
      destruct (n' <? n)%N eqn:Hlt.
      * apply N.ltb_lt in Hlt. simpl. rewrite E. split; [exact Hb'|].
        apply IH; try assumption; [tauto | lia].
      * apply N.ltb_ge in Hlt. simpl. rewrite Hk, E.
        assert (n <> n').
        { intros ->. apply Hnin. left. exact (array_index_inj _ _ _ E Hk). }
        repeat split; try assumption; lia.
    + simpl. rewrite Hk, E. repeat split; try apply Ho. exact Hb.
Qed.

Lemma ordered_append_name k ks : forall b,
  array_index k = None -> ~ In k ks -> ordered b ks -> ordered b (ks ++ [k]).
Proof.
  induction ks as [|k' ks IH]; intros b Hk Hnin Ho.
  - simpl. rewrite Hk. split; [constructor|].
    constructor; [intros [] | constructor].
  - simpl in *. destruct (array_index k') as [n'|].
    + destruct Ho as [Hb Ho]. split; [exact Hb|]. apply IH; tauto.
    + destruct Ho as [Hf Hn]. split.
      * apply Forall_app. split; [exact Hf | now repeat constructor].
      * change (k' :: ks ++ [k]) with ((k' :: ks) ++ [k]).
        apply NoDup_app; [exact Hn | repeat constructor; intros [] |].
        intros x Hx [<-|[]]. exact (Hnin Hx).
Qed.

(** Assignment keeps the enumeration order. *)
Lemma ordered_set k v ps :
  ordered 0 (map fst ps) -> ordered 0 (map fst (set k v ps)).
Proof.
  intros Ho. unfold set. destruct (get k ps) eqn:Hg.
  - now rewrite keys_replace_value.
  - apply get_None in Hg. destruct (array_index k) as [n|] eqn:E.
    + apply ordered_insert_index; try assumption. lia.
    + rewrite map_app. simpl. now apply ordered_append_name.
Qed.

(** ** Reading back what [JSON.stringify] writes *)

(** One character of a string, escaped and read back. *)
Lemma parse_string_escape c r :
  parse_string (escape c ++ r) = omap_fst (cons c) (parse_string r).
Proof.
  destruct c as [[] [] [] [] [] [] [] []]; reflexivity.
Qed.

Lemma parse_string_quote s rest :
  parse_string (flat_map escape s ++ DQUOTE :: rest) = Ret (s, rest).
Proof.
  induction s as [|c s IH]; [reflexivity|].
  simpl flat_map. rewrite <- app_assoc, parse_string_escape, IH. reflexivity.
Qed.

Lemma quote_app s rest :
  quote s ++ rest = DQUOTE :: flat_map escape s ++ DQUOTE :: rest.
Proof. unfold quote. simpl. now rewrite <- app_assoc. Qed.

Lemma skip_ws_spaces n s : skip_ws (spaces n ++ s) = skip_ws s.
Proof. induction n as [|n IH]; [reflexivity | exact IH]. Qed.

Lemma skip_ws_line n s : skip_ws ([LF] ++ spaces n ++ s) = skip_ws s.
Proof. simpl. apply skip_ws_spaces. Qed.

Lemma skip_ws_idempotent s : skip_ws (skip_ws s) = skip_ws s.
Proof.
  induction s as [|c s IH]; [reflexivity|]. simpl.
  destruct (json_ws c) eqn:E; [exact IH|]. simpl. now rewrite E.
Qed.

(** The parsers start by passing over white space. *)
Lemma parse_value_skip_ws fuel s :
  parse_value fuel (skip_ws s) = parse_value fuel s.
Proof. destruct fuel; [reflexivity|]. simpl. now rewrite skip_ws_idempotent. Qed.

Lemma parse_elements_skip_ws fuel acc s :
  parse_elements fuel acc (skip_ws s) = parse_elements fuel acc s.
Proof. destruct fuel; [reflexivity|]. simpl. now rewrite parse_value_skip_ws. Qed.

Lemma parse_members_skip_ws fuel acc s :
  parse_members fuel acc (skip_ws s) = parse_members fuel acc s.
Proof. destruct fuel; [reflexivity|]. simpl. now rewrite skip_ws_idempotent. Qed.

(** Numerals. *)
Lemma scan_uint_chars d rest :
  match rest with [] => True | c :: _ => is_digit c = false end ->
  scan_uint (uint_chars d ++ rest) = (d, rest).
Proof.
  intros Hrest. induction d; simpl; try (now rewrite IHd).
  destruct rest as [|c r]; [reflexivity|].
  simpl. unfold is_digit, code in Hrest.
  destruct c as [[] [] [] [] [] [] [] []]; try reflexivity; discriminate Hrest.
Qed.

Lemma to_uint_canonical n d :
  N.to_uint n = Decimal.D0 d -> d = Decimal.Nil.
Proof.
  intros H.
  pose proof (DecimalN.Unsigned.to_of (N.to_uint n)) as Hn.
  rewrite DecimalN.Unsigned.of_to, H in Hn.
  rewrite DecimalFacts.unorm_D0 in Hn. unfold Decimal.unorm in Hn.
  destruct (Decimal.nzhead d) eqn:E; try (injection Hn as <-; reflexivity).
  all: try (exfalso; symmetry in Hn; revert Hn; rewrite <- E;
            apply DecimalFacts.nzhead_nonzero).
Qed.

Lemma to_uint_not_nil n : N.to_uint n <> Decimal.Nil.
Proof.
  destruct n; [discriminate|]. simpl.
  apply DecimalPos.Unsigned.to_uint_nonnil.
Qed.

Lemma delimited_not_digit rest :
  delimited rest ->
  match rest with [] => True | c :: _ => is_digit c = false end.
Proof. destruct rest as [|c r]; [trivial|]. now intros [->| ->]. Qed.

Lemma delimited_not_fraction rest :
  delimited rest ->
  match rest with
  | c :: _ => Ascii.eqb c "." || Ascii.eqb c "e" || Ascii.eqb c "E"
  | [] => false
  end = false.
Proof. destruct rest as [|c r]; [trivial|]. now intros [->| ->]. Qed.

Lemma parse_digits_chars neg n rest :
  (n <= MAX_SAFE_INTEGER)%N -> delimited rest -> neg && (n =? 0)%N = false ->
  parse_digits neg (digits n ++ rest)
  = Ret (JNumber (if neg then - Z.of_N n else Z.of_N n)%Z, rest).
Proof.
  intros Hn Hrest Hneg. unfold parse_digits, digits.
  rewrite (scan_uint_chars _ _ (delimited_not_digit _ Hrest)).
  rewrite (delimited_not_fraction _ Hrest), DecimalN.Unsigned.of_to, Hneg.
  replace (MAX_SAFE_INTEGER <? n)%N with false
    by (symmetry; apply N.ltb_ge; exact Hn).
  pose proof (to_uint_not_nil n) as Hnil.
  destruct (N.to_uint n) as [|d|d|d|d|d|d|d|d|d|d] eqn:E;
    try reflexivity; [congruence|].
  apply to_uint_canonical in E. now subst d.
Qed.

Lemma parse_number_digits n rest :
  (n <= MAX_SAFE_INTEGER)%N -> delimited rest ->
  parse_number (digits n ++ rest) = Ret (JNumber (Z.of_N n), rest).
Proof.
  intros Hn Hrest.
  rewrite <- (parse_digits_chars false n rest Hn Hrest eq_refl).
  unfold parse_number, digits. pose proof (to_uint_not_nil n).
  destruct (N.to_uint n); try reflexivity. congruence.
Qed.

Lemma parse_number_negative p rest :
  (Npos p <= MAX_SAFE_INTEGER)%N -> delimited rest ->
  parse_number ("-"%char :: digits (Npos p) ++ rest)
  = Ret (JNumber (Zneg p), rest).
Proof.
  intros Hn Hrest.
  exact (parse_digits_chars true (Npos p) rest Hn Hrest eq_refl).
Qed.

(** The first character of the text of a value. *)
Lemma digits_head n :
  exists c r, digits n = c :: r /\ is_digit c = true.
Proof.
  unfold digits. pose proof (to_uint_not_nil n) as H.
  destruct (N.to_uint n); [congruence| ..]; simpl; eauto.
Qed.

Lemma is_digit_head c :
  is_digit c = true -> json_ws c = false /\ Ascii.eqb c "]" = false.
Proof.
  unfold is_digit, code.
  destruct c as [[] [] [] [] [] [] [] []]; try discriminate; now split.
Qed.

Lemma stringify_head ind v :
  exists c r, stringify ind v = c :: r
              /\ json_ws c = false /\ Ascii.eqb c "]" = false.
Proof.
  destruct v as [| [|] | [|p|p] | s | [|x l] | [|[k x] ps]];
    try (eexists; eexists; repeat split; reflexivity).
  destruct (digits_head (Npos p)) as (c & r & E & Hc).
  exists c, r. split; [exact E | now apply is_digit_head].
Qed.

Lemma skip_ws_head c r : json_ws c = false -> skip_ws (c :: r) = c :: r.
Proof. intros H. simpl. now rewrite H. Qed.

Lemma parse_value_ws fuel s1 s2 :
  skip_ws s1 = skip_ws s2 -> parse_value fuel s1 = parse_value fuel s2.
Proof.
  intros H. now rewrite <- (parse_value_skip_ws fuel s1), H, parse_value_skip_ws.
Qed.

Lemma parse_elements_ws fuel acc s1 s2 :
  skip_ws s1 = skip_ws s2 ->
  parse_elements fuel acc s1 = parse_elements fuel acc s2.
Proof.
  intros H.
  now rewrite <- (parse_elements_skip_ws fuel acc s1), H, parse_elements_skip_ws.
Qed.

Lemma parse_members_ws fuel acc s1 s2 :
  skip_ws s1 = skip_ws s2 ->
  parse_members fuel acc s1 = parse_members fuel acc s2.
Proof.
  intros H.
  now rewrite <- (parse_members_skip_ws fuel acc s1), H, parse_members_skip_ws.
Qed.

(** One step of each parser. *)
Lemma parse_value_array fuel s c r :
  skip_ws s = c :: r -> Ascii.eqb c "]" = false ->
  parse_value (S fuel) ("["%char :: s) = parse_elements fuel [] s.
Proof.
  intros Hs Hc. rewrite <- (parse_elements_skip_ws fuel [] s).
  cbn [parse_value skip_ws]. change (json_ws "[") with false. cbv iota.
  change (Ascii.eqb "[" "{") with false. change (Ascii.eqb "[" "[") with true.
  cbv iota. now rewrite Hs, Hc.
Qed.

Lemma parse_value_object fuel s c r :
  skip_ws s = c :: r -> Ascii.eqb c "}" = false ->
  parse_value (S fuel) ("{"%char :: s) = parse_members fuel [] s.
Proof.
  intros Hs Hc. rewrite <- (parse_members_skip_ws fuel [] s).
  cbn [parse_value skip_ws]. change (json_ws "{") with false. cbv iota.
  change (Ascii.eqb "{" "{") with true. cbv iota. now rewrite Hs, Hc.
Qed.

Lemma parse_elements_step fuel acc s x r c r' :
  parse_value fuel s = Ret (x, r) -> skip_ws r = c :: r' ->
  parse_elements (S fuel) acc s
  = if Ascii.eqb c "," then parse_elements fuel (x :: acc) r'
    else if Ascii.eqb c "]" then Ret (JArray (rev (x :: acc)), r')
    else Throw SyntaxError.
Proof.
  intros Hv Hr. cbn [parse_elements]. rewrite Hv. cbn [obind fst snd].
  now rewrite Hr.
Qed.

Lemma parse_members_step fuel acc k s x r c r' :
  parse_value fuel s = Ret (x, r) -> skip_ws r = c :: r' ->
  parse_members (S fuel) acc (quote k ++ str ":" ++ s)
  = if Ascii.eqb c "," then parse_members fuel (set k x acc) r'
    else if Ascii.eqb c "}" then Ret (JObject (set k x acc), r')
    else Throw SyntaxError.
Proof.
  intros Hv Hr. rewrite quote_app. cbn [parse_members skip_ws].
  change (json_ws DQUOTE) with false. cbv iota.
  change (Ascii.eqb DQUOTE DQUOTE) with true. cbv iota.
  rewrite parse_string_quote. cbn [obind fst snd str list_ascii_of_string app skip_ws].
  change (json_ws ":") with false. cbv iota.
  change (Ascii.eqb ":" ":") with true. cbv iota.
  rewrite Hv. cbn [obind fst snd]. now rewrite Hr.
Qed.

Lemma delimited_array_tail ind l rest : delimited (array_tail ind l ++ rest).
Proof. destruct l; simpl; auto. Qed.

Lemma delimited_object_tail ind ps rest : delimited (object_tail ind ps ++ rest).
Proof. destruct ps as [|[k x] ps]; simpl; auto. Qed.

Lemma skip_ws_stringify ind v rest :
  exists c r, skip_ws (stringify ind v ++ rest) = c :: r
              /\ Ascii.eqb c "]" = false.
Proof.
  destruct (stringify_head ind v) as (c & r & E & Hws & Hc).
  exists c, (r ++ rest). rewrite E. simpl. now rewrite Hws.
Qed.

(** The elements of an array after the opening bracket. *)
Lemma parse_elements_tail ind l : forall x acc fuel rest,
  Forall reads_back (x :: l) -> elements_cost (x :: l) <= fuel ->
  delimited rest ->
  parse_elements fuel acc (stringify (2 + ind) x ++ array_tail ind l ++ rest)
  = Ret (JArray (rev acc ++ x :: l), rest).
Proof.
  induction l as [|y l IH]; intros x acc fuel rest Hall Hfuel Hrest;
    inversion_clear Hall as [|? ? Hx Hl];
    (destruct fuel as [|fuel]; [simpl in Hfuel; lia|]);
    cbn [elements_cost fold_right] in Hfuel.
  - assert (Hv : parse_value fuel
                   (stringify (2 + ind) x ++ array_tail ind [] ++ rest)
                 = Ret (x, array_tail ind [] ++ rest)).
    { apply Hx; [lia | apply delimited_array_tail]. }
    rewrite (parse_elements_step _ _ _ _ _ "]"%char rest Hv).
    + reflexivity.
    + cbn [array_tail]. rewrite <- !app_assoc. now rewrite skip_ws_line.
  - assert (Hv : parse_value fuel
                   (stringify (2 + ind) x ++ array_tail ind (y :: l) ++ rest)
                 = Ret (x, array_tail ind (y :: l) ++ rest)).
    { apply Hx; [lia | apply delimited_array_tail]. }
    rewrite (parse_elements_step _ _ _ _ _ ","%char
               ([LF] ++ spaces (2 + ind) ++ stringify (2 + ind) y
                  ++ array_tail ind l ++ rest) Hv).
    + change (Ascii.eqb "," ",") with true. cbv iota.
      rewrite (parse_elements_ws _ _ _
                 (stringify (2 + ind) y ++ array_tail ind l ++ rest))
        by apply skip_ws_line.
      rewrite IH; [| assumption | cbn [elements_cost fold_right]; lia
                   | assumption].
      cbn [rev]. now rewrite <- app_assoc.
    + cbn [array_tail]. rewrite <- !app_assoc. reflexivity.
Qed.

(** The properties of an object after the opening brace. *)
Lemma parse_members_tail ind ps : forall k x acc fuel rest,
  Forall (fun kx => reads_back (snd kx)) ((k, x) :: ps) ->
  members_cost ((k, x) :: ps) <= fuel ->
  delimited rest ->
  ordered 0 (map fst (acc ++ (k, x) :: ps)) ->
  parse_members fuel acc
    (quote k ++ str ": " ++ stringify (2 + ind) x ++ object_tail ind ps ++ rest)
  = Ret (JObject (acc ++ (k, x) :: ps), rest).
Proof.
  induction ps as [|[k' y] ps IH]; intros k x acc fuel rest Hall Hfuel Hrest Hord;
    inversion_clear Hall as [|? ? Hx Hl]; simpl in Hx;
    (destruct fuel as [|fuel]; [simpl in Hfuel; lia|]);
    cbn [members_cost fold_right snd] in Hfuel;
    assert (Hset : set k x acc = acc ++ [(k, x)])
      by (apply (set_last k x acc 0);
          rewrite map_app in Hord; cbn [map fst] in Hord;
          change (k :: ?t) with ([k] ++ t) in Hord;
          rewrite app_assoc in Hord; exact (ordered_prefix _ _ _ Hord)).
  - assert (Hv : parse_value fuel
                   (" "%char :: stringify (2 + ind) x ++ object_tail ind [] ++ rest)
                 = Ret (x, object_tail ind [] ++ rest)).
    { rewrite (parse_value_ws _ _
                 (stringify (2 + ind) x ++ object_tail ind [] ++ rest))
        by reflexivity.
      apply Hx; [lia | apply delimited_object_tail]. }
    change (str ": " ++ ?s) with (str ":" ++ " "%char :: s).
    rewrite (parse_members_step _ _ _ _ _ _ "}"%char rest Hv).
    + change (Ascii.eqb "}" ",") with false.
      change (Ascii.eqb "}" "}") with true. cbv iota. now rewrite Hset.
    + cbn [object_tail]. rewrite <- !app_assoc. now rewrite skip_ws_line.
  - assert (Hv : parse_value fuel
                   (" "%char :: stringify (2 + ind) x
                      ++ object_tail ind ((k', y) :: ps) ++ rest)
                 = Ret (x, object_tail ind ((k', y) :: ps) ++ rest)).
    { rewrite (parse_value_ws _ _
                 (stringify (2 + ind) x ++ object_tail ind ((k', y) :: ps) ++ rest))
        by reflexivity.
      apply Hx; [lia | apply delimited_object_tail]. }
    change (str ": " ++ ?s) with (str ":" ++ " "%char :: s).
    rewrite (parse_members_step _ _ _ _ _ _ ","%char
               ([LF] ++ spaces (2 + ind) ++ quote k' ++ str ": "
                  ++ stringify (2 + ind) y ++ object_tail ind ps ++ rest) Hv).
    + change (Ascii.eqb "," ",") with true. cbv iota.
      rewrite (parse_members_ws _ _ _
                 (quote k' ++ str ": " ++ stringify (2 + ind) y
                    ++ object_tail ind ps ++ rest))
        by apply skip_ws_line.
      rewrite Hset, IH;
        [| assumption | cbn [members_cost fold_right snd]; lia | assumption |].
      * now rewrite <- app_assoc.
      * now rewrite <- app_assoc.
    + cbn [object_tail]. rewrite <- !app_assoc. reflexivity.
Qed.

(** Every well-formed value is read back from its text. *)
Lemma parse_stringify v : well_formed v -> reads_back v.
Proof.
  induction v as [| b | z | s | l IH | ps IH] using json_ind;
    intros Hwf ind fuel rest Hfuel Hrest;
    (destruct fuel as [|fuel]; [simpl in Hfuel; lia|]).
  - reflexivity.
  - destruct b; reflexivity.
  - simpl in Hwf. destruct z as [|p|p].
    + transitivity (parse_number (digits 0 ++ rest)); [reflexivity|].
      apply (parse_number_digits 0 rest); [discriminate | assumption].
    + transitivity (parse_number (digits (Npos p) ++ rest)).
      * change (stringify ind (JNumber (Zpos p))) with (digits (Npos p)).
        destruct (digits_head (Npos p)) as (c & r & E & Hc). rewrite E.
        clear E. unfold is_digit, code in Hc.
        destruct c as [[] [] [] [] [] [] [] []]; try discriminate Hc;
          reflexivity.
      * apply (parse_number_digits (Npos p) rest);
          [unfold MAX_SAFE_INTEGER in *; lia | assumption].
    + transitivity (parse_number ("-"%char :: digits (Npos p) ++ rest));
        [reflexivity|].
      apply (parse_number_negative p rest);
        [unfold MAX_SAFE_INTEGER in *; lia | assumption].
  - change (stringify ind (JString s)) with (quote s). rewrite quote_app.
    cbn [parse_value skip_ws]. change (json_ws DQUOTE) with false. cbv iota.
    change (Ascii.eqb DQUOTE "{") with false.
    change (Ascii.eqb DQUOTE "[") with false.
    change (Ascii.eqb DQUOTE DQUOTE) with true. cbv iota.
    now rewrite parse_string_quote.
  - destruct l as [|x l]; [reflexivity|].
    apply well_formed_array in Hwf.
    rewrite cost_array in Hfuel.
    rewrite stringify_array. rewrite <- !app_assoc.
    destruct (skip_ws_stringify (2 + ind) x (array_tail ind l ++ rest))
      as (c & r & Hs & Hc).
    cbn [str list_ascii_of_string app].
    rewrite (parse_value_array fuel _ c r);
      [| change (LF :: ?s) with ([LF] ++ s); now rewrite skip_ws_line | exact Hc].
    rewrite (parse_elements_ws _ _ _
               (stringify (2 + ind) x ++ array_tail ind l ++ rest))
      by (change (LF :: ?s) with ([LF] ++ s); apply skip_ws_line).
    apply (parse_elements_tail ind l x []); [| lia | assumption].
    rewrite Forall_forall in IH, Hwf. apply Forall_forall.
    intros v Hv. now apply IH, Hwf.
  - destruct ps as [|[k x] ps]; [reflexivity|].
    apply well_formed_object in Hwf. destruct Hwf as [Hord Hwf].
    rewrite cost_object in Hfuel.
    rewrite stringify_object. rewrite <- !app_assoc.
    cbn [str list_ascii_of_string app].
    set (body := quote k ++ ":"%char :: " "%char
                   :: stringify (2 + ind) x ++ object_tail ind ps ++ rest).
    assert (Hs : skip_ws (LF :: spaces (2 + ind) ++ body)
                 = DQUOTE :: flat_map escape k
                     ++ DQUOTE :: ":"%char :: " "%char
                     :: stringify (2 + ind) x ++ object_tail ind ps ++ rest).
    { change (LF :: ?s) with ([LF] ++ s). rewrite skip_ws_line.
      unfold body. rewrite quote_app. reflexivity. }
    rewrite (parse_value_object fuel _ _ _ Hs eq_refl).
    rewrite (parse_members_ws _ _ _ body)
      by (change (LF :: ?s) with ([LF] ++ s); apply skip_ws_line).
    unfold body.
    change (":"%char :: " "%char :: ?s) with (str ": " ++ s).
    apply (parse_members_tail ind ps k x []); [| lia | assumption | exact Hord].
    rewrite Forall_forall in IH, Hwf. apply Forall_forall.
    intros v Hv. now apply IH, Hwf.
Qed.

(** The fuel of [JSON_parse] covers the nesting of any text that
    [JSON.stringify] writes. *)
Lemma length_spaces n : length (spaces n) = n.
Proof. apply repeat_length. Qed.

Lemma elements_cost_length ind l :
  Forall (fun x => forall ind, cost x <= length (stringify ind x)) l ->
  elements_cost l <= length (array_tail ind l).
Proof.
  induction 1 as [|x l Hx _ IH]; cbn [elements_cost fold_right array_tail].
  - lia.
  - specialize (Hx (2 + ind)). unfold elements_cost in IH.
    rewrite !length_app. cbn [length str list_ascii_of_string]. lia.
Qed.

Lemma members_cost_length ind ps :
  Forall (fun kx => forall ind, cost (snd kx) <= length (stringify ind (snd kx))) ps ->
  members_cost ps <= length (object_tail ind ps).
Proof.
  induction 1 as [|[k x] ps Hx _ IH]; cbn [members_cost fold_right object_tail snd].
  - lia.
  - specialize (Hx (2 + ind)). cbn [snd] in Hx. unfold members_cost in IH.
    rewrite !length_app. cbn [length str list_ascii_of_string]. lia.
Qed.

Lemma cost_length v : forall ind, cost v <= length (stringify ind v).
Proof.
  induction v as [| b | z | s | l IH | ps IH] using json_ind; intros ind.
  - simpl. lia.
  - destruct b; simpl; lia.
  - destruct z as [|p|p].
    + simpl. lia.
    + change (stringify ind (JNumber (Zpos p))) with (digits (Npos p)).
      destruct (digits_head (Npos p)) as (c & r & -> & _). simpl. lia.
    + simpl. lia.
  - simpl. lia.
  - destruct l as [|x l]; [simpl; lia|].
    rewrite cost_array, stringify_array.
    inversion_clear IH as [|? ? Hx Hl].
    pose proof (elements_cost_length ind l Hl). specialize (Hx (2 + ind)).
    cbn [elements_cost fold_right]. unfold elements_cost in *.
    rewrite !length_app. cbn [length str list_ascii_of_string]. lia.
  - destruct ps as [|[k x] ps]; [simpl; lia|].
    rewrite cost_object, stringify_object.
    inversion_clear IH as [|? ? Hx Hl].
    pose proof (members_cost_length ind ps Hl). specialize (Hx (2 + ind)).
    cbn [snd] in Hx.
    cbn [members_cost fold_right snd]. unfold members_cost in *.
    rewrite !length_app. cbn [length str list_ascii_of_string]. lia.
Qed.

(** [JSON.parse(JSON.stringify(v, null, 2))] is [v], with or without a line
    feed at the end of the text. *)
Lemma JSON_parse_stringify v (eof : bool) :
  well_formed v ->
  JSON_parse (JSON_stringify2 v ++ if eof then [LF] else []) = Ret v.
Proof.
  intros Hwf. unfold JSON_parse, JSON_stringify2.
  rewrite (parse_stringify v Hwf 0).
  - destruct eof; reflexivity.
  - pose proof (cost_length v 0). rewrite length_app. lia.
  - destruct eof; simpl; auto.
Qed.

(** ** What [JSON.parse] returns is well formed *)

Lemma values_set (Q : json -> Prop) k x ps :
  Forall (fun kx => Q (snd kx)) ps -> Q x ->
  Forall (fun kx => Q (snd kx)) (set k x ps).
Proof.
  intros Hps Hx. unfold set. destruct (get k ps).
  - induction Hps as [|[k' y] ps Hy Hps IH]; simpl; [constructor|].
    destruct (jsstring_eqb k k'); constructor; simpl; assumption.
  - destruct (array_index k) as [n|].
    + induction Hps as [|[k' y] ps Hy Hps IH]; simpl; [now repeat constructor|].
      destruct (array_index k') as [n'|]; [destruct (n' <? n)%N|];
        repeat (constructor; simpl; try assumption).
    + apply Forall_app. split; [assumption | now repeat constructor].
Qed.

Lemma well_formed_set k x acc :
  well_formed (JObject acc) -> well_formed x ->
  well_formed (JObject (set k x acc)).
Proof.
  rewrite !well_formed_object. intros [Ho Hv] Hx. split.
  - now apply ordered_set.
  - now apply values_set.
Qed.

Lemma parse_digits_well_formed neg s v r :
  parse_digits neg s = Ret (v, r) -> well_formed v.
Proof.
  unfold parse_digits. destruct (scan_uint s) as [d r0].
  remember (N.of_uint d) as n eqn:En. clear En.
  destruct d; try discriminate;
    repeat match goal with
           | |- (if ?c then _ else _) = _ -> _ =>
               destruct c eqn:?; try discriminate
           end;
    intros [= <- <-]; cbn [well_formed];
    match goal with
    | H : (MAX_SAFE_INTEGER <? _)%N = false |- _ => apply N.ltb_ge in H
    end;
    unfold MAX_SAFE_INTEGER in *; destruct neg; lia.
Qed.

Lemma parse_number_well_formed s v r :
  parse_number s = Ret (v, r) -> well_formed v.
Proof.
  unfold parse_number. destruct s as [|c s'].
  - apply parse_digits_well_formed.
  - destruct (Ascii.eqb c "-"); apply parse_digits_well_formed.
Qed.

Lemma parse_literal_well_formed lit v0 s v r :
  well_formed v0 -> parse_literal lit v0 s = Ret (v, r) -> well_formed v.
Proof.
  intros H. unfold parse_literal. destruct (startsWith lit s); [|discriminate].
  now intros [= <- <-].
Qed.

Lemma parse_well_formed fuel :
  (forall s v r, parse_value fuel s = Ret (v, r) -> well_formed v)
  /\ (forall acc s v r,
         Forall well_formed acc ->
         parse_elements fuel acc s = Ret (v, r) -> well_formed v)
  /\ (forall acc s v r,
         well_formed (JObject acc) ->
         parse_members fuel acc s = Ret (v, r) -> well_formed v).
Proof.
  induction fuel as [|fuel (IHv & IHe & IHm)];
    [repeat split; intros; discriminate|].
  repeat split.
  - intros s v r. cbn [parse_value].
    destruct (skip_ws s) as [|c r0]; [discriminate|].
    destruct (Ascii.eqb c "{").
    { destruct (skip_ws r0) as [|c' r']; [discriminate|].
      destruct (Ascii.eqb c' "}"); [now intros [= <- <-]|].
      apply IHm. simpl. auto. }
    destruct (Ascii.eqb c "[").
    { destruct (skip_ws r0) as [|c' r']; [discriminate|].
      destruct (Ascii.eqb c' "]"); [now intros [= <- <-]|].
      apply IHe. constructor. }
    destruct (Ascii.eqb c DQUOTE).
    { destruct (parse_string r0) as [[t r']| |]; try discriminate.
      now intros [= <- <-]. }
    destruct (Ascii.eqb c "t"); [now apply parse_literal_well_formed|].
    destruct (Ascii.eqb c "f"); [now apply parse_literal_well_formed|].
    destruct (Ascii.eqb c "n"); [now apply parse_literal_well_formed|].
    destruct (Ascii.eqb c "-" || is_digit c); [|discriminate].
    apply parse_number_well_formed.
  - intros acc s v r Hacc. cbn [parse_elements].
    destruct (parse_value fuel s) as [[x r1]| |] eqn:E; try discriminate.
    apply IHv in E. cbn [obind fst snd].
    destruct (skip_ws r1) as [|c r2]; [discriminate|].
    destruct (Ascii.eqb c ","); [apply IHe; now constructor|].
    destruct (Ascii.eqb c "]"); [|discriminate].
    intros [= <- <-]. apply well_formed_array. cbn [rev].
    apply Forall_app. split; [now apply Forall_rev | now repeat constructor].
  - intros acc s v r Hacc. cbn [parse_members].
    destruct (skip_ws s) as [|q r0]; [discriminate|].
    destruct (Ascii.eqb q DQUOTE); [|discriminate].
    destruct (parse_string r0) as [[k r1]| |]; try discriminate.
    cbn [obind fst snd].
    destruct (skip_ws r1) as [|c r2]; [discriminate|].
    destruct (Ascii.eqb c ":"); [|discriminate].
    destruct (parse_value fuel r2) as [[x r3]| |] eqn:E; try discriminate.
    apply IHv in E. cbn [obind fst snd].
    destruct (skip_ws r3) as [|c' r4]; [discriminate|].
    destruct (Ascii.eqb c' ","); [apply IHm; now apply well_formed_set|].
    destruct (Ascii.eqb c' "}"); [|discriminate].
    intros [= <- <-]. now apply well_formed_set.
Qed.

Lemma JSON_parse_well_formed text v : JSON_parse text = Ret v -> well_formed v.
Proof.
  unfold JSON_parse.
  destruct (parse_value _ text) as [[x r]| |] eqn:E; try discriminate.
  cbn [obind fst snd]. destruct (skip_ws r); [|discriminate].
  intros [= <-]. exact (proj1 (parse_well_formed _) _ _ _ E).
Qed.

(** ** Assigning a property *)

Lemma get_cons k k' v ps :
  get k ((k', v) :: ps) = if jsstring_eqb k k' then Some v else get k ps.
Proof. reflexivity. Qed.

Lemma get_replace_value k k' v ps :
  get k' (replace_value k v ps)
  = if jsstring_eqb k' k
    then match get k ps with Some _ => Some v | None => None end
    else get k' ps.
Proof.
  induction ps as [|[k0 v0] ps IH]; simpl.
  - now destruct (jsstring_eqb k' k).
  - destruct (jsstring_eqb k k0) eqn:E.
    + apply jsstring_eqb_eq in E. subst k0. simpl.
      now destruct (jsstring_eqb k' k).
    + simpl. rewrite IH. destruct (jsstring_eqb k' k) eqn:E'; [|reflexivity].
      apply jsstring_eqb_eq in E'. subst k'. now rewrite E.
Qed.

Lemma get_insert_index n k k' v ps :
  get k ps = None ->
  get k' (insert_index n k v ps)
  = if jsstring_eqb k' k then Some v else get k' ps.
Proof.
  induction ps as [|[k0 v0] ps IH]; intros Hk; simpl; [reflexivity|].
  simpl in Hk. destruct (jsstring_eqb k k0) eqn:E; [discriminate|].
  destruct (array_index k0) as [n0|]; [destruct (n0 <? n)%N|];
    try reflexivity.
  simpl. rewrite (IH Hk). destruct (jsstring_eqb k' k) eqn:E'; [|reflexivity].
  apply jsstring_eqb_eq in E'. subst k'. now rewrite E.
Qed.

Lemma get_app_last k k' v ps :
  get k ps = None ->
  get k' (ps ++ [(k, v)]) = if jsstring_eqb k' k then Some v else get k' ps.
Proof.
  induction ps as [|[k0 v0] ps IH]; intros Hk; simpl; [reflexivity|].
  simpl in Hk. destruct (jsstring_eqb k k0) eqn:E; [discriminate|].
  rewrite (IH Hk). destruct (jsstring_eqb k' k) eqn:E'; [|reflexivity].
  apply jsstring_eqb_eq in E'. subst k'. now rewrite E.
Qed.

(** After [o[k] = v], the property [k] is [v] and every other property is
    what it was. *)
Lemma get_set k k' v ps :
  get k' (set k v ps) = if jsstring_eqb k' k then Some v else get k' ps.
Proof.
  unfold set. destruct (get k ps) eqn:Hk.
  - rewrite get_replace_value, Hk. reflexivity.
  - destruct (array_index k) as [n|].
    + now apply get_insert_index.
    + now apply get_app_last.
Qed.

Lemma keys_set k v ps k' :
  In k' (map fst (set k v ps)) -> k' = k \/ In k' (map fst ps).
Proof.
  intros Hin. destruct (jsstring_eqb k' k) eqn:E.
  - left. now apply jsstring_eqb_eq.
  - right. destruct (get k' ps) eqn:Hg.
    + destruct (In_dec (list_eq_dec ascii_dec) k' (map fst ps)) as [H|H];
        [exact H|]. apply get_None in H. congruence.
    + assert (Hs : get k' (set k v ps) = None) by (now rewrite get_set, E).
      apply get_None in Hs. contradiction.
Qed.


(** The text of an object ends with a brace. *)
Lemma object_tail_last ind ps : exists s, object_tail ind ps = s ++ ["}"%char].
Proof.
  induction ps as [|[k x] ps (s & IH)].
  - exists ([LF] ++ spaces ind). cbn [object_tail]. now rewrite <- app_assoc.
  - cbn [object_tail]. rewrite IH.
    exists (str "," ++ [LF] ++ spaces (2 + ind) ++ quote k ++ str ": "
              ++ stringify (2 + ind) x ++ s).
    now rewrite <- !app_assoc.
Qed.

Lemma stringify_object_last ind ps :
  exists s, stringify ind (JObject ps) = s ++ ["}"%char].
Proof.
  destruct ps as [|[k x] ps]; [now exists (str "{")|].
  rewrite stringify_object. destruct (object_tail_last ind ps) as (s & ->).
  exists (str "{" ++ [LF] ++ spaces (2 + ind) ++ quote k ++ str ": "
            ++ stringify (2 + ind) x ++ s).
  now rewrite <- !app_assoc.
Qed.

Lemma endsWith_LF_object ps (eof : bool) :
  endsWith [LF] (JSON_stringify2 (JObject ps) ++ if eof then [LF] else []) = eof.
Proof.
  unfold JSON_stringify2. destruct eof.
  - unfold endsWith. rewrite rev_app_distr. reflexivity.
  - rewrite app_nil_r. destruct (stringify_object_last 0 ps) as (s & ->).
    now apply (endsWith_mismatch []).
Qed.

(** ** [updateVersion] *)

Lemma nth_error_update_nth_eq {A} (l : list A) n x y :
  nth_error l n = Some x -> nth_error (update_nth n y l) n = Some y.
Proof.
  revert n. induction l as [|a l IH]; intros [|n] H; try discriminate;
    simpl in *; [reflexivity | now apply IH].
Qed.

Lemma nth_error_update_nth_neq {A} (l : list A) n m y :
  m <> n -> nth_error (update_nth n y l) m = nth_error l m.
Proof.
  revert n m. induction l as [|a l IH]; intros [|n] [|m] H; simpl;
    try reflexivity; [congruence | apply IH; congruence].
Qed.

(** Where [cwd] finds the directory of a workspace. *)
Lemma cwd_inv P st this o folder :
  nth_error (heap st) this = Some o ->
  GradleWorkspace.cwd P this st = (st, Ret folder) ->
  (exists f, asProject o = Some f /\ folder = _cwd f)
  \/ (exists p po f,
         asProject o = None /\ _project o = Some p
         /\ nth_error (heap st) p = Some po /\ asProject po = Some f
         /\ folder = path_join P (_cwd f) (relativeCwd o)).
Proof.
  intros Ho. unfold GradleWorkspace.cwd. unfold bind at 1.
  rewrite (deref_eq _ _ _ Ho).
  destruct (asProject o) as [f|] eqn:Hf.
  - intros [= <-]. left. now exists f.
  - unfold bind, GradleWorkspace.projectFields, bind, GradleWorkspace.project, bind.
    rewrite (deref_eq _ _ _ Ho), Hf.
    destruct (_project o) as [p|] eqn:Hp; [|discriminate].
    unfold ret, deref.
    destruct (nth_error (heap st) p) as [po|] eqn:Hpo; [|discriminate].
    destruct (asProject po) as [f|] eqn:Hpf; [|discriminate].
    intros [= <-]. right. now exists p, po, f.
Qed.

Lemma cwd_after_store P st this o o' folder :
  nth_error (heap st) this = Some o ->
  GradleWorkspace.cwd P this st = (st, Ret folder) ->
  _project o' = _project o -> relativeCwd o' = relativeCwd o ->
  asProject o' = asProject o ->
  GradleWorkspace.cwd P this
    {| files := files st; heap := update_nth this o' (heap st) |}
  = ({| files := files st; heap := update_nth this o' (heap st) |}, Ret folder).
Proof.
  intros Ho Hcwd Hp Hr Ha.
  pose proof (nth_error_update_nth_eq _ _ _ o' Ho) as Ho'.
  destruct (cwd_inv _ _ _ _ _ Ho Hcwd)
    as [(f & Hf & ->)|(p & po & f & Hf & Hpr & Hpo & Hpf & ->)].
  - apply (cwd_of_project P _ this o'); [exact Ho' | congruence].
  - rewrite <- Hr.
    apply (cwd_of_workspace P _ this o'); [exact Ho' | congruence |].
    assert (Hne : p <> this) by (intros ->; congruence).
    apply (projectFields_eq _ this p po).
    + apply (project_of_workspace _ this o'); [exact Ho' | congruence | congruence].
    + simpl. now rewrite nth_error_update_nth_neq.
    + exact Hpf.
Qed.

Lemma load_outcome_loaded P folder fs c :
  load_outcome P folder fs = Ret (Some c) ->
  exists text props,
    fs (path_join P folder GRADLE_MANIFEST_NAME) = Some text
    /\ JSON_parse text = Ret (manifest c)
    /\ manifest c = JObject props
    /\ isGradleBuildFile (JObject props) = true
    /\ well_formed (JObject props)
    /\ eofInEnd c = endsWith [LF] text.
Proof.
  intros H. pose proof (load_outcome_valid _ _ _ _ H) as Hv.
  unfold load_outcome in H. destruct (fs _) as [text|]; [|discriminate].
  destruct (JSON_parse text) as [content| |] eqn:Hp; try discriminate.
  destruct (isGradleBuildFile content); [|discriminate].
  injection H as <-. simpl in *.
  destruct content as [| | | | |props]; try discriminate.
  exists text, props.
  pose proof (JSON_parse_well_formed _ _ Hp) as Hwf.
  split; [reflexivity|]. split; [exact Hp|]. split; [reflexivity|].
  split; [exact Hv|]. split; [exact Hwf | reflexivity].
Qed.

Lemma with_line_feed (eof : bool) (s : jsstring) :
  (if eof then s ++ [LF] else s) = s ++ (if eof then [LF] else []).
Proof. destruct eof; [reflexivity | now rewrite app_nil_r]. Qed.

Lemma valid_object m :
  isGradleBuildFile m = true -> exists props, m = JObject props.
Proof. destruct m as [| | | | |props]; try discriminate. now exists props. Qed.



(** A manifest with a number that is written with an exponent is outside
    the values of this model, and outside the statement above. *)
Example number_with_exponent_is_unmodelled :
  JSON_parse (text "{'name':'b','weight':1e999}") = Unmodelled.
Proof. vm_compute. reflexivity. Qed.


Example updateVersion_text :
  files (fst (GradleWorkspace.updateVersion
                (posix packages_a_b) 1 (str "1.1.0") initialized))
        (str "/repo/packages/b/build.gradle")
  = Some (text "{" ++ [LF] ++ text "  'name': 'b'," ++ [LF]
            ++ text "  'version': '1.1.0'" ++ [LF] ++ text "}" ++ [LF]).
Proof. vm_compute. reflexivity. Qed.

(** ** The manifest is JSON *)

(** C8: the loader reads the file [build.gradle] of the folder and takes
    it for JSON.  A text that [JSON.parse] rejects is not accepted: the
    SyntaxError goes through the loader.  A text that is JSON and fits the
    schema is accepted: the manifest is the value [JSON.parse] gives for
    it; one that is JSON and does not fit the schema gives [null].  So the
    manifest of an accepted file is always what [JSON.parse] makes of its
    text.  The writer puts the text that [JSON.stringify] gives for the
    manifest into the same file, and that text parses back to the
    manifest. *)
Theorem build_gradle_is_JSON P folder st text :
  files st (path_join P folder (str "build.gradle")) = Some text ->
  (JSON_parse text = Throw SyntaxError ->
   loadGradleBuildFile P folder st = (st, Throw SyntaxError))
  /\ (forall content,
         JSON_parse text = Ret content -> isGradleBuildFile content = true ->
         loadGradleBuildFile P folder st
         = (st, Ret (Some {| manifest := content;
                             eofInEnd := endsWith [LF] text |})))
  /\ (forall content,
         JSON_parse text = Ret content -> isGradleBuildFile content = false ->
         loadGradleBuildFile P folder st = (st, Ret None))
  /\ (forall c,
         loadGradleBuildFile P folder st = (st, Ret (Some c)) ->
         JSON_parse text = Ret (manifest c)
         /\ isGradleBuildFile (manifest c) = true)
  /\ (forall c,
         well_formed (manifest c) ->
         exists st' text',
           persistGradleBuildFile P folder c st = (st', Ret tt)
           /\ files st' (path_join P folder (str "build.gradle")) = Some text'
           /\ text' = (if eofInEnd c then JSON_stringify2 (manifest c) ++ [LF]
                       else JSON_stringify2 (manifest c))
           /\ JSON_parse text' = Ret (manifest c)).
Proof.
  intros Hfile. change (str "build.gradle") with GRADLE_MANIFEST_NAME in *.
  split; [|split; [|split; [|split]]].
  - intros Hparse. rewrite loadGradleBuildFile_eq. unfold load_outcome.
    now rewrite Hfile, Hparse.
  - intros content Hparse Hvalid. rewrite loadGradleBuildFile_eq.
    unfold load_outcome. now rewrite Hfile, Hparse, Hvalid.
  - intros content Hparse Hvalid. rewrite loadGradleBuildFile_eq.
    unfold load_outcome. now rewrite Hfile, Hparse, Hvalid.
  - intros c H. rewrite loadGradleBuildFile_eq in H. injection H as H. split.
    + unfold load_outcome in H. rewrite Hfile in H.
      destruct (JSON_parse text) as [content| |]; try discriminate.
      destruct (isGradleBuildFile content); [|discriminate].
      now injection H as <-.
    + exact (load_outcome_valid _ _ _ _ H).
  - intros c Hwf. eexists. eexists. split; [reflexivity|].
    cbn [files]. rewrite jsstring_eqb_refl. split; [reflexivity|].
    split; [reflexivity|].
    rewrite with_line_feed. now apply JSON_parse_stringify.
Qed.

(** The manifest of package [b] of the sample repository is accepted, and
    what the writer puts in its place parses back to it. *)
Lemma build_gradle_is_JSON_witness :
  loadGradleBuildFile (posix []) (str "/repo/packages/b") sample
  = (sample,
     Ret (Some {| manifest := JObject [(str "name", JString (str "b"));
                                       (str "version", JString (str "1.0.0"))];
                  eofInEnd := true |}))
  /\ exists st' text',
       persistGradleBuildFile (posix []) (str "/repo/packages/b")
         {| manifest := JObject [(str "name", JString (str "b"));
                                 (str "version", JString (str "1.0.0"))];
            eofInEnd := true |} sample
       = (st', Ret tt)
       /\ files st' (str "/repo/packages/b/build.gradle") = Some text'
       /\ JSON_parse text'
          = Ret (JObject [(str "name", JString (str "b"));
                          (str "version", JString (str "1.0.0"))]).
Proof.
  destruct (build_gradle_is_JSON (posix []) (str "/repo/packages/b") sample
              (text "{'name':'b','version':'1.0.0'}" ++ [LF]) eq_refl)
    as (_ & Haccepted & _ & _ & Hwriter).
  split.
  - apply (Haccepted (JObject [(str "name", JString (str "b"));
                               (str "version", JString (str "1.0.0"))]));
      vm_compute; reflexivity.
  - destruct (Hwriter
                {| manifest := JObject [(str "name", JString (str "b"));
                                        (str "version", JString (str "1.0.0"))];
                   eofInEnd := true |})
      as (st' & text' & Hp & Hf & _ & Hparse).
    + apply (JSON_parse_well_formed (text "{'name':'b','version':'1.0.0'}" ++ [LF])).
      vm_compute. reflexivity.
    + exists st', text'. split; [exact Hp|]. split; [exact Hf | exact Hparse].
Defined.

(** A build script in gradle's own syntax is not JSON: the loader raises
    the SyntaxError, and so does [initialize]. *)
Example gradle_script_is_not_loaded :
  loadGradleBuildFile (posix []) (str "/app") {| files := groovy_files; heap := [] |}
  = ({| files := groovy_files; heap := [] |}, Throw SyntaxError).
Proof. vm_compute. reflexivity. Qed.

Example gradle_script_is_rejected :
  JSON_parse (str "plugins { id 'java' }" ++ [LF]) = Throw SyntaxError
  /\ snd (GradleProject.initialize (posix []) (locked "/app")
                                   {| files := groovy_files; heap := [] |})
     = Throw SyntaxError.
Proof. split; vm_compute; reflexivity. Qed.

(** Every workspace of an initialized project holds the manifest that its
    file gives. *)
Lemma initialized_loaded P init st st' p ws w :
  GradleProject.initialize P init st = (st', Ret (Some p)) ->
  GradleProject.workspaces p st' = (st', Ret ws) ->
  In w ws ->
  exists o folder,
    nth_error (heap st') w = Some o
    /\ GradleWorkspace.cwd P w st' = (st', Ret folder)
    /\ load_outcome P folder (files st') = Ret (Some (manifestContent o)).
Proof.
  intros H Hws Hin.
  destruct (initialize_heap _ _ _ _ _ H) as (_ & _ & _ & _ & Hf & _).
  destruct (initialize_members _ _ _ _ _ H) as (c & cs & Hl & Hcs & Hp & Hm).
  unfold GradleProject.workspaces, bind in Hws.
  rewrite (deref_eq _ _ _ Hp) in Hws. injection Hws as <-.
  rewrite Hf. destruct Hin as [<-|Hin].
  - exists (projectInstance p init c (seq (S p) (length cs))), (cwd init).
    split; [exact Hp|]. split; [|exact Hl].
    exact (cwd_of_project P _ _ _ _ Hp eq_refl).
  - destruct (map_Some_In _ _ _ _ Hm Hin) as (o & Ho & Ho').
    rewrite Hcs in Ho'. apply children_spec in Ho'.
    destruct Ho' as (Hpr & Has & _ & Hload).
    exists o, (path_join P (cwd init) (relativeCwd o)).
    split; [exact Ho|]. split; [|exact Hload].
    apply (cwd_of_workspace P _ _ _
             {| _cwd := cwd init; _config := init;
                childWorkspaces := seq (S p) (length cs) |} Ho Has).
    apply (projectFields_eq _ _ p _ _ (project_of_workspace _ _ _ _ Ho Has Hpr) Hp).
    reflexivity.
Qed.

(** Every workspace of an initialized project meets what the theorem on
    [updateVersion] and the reload asks for: its manifest file exists, and
    its manifest fits the schema and is a value of this model. *)
Lemma initialized_updatable P init st st' p ws w :
  GradleProject.initialize P init st = (st', Ret (Some p)) ->
  GradleProject.workspaces p st' = (st', Ret ws) ->
  In w ws ->
  exists o folder present,
    nth_error (heap st') w = Some o
    /\ GradleWorkspace.cwd P w st' = (st', Ret folder)
    /\ files st' (path_join P folder GRADLE_MANIFEST_NAME) = Some present
    /\ isGradleBuildFile (manifestOf o) = true
    /\ well_formed (manifestOf o).
Proof.
  intros H Hws Hin.
  destruct (initialized_loaded _ _ _ _ _ _ _ H Hws Hin)
    as (o & folder & Ho & Hcwd & Hload).
  destruct (load_outcome_loaded _ _ _ _ Hload)
    as (present & props & Hf & _ & Hm & Hvalid & Hwf & _).
  exists o, folder, present. unfold manifestOf. rewrite Hm.
  split; [exact Ho|]. split; [exact Hcwd|]. split; [exact Hf|].
  split; [exact Hvalid | exact Hwf].
Qed.

(* ===================================================================== *)
(** * Further properties of [core/git.ts]                                 *)
(* ===================================================================== *)

(** ** What [gitExec] returns *)

Lemma trimEnd_app_nonws s c r :
  isWhiteSpace c = false -> trimEnd (s ++ c :: r) = s ++ c :: trimEnd r.
Proof.
  intros Hc. unfold trimEnd. rewrite rev_app_distr. simpl rev.
  rewrite <- app_assoc. simpl app.
  rewrite (trimStart_app (rev r) c (rev s) Hc), rev_app_distr. simpl rev.
  now rewrite rev_involutive, <- app_assoc.
Qed.

Lemma trimEnd_app_ws s w :
  isWhiteSpace w = true -> trimEnd (s ++ [w]) = trimEnd s.
Proof.
  intros Hw. unfold trimEnd. rewrite rev_app_distr. simpl. now rewrite Hw.
Qed.

Lemma trimStart_head s :
  trimStart s = [] \/ exists c r, trimStart s = c :: r /\ isWhiteSpace c = false.
Proof.
  induction s as [|c s IH]; [now left|]. simpl.
  destruct (isWhiteSpace c) eqn:E; [exact IH|]. right. now exists c, s.
Qed.

Lemma trimEnd_idempotent s : trimEnd (trimEnd s) = trimEnd s.
Proof. unfold trimEnd. now rewrite rev_involutive, trimStart_idempotent. Qed.

Lemma trim_idempotent s : trim (trim s) = trim s.
Proof.
  unfold trim. destruct (trimStart_head s) as [E|(c & r & E & Hc)]; rewrite E.
  - reflexivity.
  - pose proof (trimEnd_app_nonws [] c r Hc) as H1.
    pose proof (trimEnd_app_nonws [] c (trimEnd r) Hc) as H2.
    cbn [app] in H1, H2. rewrite H1. cbn [trimStart]. rewrite Hc, H2.
    now rewrite trimEnd_idempotent.
Qed.

Lemma trim_app_ws s w : isWhiteSpace w = true -> trim (s ++ [w]) = trim s.
Proof.
  intros Hw. induction s as [|c s IH].
  - unfold trim. simpl. now rewrite Hw.
  - unfold trim in *. simpl. destruct (isWhiteSpace c) eqn:E; [exact IH|].
    change (c :: s ++ [w]) with ((c :: s) ++ [w]). now apply trimEnd_app_ws.
Qed.

Lemma trim_trimEnd s : trim s = s -> trimEnd s = s.
Proof.
  intros H. rewrite <- H at 1. unfold trim. rewrite trimEnd_idempotent. exact H.
Qed.

Lemma gitExec_succeeded git args cwd :
  succeeded (git args cwd) ->
  gitExec git args cwd
  = ([], Ret (trim (replaceAtEnd gitExec_regex (stdout (git args cwd))))).
Proof. intros [He Hx]. now apply gitExec_success. Qed.

(** The alternatives of the expression of [gitExec] end with a backslash
    or with the letter n: after a character that is neither, none matches. *)
Lemma gitExec_regex_other s c :
  c <> BSLASH -> c <> "n"%char ->
  replaceAtEnd gitExec_regex (s ++ [c]) = s ++ [c].
Proof.
  intros Hb Hn. apply replaceAtEnd_none.
  repeat constructor;
    match goal with
    | |- endsWith ?p _ = false =>
        change p with (removelast p ++ [last p " "%char])
    end; apply endsWith_mismatch; intros <-;
    first [now apply Hb | now apply Hn].
Qed.

Lemma isWhiteSpace_other c :
  isWhiteSpace c = true -> c <> BSLASH /\ c <> "n"%char.
Proof. intros H. split; intros ->; discriminate H. Qed.

Lemma gitExec_Ret_trimmed git args cwd out s :
  gitExec git args cwd = (out, Ret s) -> out = [] /\ trim s = s.
Proof.
  unfold gitExec. destruct (error (git args cwd)); [discriminate|].
  destruct (exitCode (git args cwd)) as [[| |]|]; try discriminate.
  intros [= <- <-]. split; [reflexivity | apply trim_idempotent].
Qed.

(** What [gitExec] returns has no white space at either end, and a run
    that returns has written nothing to the console. *)
Theorem gitExec_result_trimmed git args cwd out s :
  gitExec git args cwd = (out, Ret s) -> out = [] /\ trim s = s.
Proof.
  unfold gitExec. destruct (error (git args cwd)) as [e|]; [discriminate|].
  destruct (exitCode (git args cwd)) as [[|p|p]|]; try discriminate.
  intros H. injection H as <- <-.
  split; [reflexivity|]. apply trim_idempotent.
Qed.

Lemma gitExec_result_trimmed_witness :
  ([] : list jsstring) = [] /\ trim (str "main") = str "main".
Proof.
  apply (gitExec_result_trimmed (prints (str "  main" ++ [CR; LF])) [str "branch"]
                                None [] (str "main")).
  vm_compute. reflexivity.
Defined.

Lemma gitExec_white_space_end git args cwd s w :
  succeeded (git args cwd) ->
  stdout (git args cwd) = s ++ [w] -> isWhiteSpace w = true ->
  gitExec git args cwd = ([], Ret (trim s)).
Proof.
  intros Hok Hout Hw. rewrite (gitExec_succeeded _ _ _ Hok), Hout.
  destruct (isWhiteSpace_other _ Hw) as [Hb Hn].
  now rewrite (gitExec_regex_other _ _ Hb Hn), (trim_app_ws _ _ Hw).
Qed.

(** A successful run whose output ends with a white space character (a
    line feed, as git prints it) returns the output trimmed: the
    expression of [gitExec] removes nothing from it. *)
Theorem gitExec_line git args cwd s w :
  succeeded (git args cwd) ->
  stdout (git args cwd) = s ++ [w] -> isWhiteSpace w = true ->
  gitExec git args cwd = ([], Ret (trim s)).
Proof.
  intros [Herr Hexit] Hout Hw.
  rewrite (gitExec_success _ _ _ Herr Hexit), Hout.
  destruct (isWhiteSpace_other _ Hw) as [Hb Hn].
  rewrite (gitExec_regex_other _ _ Hb Hn).
  now rewrite (trim_app_ws _ _ Hw).
Qed.

Lemma gitExec_line_witness :
  gitExec (answers [([str "rev-parse"; str "HEAD"], HEAD)])
          [str "rev-parse"; str "HEAD"] None
  = ([], Ret (trim HEAD)).
Proof.
  apply (gitExec_line _ _ _ HEAD LF).
  - split; reflexivity.
  - reflexivity.
  - reflexivity.
Defined.

(** The expression of [gitExec], written [/\\r?\\n?$/], matches backslashes
    and letters, not line terminators: two backslashes at the end of the
    output are removed. *)
Theorem gitExec_trailing_backslashes git args cwd x :
  succeeded (git args cwd) ->
  stdout (git args cwd) = x ++ [BSLASH; BSLASH] ->
  gitExec git args cwd = ([], Ret (trim x)).
Proof.
  intros Hok Hout. rewrite (gitExec_succeeded _ _ _ Hok), Hout.
  do 2 f_equal. f_equal. cbv [gitExec_regex replaceAtEnd].
  assert (H : forall p c, c <> BSLASH ->
                          dropSuffix (p ++ [c]) (x ++ [BSLASH; BSLASH]) = None).
  { intros p c Hc. unfold dropSuffix.
    change (x ++ [BSLASH; BSLASH]) with (x ++ [BSLASH] ++ [BSLASH]).
    rewrite app_assoc, endsWith_mismatch; [reflexivity | exact Hc]. }
  assert (H' : dropSuffix (str "\r\") (x ++ [BSLASH; BSLASH]) = None).
  { unfold dropSuffix, endsWith. rewrite rev_app_distr. reflexivity. }
  change (str "\r\n") with (str "\r\" ++ ["n"%char]).
  change (str "\\n") with (str "\\" ++ ["n"%char]).
  rewrite !H by discriminate. rewrite H'.
  change (str "\\") with [BSLASH; BSLASH]. now rewrite dropSuffix_app.
Qed.

Lemma gitExec_trailing_backslashes_witness :
  gitExec (prints (str "C:\repo\\")) [str "rev-parse"; str "--show-toplevel"] None
  = ([], Ret (trim (str "C:\repo"))).
Proof.
  apply (gitExec_trailing_backslashes _ _ _ (str "C:\repo")).
  - split; reflexivity.
  - reflexivity.
Defined.

(** ** [gitRoot], [currentCommit] and [currentBranch] *)



Lemma dropLineFeeds_trimmed z : trimStart z = z -> dropLineFeeds z = z.
Proof.
  destruct z as [|c z]; [reflexivity|]. simpl.
  destruct (isWhiteSpace c) eqn:E.
  - intros H. exfalso.
    destruct (trimStart_decomp z) as (w & Hw).
    apply (f_equal (@length ascii)) in H. rewrite Hw in H at 2.
    simpl in H. rewrite length_app in H. lia.
  - intros _. destruct (Ascii.eqb c LF) eqn:E'; [|reflexivity].
    apply Ascii.eqb_eq in E'. subst c. discriminate E.
Qed.

Lemma replaceLineFeedsAtEnd_trimmed s :
  trim s = s -> replaceLineFeedsAtEnd s = s.
Proof.
  intros H. apply trim_trimEnd in H. unfold replaceLineFeedsAtEnd.
  assert (E : trimStart (rev s) = rev s).
  { unfold trimEnd in H. apply (f_equal (@rev ascii)) in H.
    now rewrite rev_involutive in H. }
  now rewrite (dropLineFeeds_trimmed _ E), rev_involutive.
Qed.

(** [currentBranch] returns the variable [BUILD_SOURCEBRANCHNAME] when it
    is set and not empty, whatever git would answer; otherwise it returns
    exactly what [gitExec] returns or raises: the removal of line feeds
    that follows changes nothing, [gitExec] having trimmed the output. *)
Theorem currentBranch_spec git cwd c name :
  Git.currentBranch (Some (c :: name)) git cwd = ([], Ret (c :: name))
  /\ Git.currentBranch None git cwd
     = gitExec git [str "rev-parse"; str "--abbrev-ref"; str "HEAD"] (Some cwd)
  /\ Git.currentBranch (Some []) git cwd
     = gitExec git [str "rev-parse"; str "--abbrev-ref"; str "HEAD"] (Some cwd).
Proof.
  split; [reflexivity|].
  assert (E : forall m : io jsstring,
             (forall out s, m = (out, Ret s) -> out = [] /\ trim s = s) ->
             io_bind m (fun output => io_ret (replaceLineFeedsAtEnd output)) = m).
  { intros [out [s| |]] H; try reflexivity.
    destruct (H out s eq_refl) as [-> Hs]. simpl.
    now rewrite (replaceLineFeedsAtEnd_trimmed _ Hs). }
  split; apply E; apply gitExec_Ret_trimmed.
Qed.

(** ** [platform] *)

Lemma split_first d x rest :
  d <> [] -> border_free d = true -> includes d x = false ->
  split d (x ++ d ++ rest) = x :: split d rest.
Proof.
  intros Hd Hb Hx. unfold split. rewrite split_go_first; [reflexivity | exact Hd |].
  intros k Hk. now apply no_early_match.
Qed.

(** [platform] asks for the URL of the remote named before the first slash
    of the upstream branch, and answers [Github] exactly when that URL
    contains [github.com], wherever in the URL that is. *)
Theorem platform_by_remote_url git cwd remote branch url :
  ~ In "/"%char remote ->
  trim (remote ++ str "/" ++ branch) = remote ++ str "/" ++ branch ->
  succeeded (git upstream_args (Some cwd)) ->
  stdout (git upstream_args (Some cwd)) = remote ++ str "/" ++ branch ++ [LF] ->
  succeeded (git (remote_url_args remote) (Some cwd)) ->
  stdout (git (remote_url_args remote) (Some cwd)) = url ++ [LF] ->
  Git.platform git cwd
  = ([], Ret (if includes (str "github.com") (trim url) then Github else Generic)).
Proof.
  intros Hr Ht Hok1 Hout1 Hok2 Hout2. unfold Git.platform.
  fold upstream_args.
  assert (Hout1' : stdout (git upstream_args (Some cwd))
                   = (remote ++ str "/" ++ branch) ++ [LF])
    by (now rewrite Hout1, <- !app_assoc).
  rewrite (gitExec_white_space_end _ _ _ _ LF Hok1 Hout1' eq_refl), Ht.
  cbn [io_bind]. rewrite Ht.
  rewrite split_first;
    [| discriminate | reflexivity | now apply includes_single].
  cbn [hd]. fold (remote_url_args remote).
  rewrite (gitExec_white_space_end _ _ _ _ LF Hok2 Hout2 eq_refl).
  reflexivity.
Qed.

Lemma platform_by_remote_url_witness :
  Git.platform
    (answers [(upstream_args, str "origin/feature/login");
              (remote_url_args (str "origin"),
               str "https://git.example.org/mirror-of-github.com/tool.git")])
    (str "/repo")
  = ([], Ret (if includes (str "github.com")
                          (trim (str "https://git.example.org/mirror-of-github.com/tool.git"))
              then Github else Generic)).
Proof.
  apply (platform_by_remote_url _ _ (str "origin") (str "feature/login")).
  - intros H. repeat (destruct H as [H|H]; [discriminate H|]). exact H.
  - vm_compute. reflexivity.
  - split; reflexivity.
  - reflexivity.
  - split; reflexivity.
  - reflexivity.
Defined.

Example platform_mirror_is_github :
  snd (Git.platform
         (answers [(upstream_args, str "origin/feature/login");
                   (remote_url_args (str "origin"),
                    str "https://git.example.org/mirror-of-github.com/tool.git")])
         (str "/repo"))
  = Ret Github.
Proof. vm_compute. reflexivity. Qed.

(** ** The operations that change the repository *)

Lemma succeeded_dec o : {succeeded o} + {~ succeeded o}.
Proof.
  unfold succeeded. destruct (error o) as [e|].
  - right. intros [H _]. discriminate H.
  - destruct (exitCode o) as [[| |]|].
    + now left.
    + right. intros [_ H]. discriminate H.
    + right. intros [_ H]. discriminate H.
    + right. intros [_ H]. discriminate H.
Qed.

Lemma gitExec_failed git args cwd :
  ~ succeeded (git args cwd) ->
  exists out e, gitExec git args cwd = (out, Throw e).
Proof.
  unfold succeeded, gitExec. intros H.
  destruct (error (git args cwd)) as [e|]; [now eexists; eexists|].
  destruct (exitCode (git args cwd)) as [[| |]|];
    try (now eexists; eexists).
  contradiction H. now split.
Qed.

Lemma gitExec_in_recording {R} (git : GitRepository R) args cwd r calls r' o :
  git args cwd r = (r', o) ->
  gitExec_in (recording git) args cwd (r, calls)
  = ((r', calls ++ [(args, cwd)]), gitExec (fun _ _ => o) args cwd).
Proof. intros H. unfold gitExec_in, recording. simpl. now rewrite H. Qed.

Lemma act_bind_run {R A B} (m : act R A) (k : A -> act R B) r :
  act_bind m k r
  = match m r with
    | (r', (out, Ret a)) =>
        match k a r' with
        | (r'', (out', b)) => (r'', (out ++ out', b))
        end
    | (r', (out, Throw e)) => (r', (out, Throw e))
    | (r', (out, Unmodelled)) => (r', (out, Unmodelled))
    end.
Proof. reflexivity. Qed.



Example addAndCommitFiles_commits :
  Git.addAndCommitFiles (recording (failing_at 7)) (str "chore: release")
                        [str "build.gradle"; str "CHANGELOG.md"] (0, [])
  = ((2, [([str "add"; str "build.gradle"; str "CHANGELOG.md"], None);
          ([str "commit"; str "-m"; str "chore: release [skip ci]"; str "--";
            str "build.gradle"; str "CHANGELOG.md"], None)]),
     ([], Ret tt)).
Proof. vm_compute. reflexivity. Qed.


(** [cleanChangeLogs] makes its runs in the directory of the instance and
    stops at the first one that fails.  With [o1], [o2] and [o3] what git
    answers to the three commands, each on the repository that the run
    before it leaves: when the first run fails it is the only run and its
    error is raised; when it succeeds and the second fails, these two are
    the runs and the error of the second is raised; when both succeed all
    three runs are made, and the operation returns when the third succeeds
    and raises its error otherwise. *)
Theorem cleanChangeLogs_stops {R} (git : GitRepository R) cwd r r1 o1 r2 o2 r3 o3 :
  git [str "clean"; str "-f"; str "**/CHANGELOG.md"; str "CHANGELOG.md"]
      (Some cwd) r = (r1, o1) ->
  git [str "checkout"; str "CHANGELOG.md"] (Some cwd) r1 = (r2, o2) ->
  git [str "checkout"; str "**/CHANGELOG.md"] (Some cwd) r2 = (r3, o3) ->
  (~ succeeded o1 ->
   exists out e,
     gitExec (fun _ _ => o1)
             [str "clean"; str "-f"; str "**/CHANGELOG.md"; str "CHANGELOG.md"]
             (Some cwd) = (out, Throw e)
     /\ Git.cleanChangeLogs (recording git) cwd (r, [])
        = ((r1, firstn 1 (cleanChangeLogs_calls cwd)), (out, Throw e)))
  /\ (succeeded o1 -> ~ succeeded o2 ->
      exists out e,
        gitExec (fun _ _ => o2) [str "checkout"; str "CHANGELOG.md"] (Some cwd)
        = (out, Throw e)
        /\ Git.cleanChangeLogs (recording git) cwd (r, [])
           = ((r2, firstn 2 (cleanChangeLogs_calls cwd)), (out, Throw e)))
  /\ (succeeded o1 -> succeeded o2 -> ~ succeeded o3 ->
      exists out e,
        gitExec (fun _ _ => o3) [str "checkout"; str "**/CHANGELOG.md"] (Some cwd)
        = (out, Throw e)
        /\ Git.cleanChangeLogs (recording git) cwd (r, [])
           = ((r3, cleanChangeLogs_calls cwd), (out, Throw e)))
  /\ (succeeded o1 -> succeeded o2 -> succeeded o3 ->
      Git.cleanChangeLogs (recording git) cwd (r, [])
      = ((r3, cleanChangeLogs_calls cwd), ([], Ret tt))).
Proof.
  intros H1 H2 H3. unfold Git.cleanChangeLogs, cleanChangeLogs_calls.
  set (c1 := [str "clean"; str "-f"; str "**/CHANGELOG.md"; str "CHANGELOG.md"]) in *.
  set (c2 := [str "checkout"; str "CHANGELOG.md"]) in *.
  set (c3 := [str "checkout"; str "**/CHANGELOG.md"]) in *.
  rewrite act_bind_run, (gitExec_in_recording _ _ _ _ _ _ _ H1).
  split; [|split; [|split]].
  - intros Hf1.
    destruct (gitExec_failed (fun _ _ => o1) c1 (Some cwd) Hf1) as (out & e & E).
    exists out, e. split; [exact E|]. now rewrite E.
  - intros Hok1 Hf2.
    rewrite (gitExec_succeeded (fun _ _ => o1) _ _ Hok1).
    rewrite act_bind_run, (gitExec_in_recording _ _ _ _ _ _ _ H2).
    destruct (gitExec_failed (fun _ _ => o2) c2 (Some cwd) Hf2) as (out & e & E).
    exists out, e. split; [exact E|]. now rewrite E.
  - intros Hok1 Hok2 Hf3.
    rewrite (gitExec_succeeded (fun _ _ => o1) _ _ Hok1).
    rewrite act_bind_run, (gitExec_in_recording _ _ _ _ _ _ _ H2).
    rewrite (gitExec_succeeded (fun _ _ => o2) _ _ Hok2).
    rewrite act_bind_run, (gitExec_in_recording _ _ _ _ _ _ _ H3).
    destruct (gitExec_failed (fun _ _ => o3) c3 (Some cwd) Hf3) as (out & e & E).
    exists out, e. split; [exact E|]. now rewrite E.
  - intros Hok1 Hok2 Hok3.
    rewrite (gitExec_succeeded (fun _ _ => o1) _ _ Hok1).
    rewrite act_bind_run, (gitExec_in_recording _ _ _ _ _ _ _ H2).
    rewrite (gitExec_succeeded (fun _ _ => o2) _ _ Hok2).
    rewrite act_bind_run, (gitExec_in_recording _ _ _ _ _ _ _ H3).
    now rewrite (gitExec_succeeded (fun _ _ => o3) _ _ Hok3).
Qed.

(** On a repository where the second run fails: the first two runs are
    made, the third is not, and the error of the second is raised. *)
Lemma cleanChangeLogs_stops_witness :
  exists out e,
    gitExec (fun _ _ => {| error := None; exitCode := Some 1%Z;
                           stdout := []; stderr := [] |})
            [str "checkout"; str "CHANGELOG.md"] (Some (str "/repo"))
    = (out, Throw e)
    /\ Git.cleanChangeLogs (recording (failing_at 1)) (str "/repo") (0, [])
       = ((2, firstn 2 (cleanChangeLogs_calls (str "/repo"))), (out, Throw e)).
Proof.
  destruct (cleanChangeLogs_stops (failing_at 1) (str "/repo") 0
              1 {| error := None; exitCode := Some 0%Z; stdout := []; stderr := [] |}
              2 {| error := None; exitCode := Some 1%Z; stdout := []; stderr := [] |}
              3 {| error := None; exitCode := Some 0%Z; stdout := []; stderr := [] |}
              eq_refl eq_refl eq_refl)
    as (_ & Hsecond & _).
  apply Hsecond.
  - split; reflexivity.
  - intros [_ H]. discriminate H.
Defined.

Example cleanChangeLogs_second_run_fails :
  Git.cleanChangeLogs (recording (failing_at 1)) (str "/repo") (0, [])
  = ((2, firstn 2 (cleanChangeLogs_calls (str "/repo"))),
     ([[]; []], Throw (Error (str "Invalid status code from git output: 1")))).
Proof. vm_compute. reflexivity. Qed.

(** ** [versionTags] *)

Lemma git_tag_output_pieces t ts :
  git_tag_output (t :: ts) = (join delim2 (tag_pieces (t :: ts)) ++ delim2) ++ [LF].
Proof.
  revert t. induction ts as [|t' ts IH]; intros t.
  - unfold git_tag_output. simpl concat. rewrite app_nil_r.
    simpl tag_pieces. simpl join. now rewrite <- !app_assoc.
  - change (git_tag_output (t :: t' :: ts))
      with ((tag_record t ++ delim2 ++ [LF]) ++ git_tag_output (t' :: ts)).
    rewrite IH.
    change (tag_pieces (t :: t' :: ts))
      with (tag_record t :: (LF :: tag_record t')
              :: map (fun t' => LF :: tag_record t') ts).
    change (tag_pieces (t' :: ts))
      with (tag_record t' :: map (fun t' => LF :: tag_record t') ts).
    rewrite join_cons2.
    change (LF :: tag_record t') with ([LF] ++ tag_record t').
    rewrite (join_app_head delim2 [LF] (tag_record t')).
    now rewrite <- !app_assoc.
Qed.

Lemma trim_between h c m d n :
  isWhiteSpace c = false -> isWhiteSpace d = false ->
  trim (h ++ (c :: m ++ [d]) ++ n) = trimStart h ++ (c :: m ++ [d]) ++ trimEnd n.
Proof.
  intros Hc Hd. unfold trim.
  change (h ++ (c :: m ++ [d]) ++ n) with (h ++ c :: (m ++ [d]) ++ n).
  rewrite (trimStart_app h c _ Hc).
  replace (trimStart h ++ c :: (m ++ [d]) ++ n)
    with ((trimStart h ++ c :: m) ++ d :: n)
    by (rewrite <- !app_assoc; reflexivity).
  rewrite (trimEnd_app_nonws _ d n Hd).
  cbn [app]. now rewrite <- !app_assoc.
Qed.

(** Trimming a record trims its first field at the start and its last
    field at the end. *)
Lemma trim_record h n :
  trim (h ++ delim1 ++ n) = trimStart h ++ delim1 ++ trimEnd n.
Proof.
  exact (trim_between h "E"%char (removelast (tl delim1)) "3"%char n
                      eq_refl eq_refl).
Qed.

Lemma trimEnd_decomp s : exists w, s = trimEnd s ++ w.
Proof.
  destruct (trimStart_decomp (rev s)) as (w & Hw).
  exists (rev w). unfold trimEnd. rewrite <- rev_app_distr, <- Hw.
  now rewrite rev_involutive.
Qed.

Lemma includes_trimStart p s :
  includes p s = false -> includes p (trimStart s) = false.
Proof.
  intros H. apply not_substring_includes. intros Hs.
  destruct (trimStart_decomp s) as (w & Hw).
  apply (substring_app_l p w) in Hs. rewrite <- Hw in Hs.
  apply includes_spec in Hs. congruence.
Qed.

Lemma includes_trimEnd p s :
  includes p s = false -> includes p (trimEnd s) = false.
Proof.
  intros H. apply not_substring_includes. intros (a & b & Hs).
  destruct (trimEnd_decomp s) as (w & Hw).
  assert (Hsub : substring p s).
  { exists a, (b ++ w). rewrite Hw, Hs. now rewrite <- !app_assoc. }
  apply includes_spec in Hsub. congruence.
Qed.

Lemma versionTags_parseEntry_record h n :
  includes delim1 h = false -> includes delim1 n = false ->
  Git.versionTags_parseEntry (h ++ delim1 ++ n) = Some (parsed_tag (h, n)).
Proof.
  intros Hh Hn. unfold Git.versionTags_parseEntry.
  destruct (h ++ delim1 ++ n) as [|c r] eqn:E.
  { destruct h; discriminate E. }
  rewrite <- E, trim_record.
  change (trimStart h ++ delim1 ++ trimEnd n)
    with (join delim1 [trimStart h; trimEnd n]).
  rewrite split_join;
    [reflexivity | discriminate | apply delim1_border_free | discriminate |].
  repeat constructor; [now apply includes_trimStart | now apply includes_trimEnd].
Qed.

Lemma plain_tag_fields t :
  plain_tag t ->
  includes delim1 (fst t) = false /\ includes delim1 (snd t) = false
  /\ includes delim2 (tag_record t) = false.
Proof. intros (H1 & H2 & H3). repeat split; now apply not_substring_includes. Qed.

Lemma versionTags_parseEntry_next t :
  plain_tag t ->
  Git.versionTags_parseEntry (LF :: tag_record t) = Some (parsed_tag t).
Proof.
  intros H. apply plain_tag_fields in H. destruct H as (Hh & Hn & _).
  change (LF :: tag_record t) with ((LF :: fst t) ++ delim1 ++ snd t).
  rewrite versionTags_parseEntry_record; [reflexivity | | exact Hn].
  now apply (includes_cons_other "E" (tl delim1) LF).
Qed.

Lemma tag_record_head t :
  tag_record t = fst t ++ ["E"%char] ++ tl delim1 ++ snd t.
Proof. reflexivity. Qed.

Lemma trim_tag_pieces t ts :
  trim (join delim2 (tag_pieces (t :: ts)) ++ delim2)
  = join delim2 (tag_pieces ((trimStart (fst t), snd t) :: ts)) ++ delim2.
Proof.
  unfold trim. simpl tag_pieces.
  assert (E : forall ps,
             trimStart (join delim2 (tag_record t :: ps) ++ delim2)
             = join delim2 (tag_record (trimStart (fst t), snd t) :: ps) ++ delim2).
  { intros ps.
    rewrite (tag_record_head t), (tag_record_head (trimStart (fst t), snd t)).
    cbn [fst snd]. rewrite !join_app_head, <- !app_assoc.
    exact (trimStart_app (fst t) "E"%char _ eq_refl). }
  rewrite E. apply trimEnd_delim2.
Qed.

(** When git prints the tags [ts] under the format of [versionTags] and
    the delimiters occur in no record except where the format puts them,
    [versionTags] returns the tags in the order of the output, each with
    its object name and its name. *)
Theorem versionTags_parses git cwd prefix ts :
  succeeded (git (Git.versionTags_args prefix) (Some cwd)) ->
  stdout (git (Git.versionTags_args prefix) (Some cwd)) = git_tag_output ts ->
  Forall plain_tag ts ->
  Git.versionTags git cwd prefix = ([], Ret (map parsed_tag ts)).
Proof.
  intros Hok Hout Hts. unfold Git.versionTags.
  destruct ts as [|t ts].
  { rewrite (gitExec_succeeded _ _ _ Hok), Hout. reflexivity. }
  rewrite git_tag_output_pieces in Hout.
  rewrite (gitExec_white_space_end _ _ _ _ LF Hok Hout eq_refl).
  rewrite trim_tag_pieces. cbn [io_bind io_ret]. rewrite endRegex_strips.
  inversion_clear Hts as [|? ? Ht Hts'].
  destruct (plain_tag_fields _ Ht) as (Hh & Hn & Hr).
  assert (Hr' : includes delim2 (tag_record (trimStart (fst t), snd t)) = false).
  { apply not_substring_includes. intros Hs.
    destruct (trimStart_decomp (fst t)) as (w & Hw).
    apply (substring_app_l delim2 w) in Hs.
    unfold tag_record in Hs. cbn [fst snd] in Hs.
    rewrite app_assoc, <- Hw in Hs. apply includes_spec in Hs.
    unfold tag_record in Hr. congruence. }
  rewrite split_join; [| discriminate | apply delim2_border_free | discriminate |].
  - cbn [tag_pieces map somes].
    unfold tag_record at 1. cbn [fst snd].
    rewrite (versionTags_parseEntry_record _ _ (includes_trimStart _ _ Hh) Hn).
    cbn [somes]. unfold parsed_tag at 1. cbn [fst snd].
    rewrite trimStart_idempotent. fold (parsed_tag t).
    do 3 f_equal. clear Hout.
    induction Hts' as [|t' ts' Ht' _ IH]; [reflexivity|].
    cbn [map somes]. rewrite (versionTags_parseEntry_next _ Ht'). cbn [somes].
    now rewrite IH.
  - cbn [tag_pieces]. constructor; [exact Hr'|].
    apply Forall_map. eapply Forall_impl; [|exact Hts'].
    intros t' Ht'. apply plain_tag_fields in Ht'.
    apply (includes_cons_other "2" (tl delim2) LF); [reflexivity | apply Ht'].
Qed.

Lemma plain_tag_b_spec t : plain_tag_b t = true -> plain_tag t.
Proof.
  unfold plain_tag_b, plain_tag. rewrite !andb_true_iff, !negb_true_iff.
  intros ((H1 & H2) & H3).
  repeat split; intros H; apply includes_spec in H; congruence.
Qed.

Lemma versionTags_parses_witness :
  Git.versionTags (prints (git_tag_output two_tags)) (str "/repo") None
  = ([], Ret (map parsed_tag two_tags)).
Proof.
  apply (versionTags_parses (prints (git_tag_output two_tags)) (str "/repo")
                            None two_tags).
  - split; reflexivity.
  - reflexivity.
  - repeat constructor; apply plain_tag_b_spec; vm_compute; reflexivity.
Defined.

Example versionTags_two_tags :
  snd (Git.versionTags (prints (git_tag_output two_tags)) (str "/repo") None)
  = Ret [ {| GitTag.tagName := Some (str "v1.2.0");
             GitTag.hash := Some (str "9fceb02d0ae598e95dc970b74767f19372d61af8") |};
          {| GitTag.tagName := Some (str "v1.3.0-beta.1");
             GitTag.hash := Some (str "3f2a9c1d5e7b4a6088f1c2d3e4f5a6b7c8d9e0f1") |} ].
Proof. vm_compute. reflexivity. Qed.

(** ** Records with too few or too many fields *)

Lemma trimStart_app_fixed x y :
  x <> [] -> trimStart x = x -> trimStart (x ++ y) = x ++ y.
Proof.
  destruct x as [|c x]; [congruence|]. intros _ H. simpl in *.
  destruct (isWhiteSpace c); [|reflexivity].
  exfalso. destruct (trimStart_decomp x) as (w & Hw).
  apply (f_equal (@length ascii)) in H. rewrite Hw in H at 2.
  simpl in H. rewrite length_app in H. lia.
Qed.

Lemma split_clean d x :
  d <> [] -> includes d x = false -> split d x = [x].
Proof. intros Hd Hx. unfold split. now rewrite (split_go_clean d x [] Hd Hx). Qed.

(** What a successful git that prints the single record [x] hands to the
    parser of the records. *)
Lemma gitExec_single_record git args cwd x :
  succeeded (git args cwd) -> stdout (git args cwd) = x ++ delim2 ->
  x <> [] -> trimStart x = x -> includes delim2 x = false ->
  gitExec git args cwd = ([], Ret (x ++ delim2))
  /\ split delim2 (replaceAtEnd endRegex (x ++ delim2)) = [x].
Proof.
  intros Hok Hout Hne Ht Hx. split.
  - rewrite (gitExec_succeeded _ _ _ Hok), Hout, gitExec_regex_no_match.
    unfold trim. rewrite (trimStart_app_fixed _ _ Hne Ht).
    now rewrite trimEnd_delim2.
  - rewrite endRegex_strips. now apply split_clean.
Qed.

(** A record that is not empty and has fewer than four fields is not
    discarded by [logs]: reading the missing field raises a TypeError. *)
Theorem logs_record_with_few_fields git cwd sinceHash relativeCwd fs :
  succeeded (git (logs_args sinceHash relativeCwd) (Some cwd)) ->
  stdout (git (logs_args sinceHash relativeCwd) (Some cwd))
  = join delim1 fs ++ delim2 ->
  0 < length fs < 4 ->
  Forall (fun f => includes delim1 f = false) fs ->
  join delim1 fs <> [] -> trimStart (join delim1 fs) = join delim1 fs ->
  includes delim2 (join delim1 fs) = false ->
  logs git cwd sinceHash relativeCwd = ([], Throw TypeError).
Proof.
  intros Hok Hout Hlen Hfs Hne Ht Hx. unfold logs.
  destruct (gitExec_single_record _ _ _ _ Hok Hout Hne Ht Hx) as [-> E].
  cbn [io_bind]. rewrite E. cbn [omap].
  rewrite (parseEntry_nonempty _ Hne).
  rewrite split_join;
    [| discriminate | apply delim1_border_free
     | intros ->; simpl in Hlen; lia | exact Hfs].
  destruct fs as [|a [|b [|c [|d fs]]]]; try reflexivity.
  simpl in Hlen. lia.
Qed.

Lemma logs_record_with_few_fields_witness :
  logs (prints (join delim1 [str "fix: typo"; str "2024-03-01T10:00:00+01:00"]
                  ++ delim2))
       (str "/repo") None None
  = ([], Throw TypeError).
Proof.
  apply (logs_record_with_few_fields _ _ _ _
           [str "fix: typo"; str "2024-03-01T10:00:00+01:00"]).
  - split; reflexivity.
  - reflexivity.
  - simpl. lia.
  - repeat constructor.
  - discriminate.
  - reflexivity.
  - vm_compute. reflexivity.
Defined.

(** A commit whose body contains the field delimiter is returned with its
    body cut at the delimiter: the fields after the fourth are dropped
    without an error. *)
Theorem logs_body_cut_at_field_delimiter git cwd sinceHash relativeCwd s d h b rest :
  succeeded (git (logs_args sinceHash relativeCwd) (Some cwd)) ->
  stdout (git (logs_args sinceHash relativeCwd) (Some cwd))
  = (s ++ delim1 ++ d ++ delim1 ++ h ++ delim1 ++ b ++ delim1 ++ rest) ++ delim2 ->
  includes delim1 s = false -> includes delim1 d = false ->
  includes delim1 h = false -> includes delim1 b = false ->
  trimStart s = s ->
  includes delim2 (s ++ delim1 ++ d ++ delim1 ++ h ++ delim1 ++ b ++ delim1 ++ rest)
  = false ->
  logs git cwd sinceHash relativeCwd
  = ([], Ret [ {| subject := trim s; date := d; hash := trim h; body := trim b |} ]).
Proof.
  intros Hok Hout Hs Hd Hh Hb Ht Hx. unfold logs.
  set (x := s ++ delim1 ++ d ++ delim1 ++ h ++ delim1 ++ b ++ delim1 ++ rest) in *.
  assert (Hne : x <> []) by (unfold x; destruct s; discriminate).
  assert (Ht' : trimStart x = x).
  { unfold x. change (s ++ delim1 ++ ?r) with (s ++ "E"%char :: tl delim1 ++ r).
    rewrite (trimStart_app s "E"%char _ eq_refl). now rewrite Ht. }
  destruct (gitExec_single_record _ _ _ _ Hok Hout Hne Ht' Hx) as [-> E].
  cbn [io_bind]. rewrite E. cbn [omap].
  rewrite (parseEntry_nonempty _ Hne). unfold x.
  rewrite !split_first;
    try assumption; try discriminate; try apply delim1_border_free.
  reflexivity.
Qed.

Lemma logs_body_cut_at_field_delimiter_witness :
  logs (prints ((str "docs: describe the format" ++ delim1
                   ++ str "2024-03-01T10:00:00+01:00" ++ delim1
                   ++ str "8c1f0e5a" ++ delim1
                   ++ str "fields are separated by " ++ delim1
                   ++ str " in the output") ++ delim2))
       (str "/repo") None None
  = ([], Ret [ {| subject := trim (str "docs: describe the format");
                  date := str "2024-03-01T10:00:00+01:00";
                  hash := trim (str "8c1f0e5a");
                  body := trim (str "fields are separated by ") |} ]).
Proof.
  apply (logs_body_cut_at_field_delimiter _ _ _ _ _ _ _ _ (str " in the output")).
  - split; reflexivity.
  - reflexivity.
  - vm_compute. reflexivity.
  - vm_compute. reflexivity.
  - vm_compute. reflexivity.
  - vm_compute. reflexivity.
  - reflexivity.
  - vm_compute. reflexivity.
Defined.

Lemma trimStart_trim s : trimStart (trim s) = trim s.
Proof.
  unfold trim. destruct (trimStart_head s) as [E|(c & r & E & Hc)]; rewrite E.
  - reflexivity.
  - pose proof (trimEnd_app_nonws [] c r Hc) as H. cbn [app] in H.
    rewrite H. cbn [trimStart]. now rewrite Hc.
Qed.

Lemma trim_fixed_trimStart x : trim x = x -> trimStart x = x.
Proof. intros H. rewrite <- H at 1. rewrite trimStart_trim. exact H. Qed.

(** A record of [versionTags] without the field delimiter raises nothing,
    unlike a short record of [logs]: the tag is returned with the whole
    record as its object name and without a name. *)
Theorem versionTags_record_without_delimiter git cwd prefix x :
  succeeded (git (Git.versionTags_args prefix) (Some cwd)) ->
  stdout (git (Git.versionTags_args prefix) (Some cwd)) = (x ++ delim2) ++ [LF] ->
  x <> [] -> trim x = x ->
  includes delim1 x = false -> includes delim2 x = false ->
  Git.versionTags git cwd prefix
  = ([], Ret [ {| GitTag.tagName := None; GitTag.hash := Some x |} ]).
Proof.
  intros Hok Hout Hne Ht H1 H2. unfold Git.versionTags.
  rewrite (gitExec_white_space_end _ _ _ _ LF Hok Hout eq_refl).
  assert (Hs : trimStart x = x) by (now apply trim_fixed_trimStart).
  unfold trim at 1. rewrite (trimStart_app_fixed _ _ Hne Hs), trimEnd_delim2.
  assert (Hd1 : delim1 <> []) by discriminate.
  assert (Hd2 : delim2 <> []) by discriminate.
  cbn [io_bind io_ret]. rewrite endRegex_strips, (split_clean _ _ Hd2 H2).
  cbn [map]. unfold Git.versionTags_parseEntry.
  destruct x as [|c x]; [congruence|]. rewrite Ht.
  now rewrite (split_clean _ _ Hd1 H1).
Qed.

Lemma versionTags_record_without_delimiter_witness :
  Git.versionTags (prints ((str "warning: refname is ambiguous" ++ delim2) ++ [LF]))
                  (str "/repo") None
  = ([], Ret [ {| GitTag.tagName := None;
                  GitTag.hash := Some (str "warning: refname is ambiguous") |} ]).
Proof.
  apply versionTags_record_without_delimiter.
  - split; reflexivity.
  - reflexivity.
  - discriminate.
  - vm_compute. reflexivity.
  - vm_compute. reflexivity.
  - vm_compute. reflexivity.
Defined.

(* ===================================================================== *)
(** * Further properties of [gradle-project.ts]                           *)
(* ===================================================================== *)

(** ** [initialize] *)

(** A root manifest that fits the schema and whose name is the empty
    string is refused by the constructor of the project: [initialize]
    raises the error that names the package at [.]; nothing is created and
    no child is looked at. *)
Theorem initialize_nameless_root P init st c :
  load_outcome P (cwd init) (files st) = Ret (Some c) ->
  field "name" (manifest c) = Some (JString []) ->
  GradleProject.initialize P init st
  = (st, Throw (Error (str "Invalid manifest. Package at '.' does not have a name"))).
Proof.
  intros Hl Hn. unfold GradleProject.initialize. unfold bind at 1.
  rewrite loadGradleBuildFile_eq, Hl.
  unfold bind at 1. rewrite GradleProject_new_eq.
  unfold nameless. now rewrite Hn.
Qed.

Lemma initialize_nameless_root_witness :
  GradleProject.initialize (posix []) (locked "/app")
    {| files := fun p => if jsstring_eqb p (str "/app/build.gradle")
                         then Some (text "{'name': '', 'version': '1.0.0'}")
                         else None;
       heap := [] |}
  = ({| files := fun p => if jsstring_eqb p (str "/app/build.gradle")
                          then Some (text "{'name': '', 'version': '1.0.0'}")
                          else None;
        heap := [] |},
     Throw (Error (str "Invalid manifest. Package at '.' does not have a name"))).
Proof.
  apply (initialize_nameless_root (posix []) (locked "/app") _
           {| manifest := JObject [(str "name", JString []);
                                   (str "version", JString (str "1.0.0"))];
              eofInEnd := false |}).
  - vm_compute. reflexivity.
  - reflexivity.
Defined.

Lemma mapM_loadWorkspace_files P init project paths : forall st,
  files (fst (mapM (GradleProject.loadWorkspace P init project) paths st))
  = files st.
Proof.
  induction paths as [|path paths IH]; intros st; [reflexivity|].
  simpl. unfold bind.
  pose proof (loadWorkspace_files P init project path st) as Hf.
  destruct (GradleProject.loadWorkspace P init project path st)
    as [st1 [r| |]]; simpl in Hf; try exact Hf.
  specialize (IH st1).
  destruct (mapM _ paths st1) as [st2 [rs| |]]; simpl in *; congruence.
Qed.

(** [initialize] writes no file, whether it returns or raises. *)
Theorem initialize_writes_nothing P init st :
  files (fst (GradleProject.initialize P init st)) = files st.
Proof.
  unfold GradleProject.initialize. unfold bind at 1.
  rewrite loadGradleBuildFile_eq.
  destruct (load_outcome P (cwd init) (files st)) as [[c|]| |]; try reflexivity.
  unfold bind at 1. rewrite GradleProject_new_eq.
  destruct (nameless c); [reflexivity|].
  unfold bind at 1.
  unfold GradleWorkspace.manifest, bind, deref, ret; simpl.
  rewrite nth_error_middle; simpl.
  destruct (field "workspaces" (manifestOf _)) as [[| | | |patterns|]|];
    try reflexivity.
  match goal with
  | |- context [mapM ?f ?l ?s] =>
      pose proof (mapM_loadWorkspace_files P init (length (heap st)) l s) as Hm;
      destruct (mapM f l s) as [st1 [rs| |]]
  end; simpl in Hm; try exact Hm.
  unfold GradleProject.set_childWorkspaces, bind, deref, store.
  destruct (nth_error (heap st1) (length (heap st))) as [o|]; [|exact Hm].
  destruct (asProject o); exact Hm.
Qed.

Lemma mapM_loadWorkspace_raises P init project path e paths : forall st,
  In path paths ->
  load_outcome P (path_join P (cwd init) path) (files st) = Throw e ->
  forall rs,
    snd (mapM (GradleProject.loadWorkspace P init project) paths st) <> Ret rs.
Proof.
  induction paths as [|path' paths IH]; intros st Hin Hl rs; [destruct Hin|].
  simpl. unfold bind.
  destruct (GradleProject.loadWorkspace P init project path' st)
    as [st1 [r| |]] eqn:E; try discriminate.
  destruct Hin as [->|Hin].
  - rewrite loadWorkspace_eq, Hl in E. discriminate.
  - assert (Hf : files st1 = files st).
    { pose proof (loadWorkspace_files P init project path' st) as Hf.
      now rewrite E in Hf. }
    rewrite <- Hf in Hl.
    specialize (IH st1 Hin Hl).
    destruct (mapM _ paths st1) as [st2 [rs'| |]]; try discriminate.
    now contradiction (IH rs').
Qed.

(** A directory that the patterns of the root manifest match and that has
    no [build.gradle] ends the discovery: the read of its manifest is not
    guarded either, and [initialize] does not return. *)
Theorem initialize_child_without_manifest P init st c path :
  load_outcome P (cwd init) (files st) = Ret (Some c) ->
  In path (candidates P init c) ->
  files st (path_join P (path_join P (cwd init) path) GRADLE_MANIFEST_NAME) = None ->
  ~ exists r, snd (GradleProject.initialize P init st) = Ret r.
Proof.
  intros Hroot Hin Hfile (r & Hr). revert Hr.
  assert (Hl : load_outcome P (path_join P (cwd init) path) (files st)
               = Throw (ENOENT (path_join P (path_join P (cwd init) path)
                                          GRADLE_MANIFEST_NAME)))
    by (unfold load_outcome; now rewrite Hfile).
  unfold GradleProject.initialize. unfold bind at 1.
  rewrite loadGradleBuildFile_eq, Hroot.
  unfold bind at 1. rewrite GradleProject_new_eq.
  destruct (nameless c); [discriminate|].
  unfold bind at 1.
  unfold GradleWorkspace.manifest, bind, deref, ret; simpl.
  rewrite nth_error_middle; simpl.
  unfold candidates in Hin. unfold manifestOf; simpl.
  destruct (field "workspaces" (manifest c)) as [[| | | |patterns|]|];
    try destruct Hin.
  match goal with
  | |- context [mapM ?f ?l ?s] =>
      pose proof (mapM_loadWorkspace_raises P init (length (heap st)) path _ l s
                                            Hin Hl) as Hm;
      destruct (mapM f l s) as [st1 [rs| |]]
  end; try discriminate.
  now contradiction (Hm rs).
Qed.

Lemma initialize_child_without_manifest_witness :
  ~ exists r, snd (GradleProject.initialize (posix packages_b_docs) (locked "/repo")
                                            sample) = Ret r.
Proof.
  apply (initialize_child_without_manifest (posix packages_b_docs) (locked "/repo")
           sample
           {| manifest := JObject [(str "name", JString (str "root"));
                                   (str "workspaces",
                                    JArray [JString (str "packages/*")])];
              eofInEnd := true |}
           (str "packages/docs")).
  - vm_compute. reflexivity.
  - right. left. reflexivity.
  - vm_compute. reflexivity.
Defined.

Example initialize_child_without_manifest_error :
  snd (GradleProject.initialize (posix packages_b_docs) (locked "/repo") sample)
  = Throw (ENOENT (str "/repo/packages/docs/build.gradle")).
Proof. vm_compute. reflexivity. Qed.

(** ** The workspaces of an initialized project *)

Lemma mapM_loadWorkspace_named P init project paths : forall st st' rs,
  mapM (GradleProject.loadWorkspace P init project) paths st = (st', Ret rs) ->
  Forall (fun o => nameless (manifestContent o) = false
                   /\ accepted (manifestContent o) = true)
         (children P init (files st) project paths).
Proof.
  induction paths as [|path paths IH]; intros st st' rs H; [constructor|].
  simpl in H. unfold bind in H. rewrite loadWorkspace_eq in H. simpl.
  destruct (load_outcome P (path_join P (cwd init) path) (files st))
    as [[c|]| |]; try discriminate.
  - destruct (accepted c) eqn:Ha.
    + destruct (nameless c) eqn:Hn; [discriminate|].
      destruct (mapM _ paths (push st _)) as [st1 [rs1| |]] eqn:E;
        try discriminate.
      constructor; [now split | exact (IH _ _ _ E)].
    + destruct (mapM _ paths st) as [st1 [rs1| |]] eqn:E; try discriminate.
      exact (IH _ _ _ E).
  - destruct (mapM _ paths st) as [st1 [rs1| |]] eqn:E; try discriminate.
    exact (IH _ _ _ E).
Qed.

(** The children that [initialize] creates have a name and are not marked
    private. *)
Lemma initialize_children P init st st' p :
  GradleProject.initialize P init st = (st', Ret (Some p)) ->
  exists c,
    load_outcome P (cwd init) (files st) = Ret (Some c)
    /\ nameless c = false
    /\ Forall (fun o => nameless (manifestContent o) = false
                        /\ accepted (manifestContent o) = true)
              (children P init (files st) p (candidates P init c)).
Proof.
  intros H. destruct (initialize_heap _ _ _ _ _ H) as (c & Hl & Hn & Hp & _).
  exists c. split; [exact Hl|]. split; [exact Hn|].
  unfold GradleProject.initialize in H. unfold bind at 1 in H.
  rewrite loadGradleBuildFile_eq, Hl in H.
  unfold bind at 1 in H. rewrite GradleProject_new_eq, Hn in H.
  unfold bind at 1 in H.
  unfold GradleWorkspace.manifest, bind, deref, ret in H; simpl in H.
  rewrite nth_error_middle in H; simpl in H.
  unfold manifestOf, candidates in *; simpl in *.
  destruct (field "workspaces" (manifest c)) as [[| | | |patterns|]|];
    try constructor.
  destruct (mapM _ _ (push st _)) as [st1 [rs| |]] eqn:E; try discriminate.
  subst p. exact (mapM_loadWorkspace_named _ _ _ _ _ _ _ E).
Qed.

(** The instance of a workspace of an initialized project: the root, or a
    child that the discovery created. *)
Lemma initialized_instance P init st st' p ws w :
  GradleProject.initialize P init st = (st', Ret (Some p)) ->
  GradleProject.workspaces p st' = (st', Ret ws) ->
  In w ws ->
  exists o,
    nth_error (heap st') w = Some o
    /\ isGradleBuildFile (manifestOf o) = true
    /\ nameless (manifestContent o) = false
    /\ (w <> p -> accepted (manifestContent o) = true).
Proof.
  intros H Hws Hin.
  destruct (initialize_members _ _ _ _ _ H) as (c & cs & Hl & Hcs & Hp & Hm).
  destruct (initialize_children _ _ _ _ _ H) as (c' & Hl' & Hn & Hch).
  assert (c' = c) by congruence. subst c'.
  unfold GradleProject.workspaces, bind in Hws.
  rewrite (deref_eq _ _ _ Hp) in Hws. injection Hws as <-.
  destruct Hin as [<-|Hin].
  - exists (projectInstance p init c (seq (S p) (length cs))).
    split; [exact Hp|]. split; [exact (load_outcome_valid _ _ _ _ Hl)|].
    split; [exact Hn | congruence].
  - destruct (map_Some_In _ _ _ _ Hm Hin) as (o & Ho & Ho').
    rewrite Hcs in Ho'. exists o. split; [exact Ho|].
    rewrite Forall_forall in Hch. destruct (Hch o Ho') as [Hno Hao].
    apply children_spec in Ho'. destruct Ho' as (_ & _ & Hv & _).
    now repeat split.
Qed.

Lemma nameless_false_name c name :
  field "name" (manifest c) = Some (JString name) ->
  nameless c = false -> name <> [].
Proof. unfold nameless. intros -> H ->. discriminate H. Qed.

Lemma valid_private m :
  isGradleBuildFile m = true ->
  field "private" m = None \/ exists b, field "private" m = Some (JBool b).
Proof.
  destruct m as [| | | | |props]; try discriminate.
  unfold isGradleBuildFile, field. intros H.
  apply andb_prop in H; destruct H as [H _].
  apply andb_prop in H; destruct H as [_ H].
  destruct (get (str "private") props) as [[|b| | | |]|]; try discriminate H.
  - right. now exists b.
  - now left.
Qed.

Lemma valid_version m :
  isGradleBuildFile m = true ->
  field "version" m = None \/ exists v, field "version" m = Some (JString v).
Proof.
  destruct m as [| | | | |props]; try discriminate.
  unfold isGradleBuildFile, field. intros H.
  apply andb_prop in H; destruct H as [H _].
  apply andb_prop in H; destruct H as [H _].
  apply andb_prop in H; destruct H as [H _].
  apply andb_prop in H; destruct H as [_ H].
  destruct (get (str "version") props) as [[| | |v| |]|]; try discriminate H.
  - right. now exists v.
  - now left.
Qed.

(** Every workspace of an initialized project, the root included, has a
    name that is a string and is not empty. *)
Theorem initialized_packageName P init st st' p ws w :
  GradleProject.initialize P init st = (st', Ret (Some p)) ->
  GradleProject.workspaces p st' = (st', Ret ws) ->
  In w ws ->
  exists name,
    GradleWorkspace.packageName w st' = (st', Ret (Some (JString name)))
    /\ name <> [].
Proof.
  intros H Hws Hin.
  destruct (initialized_instance _ _ _ _ _ _ _ H Hws Hin) as (o & Ho & Hv & Hn & _).
  destruct (valid_name _ Hv) as (name & Hname). exists name. split.
  - now rewrite (packageName_eq _ _ _ Ho), Hname.
  - exact (nameless_false_name _ _ Hname Hn).
Qed.

(** The getter [private] is [false] on every child workspace of an
    initialized project: the discovery leaves out the manifests marked
    private.  The root may be private. *)
Theorem initialized_child_not_private P init st st' p ws w :
  GradleProject.initialize P init st = (st', Ret (Some p)) ->
  GradleProject.workspaces p st' = (st', Ret ws) ->
  In w ws -> w <> p ->
  GradleWorkspace.private w st' = (st', Ret (JBool false)).
Proof.
  intros H Hws Hin Hne.
  destruct (initialized_instance _ _ _ _ _ _ _ H Hws Hin) as (o & Ho & Hv & _ & Ha).
  specialize (Ha Hne). unfold accepted in Ha. fold (manifestOf o) in Ha.
  unfold GradleWorkspace.private, GradleWorkspace.manifest, bind.
  rewrite (deref_eq _ _ _ Ho). unfold ret.
  destruct (valid_private _ Hv) as [E|(b & E)]; rewrite E in *.
  - reflexivity.
  - destruct b; [discriminate Ha | reflexivity].
Qed.

(** The getter [version] gives, on every workspace of an initialized
    project, a string: the version of the manifest when it has one, the
    default version otherwise. *)
Theorem initialized_version P init st st' p ws w default :
  GradleProject.initialize P init st = (st', Ret (Some p)) ->
  GradleProject.workspaces p st' = (st', Ret ws) ->
  In w ws ->
  exists o v,
    nth_error (heap st') w = Some o
    /\ GradleWorkspace.version default w st' = (st', Ret (JString v))
    /\ (field "version" (manifestOf o) = Some (JString v)
        \/ field "version" (manifestOf o) = None /\ v = default).
Proof.
  intros H Hws Hin.
  destruct (initialized_instance _ _ _ _ _ _ _ H Hws Hin) as (o & Ho & Hv & _).
  unfold GradleWorkspace.version, GradleWorkspace.manifest, bind.
  rewrite (deref_eq _ _ _ Ho). unfold ret.
  destruct (valid_version _ Hv) as [E|(v & E)]; rewrite E.
  - exists o, default. split; [exact Ho|]. split; [reflexivity | now right].
  - exists o, v. split; [exact Ho|]. split; [reflexivity | now left].
Qed.

Lemma initialized_packageName_witness :
  exists name,
    GradleWorkspace.packageName 1 initialized
    = (initialized, Ret (Some (JString name)))
    /\ name <> [].
Proof.
  apply (initialized_packageName (posix packages_a_b) (locked "/repo") sample
                                 initialized 0 [0; 1] 1).
  - vm_compute. reflexivity.
  - vm_compute. reflexivity.
  - right. left. reflexivity.
Defined.

Lemma initialized_child_not_private_witness :
  GradleWorkspace.private 1 initialized = (initialized, Ret (JBool false)).
Proof.
  apply (initialized_child_not_private (posix packages_a_b) (locked "/repo") sample
                                       initialized 0 [0; 1] 1).
  - vm_compute. reflexivity.
  - vm_compute. reflexivity.
  - right. left. reflexivity.
  - discriminate.
Defined.

Lemma initialized_version_witness :
  exists o v,
    nth_error (heap initialized) 0 = Some o
    /\ GradleWorkspace.version (str "0.0.0") 0 initialized
       = (initialized, Ret (JString v))
    /\ (field "version" (manifestOf o) = Some (JString v)
        \/ field "version" (manifestOf o) = None /\ v = str "0.0.0").
Proof.
  apply (initialized_version (posix packages_a_b) (locked "/repo") sample
                             initialized 0 [0; 1] 0 (str "0.0.0")).
  - vm_compute. reflexivity.
  - vm_compute. reflexivity.
  - left. reflexivity.
Defined.

(** ** [updateVersion] and the getters *)

Lemma withVersion_eq version o props :
  manifestOf o = JObject props ->
  withVersion version o
  = {| _project := _project o;
       manifestContent :=
         {| manifest := JObject (set (str "version") (JString version) props);
            eofInEnd := eofInEnd (manifestContent o) |};
       relativeCwd := relativeCwd o;
       asProject := asProject o |}.
Proof. intros H. unfold withVersion. now rewrite H. Qed.

Lemma updateVersion_eq P st this o folder props version :
  nth_error (heap st) this = Some o ->
  GradleWorkspace.cwd P this st = (st, Ret folder) ->
  manifestOf o = JObject props ->
  GradleWorkspace.updateVersion P this version st
  = ({| files := written (path_join P folder GRADLE_MANIFEST_NAME)
                         (manifestText (manifestContent (withVersion version o)))
                         (files st);
        heap := update_nth this (withVersion version o) (heap st) |}, Ret tt).
Proof.
  intros Ho Hcwd Hm. rewrite (withVersion_eq version o props Hm).
  set (m' := JObject (set (str "version") (JString version) props)).
  set (c' := mkContent m' (eofInEnd (manifestContent o))).
  set (o' := mkInstance (_project o) c' (relativeCwd o) (asProject o)).
  unfold GradleWorkspace.updateVersion. unfold bind at 1.
  rewrite (deref_eq _ _ _ Ho). rewrite Hm.
  unfold bind at 1. unfold store at 1. unfold bind at 1.
  fold m'. fold c'. fold o'.
  rewrite (cwd_after_store P st this o o' folder Ho Hcwd eq_refl eq_refl eq_refl).
  unfold persistGradleBuildFile, writeFile, written, manifestText.
  cbn [files heap eofInEnd manifest manifestContent c' o'].
  now rewrite with_line_feed.
Qed.

(** After [updateVersion] the getter [version] of the workspace returns
    the new version, whatever the default version is. *)
Theorem version_after_updateVersion P st this o folder props version default :
  nth_error (heap st) this = Some o ->
  GradleWorkspace.cwd P this st = (st, Ret folder) ->
  manifestOf o = JObject props ->
  exists st',
    GradleWorkspace.updateVersion P this version st = (st', Ret tt)
    /\ GradleWorkspace.version default this st' = (st', Ret (JString version)).
Proof.
  intros Ho Hcwd Hm. eexists. split; [exact (updateVersion_eq _ _ _ _ _ _ _ Ho Hcwd Hm)|].
  unfold GradleWorkspace.version, GradleWorkspace.manifest, bind.
  rewrite (deref_eq _ this (withVersion version o));
    [|exact (nth_error_update_nth_eq _ _ _ _ Ho)].
  unfold ret. rewrite (withVersion_eq version o props Hm).
  unfold manifestOf, field. cbn [manifestContent manifest].
  now rewrite get_set, jsstring_eqb_refl.
Qed.

Lemma version_after_updateVersion_witness :
  exists st',
    GradleWorkspace.updateVersion (posix packages_a_b) 1 (str "1.1.0") initialized
    = (st', Ret tt)
    /\ GradleWorkspace.version (str "0.0.0") 1 st' = (st', Ret (JString (str "1.1.0"))).
Proof.
  apply (version_after_updateVersion (posix packages_a_b) initialized 1 workspace_b
           (str "/repo/packages/b")
           [(str "name", JString (str "b")); (str "version", JString (str "1.0.0"))]).
  - vm_compute. reflexivity.
  - vm_compute. reflexivity.
  - reflexivity.
Defined.

(** The getters return what the functions of the heap give and leave the
    state as it is. *)
Lemma project_closed this st :
  GradleWorkspace.project this st = (st, projectOf (heap st) this).
Proof.
  unfold GradleWorkspace.project, projectOf, bind, deref, ret, unmodelled.
  destruct (nth_error (heap st) this) as [o|]; [|reflexivity].
  destruct (asProject o); [reflexivity|]. now destruct (_project o).
Qed.

Lemma projectFields_closed this st :
  GradleWorkspace.projectFields this st = (st, projectFieldsOf (heap st) this).
Proof.
  unfold GradleWorkspace.projectFields, projectFieldsOf, bind.
  rewrite project_closed.
  destruct (projectOf (heap st) this) as [p| |]; try reflexivity.
  unfold deref, ret, unmodelled. cbn [obind].
  destruct (nth_error (heap st) p) as [o|]; [|reflexivity].
  now destruct (asProject o).
Qed.

Lemma config_closed this st :
  GradleWorkspace.config this st = (st, configOf (heap st) this).
Proof.
  unfold GradleWorkspace.config, configOf, bind at 1, deref, ret.
  destruct (nth_error (heap st) this) as [o|]; [|reflexivity].
  destruct (asProject o); [reflexivity|].
  unfold bind. rewrite projectFields_closed.
  now destruct (projectFieldsOf (heap st) this).
Qed.

Lemma cwd_closed P this st :
  GradleWorkspace.cwd P this st = (st, cwdOf P (heap st) this).
Proof.
  unfold GradleWorkspace.cwd, cwdOf, bind at 1, deref, ret.
  destruct (nth_error (heap st) this) as [o|]; [|reflexivity].
  destruct (asProject o); [reflexivity|].
  unfold bind. rewrite projectFields_closed.
  now destruct (projectFieldsOf (heap st) this).
Qed.

Lemma packageName_closed this st :
  GradleWorkspace.packageName this st = (st, packageNameOf (heap st) this).
Proof.
  unfold GradleWorkspace.packageName, GradleWorkspace.manifest, packageNameOf,
    bind, deref, ret.
  now destruct (nth_error (heap st) this).
Qed.

Lemma tagPrefix_closed this st :
  GradleWorkspace.tagPrefix this st = (st, tagPrefixOf (heap st) this).
Proof.
  unfold GradleWorkspace.tagPrefix, tagPrefixOf, bind at 1.
  rewrite config_closed.
  destruct (configOf (heap st) this) as [c| |]; try reflexivity.
  cbn [obind]. destruct (independentVersioning (options c)); [|reflexivity].
  unfold bind. rewrite packageName_closed.
  destruct (packageNameOf (heap st) this) as [[[| | |name| |]|]| |];
    reflexivity.
Qed.

Lemma replace_value_app_last k v v' ps :
  get k ps = None ->
  replace_value k v' (ps ++ [(k, v)]) = ps ++ [(k, v')].
Proof.
  induction ps as [|[k' x] ps IH]; simpl.
  - intros _. now rewrite jsstring_eqb_refl.
  - destruct (jsstring_eqb k k'); [discriminate|]. intros H. now rewrite IH.
Qed.

Lemma replace_value_twice k v v' ps :
  replace_value k v' (replace_value k v ps) = replace_value k v' ps.
Proof.
  induction ps as [|[k' x] ps IH]; [reflexivity|]. simpl.
  destruct (jsstring_eqb k k') eqn:E; simpl; rewrite E; [reflexivity|].
  now rewrite IH.
Qed.

(** Assigning a property twice is assigning the second value, for a key
    that is not an array index. *)
Lemma set_twice k v v' ps :
  array_index k = None -> set k v' (set k v ps) = set k v' ps.
Proof.
  intros Hk.
  assert (E : get k (set k v ps) = Some v)
    by (now rewrite get_set, jsstring_eqb_refl).
  unfold set at 1. rewrite E. unfold set.
  destruct (get k ps) eqn:Hg.
  - apply replace_value_twice.
  - rewrite Hk. now apply replace_value_app_last.
Qed.

Lemma update_nth_twice {A} (l : list A) n x y :
  update_nth n y (update_nth n x l) = update_nth n y l.
Proof.
  revert n. induction l as [|a l IH]; intros [|n]; simpl; try reflexivity.
  now rewrite IH.
Qed.

(** Two calls of [updateVersion] in a row leave what the second one alone
    leaves: the same objects and the same text in every file. *)
Theorem updateVersion_last_wins P st this o folder props v1 v2 :
  nth_error (heap st) this = Some o ->
  GradleWorkspace.cwd P this st = (st, Ret folder) ->
  manifestOf o = JObject props ->
  exists st1 st12 st2,
    GradleWorkspace.updateVersion P this v1 st = (st1, Ret tt)
    /\ GradleWorkspace.updateVersion P this v2 st1 = (st12, Ret tt)
    /\ GradleWorkspace.updateVersion P this v2 st = (st2, Ret tt)
    /\ heap st12 = heap st2
    /\ forall p, files st12 p = files st2 p.
Proof.
  intros Ho Hcwd Hm.
  pose proof (updateVersion_eq P st this o folder props v1 Ho Hcwd Hm) as E1.
  pose proof (updateVersion_eq P st this o folder props v2 Ho Hcwd Hm) as E2.
  set (o1 := withVersion v1 o) in *.
  set (st1 := {| files := written (path_join P folder GRADLE_MANIFEST_NAME)
                                  (manifestText (manifestContent o1)) (files st);
                 heap := update_nth this o1 (heap st) |}) in *.
  assert (Ho1 : nth_error (heap st1) this = Some o1)
    by exact (nth_error_update_nth_eq _ _ _ _ Ho).
  assert (Eo1 : o1 = {| _project := _project o;
                        manifestContent :=
                          {| manifest := JObject (set (str "version") (JString v1) props);
                             eofInEnd := eofInEnd (manifestContent o) |};
                        relativeCwd := relativeCwd o;
                        asProject := asProject o |})
    by exact (withVersion_eq v1 o props Hm).
  assert (Hcwd1 : GradleWorkspace.cwd P this st1 = (st1, Ret folder)).
  { pose proof (cwd_after_store P st this o o1 folder Ho Hcwd) as H.
    rewrite Eo1 in H. specialize (H eq_refl eq_refl eq_refl).
    rewrite <- Eo1 in H. rewrite cwd_closed in H |- *.
    cbn [heap st1] in H |- *. injection H as ->. reflexivity. }
  assert (Hm1 : manifestOf o1 = JObject (set (str "version") (JString v1) props))
    by (now rewrite Eo1).
  pose proof (updateVersion_eq P st1 this o1 folder _ v2 Ho1 Hcwd1 Hm1) as E12.
  assert (Eo12 : withVersion v2 o1 = withVersion v2 o).
  { rewrite (withVersion_eq v2 o1 _ Hm1), (withVersion_eq v2 o props Hm), Eo1.
    cbn [_project manifestContent relativeCwd asProject eofInEnd].
    now rewrite set_twice. }
  do 3 eexists. split; [exact E1|]. split; [exact E12|]. split; [exact E2|].
  cbn [heap files st1]. rewrite Eo12. split.
  - apply update_nth_twice.
  - intros p. unfold written. now destruct (jsstring_eqb p _).
Qed.

Lemma updateVersion_last_wins_witness :
  exists st1 st12 st2,
    GradleWorkspace.updateVersion (posix packages_a_b) 1 (str "1.1.0") initialized
    = (st1, Ret tt)
    /\ GradleWorkspace.updateVersion (posix packages_a_b) 1 (str "2.0.0") st1
       = (st12, Ret tt)
    /\ GradleWorkspace.updateVersion (posix packages_a_b) 1 (str "2.0.0") initialized
       = (st2, Ret tt)
    /\ heap st12 = heap st2
    /\ forall p, files st12 p = files st2 p.
Proof.
  apply (updateVersion_last_wins (posix packages_a_b) initialized 1 workspace_b
           (str "/repo/packages/b")
           [(str "name", JString (str "b")); (str "version", JString (str "1.0.0"))]).
  - vm_compute. reflexivity.
  - vm_compute. reflexivity.
  - reflexivity.
Defined.

Section SameIdentity.

Variables h h' : list Instance.
Hypothesis Hsame : same_identity h h'.

Lemma same_identity_projectOf w : projectOf h' w = projectOf h w.
Proof.
  unfold projectOf. specialize (Hsame w).
  destruct (nth_error h w) as [a|], (nth_error h' w) as [b|];
    try contradiction; [|reflexivity].
  destruct Hsame as (-> & _ & -> & _). reflexivity.
Qed.

Lemma same_identity_projectFieldsOf w : projectFieldsOf h' w = projectFieldsOf h w.
Proof.
  unfold projectFieldsOf. rewrite same_identity_projectOf.
  destruct (projectOf h w) as [p| |]; try reflexivity. cbn [obind].
  specialize (Hsame p).
  destruct (nth_error h p) as [a|], (nth_error h' p) as [b|];
    try contradiction; [|reflexivity].
  destruct Hsame as (_ & _ & -> & _). reflexivity.
Qed.

Lemma same_identity_configOf w : configOf h' w = configOf h w.
Proof.
  unfold configOf. rewrite same_identity_projectFieldsOf. specialize (Hsame w).
  destruct (nth_error h w) as [a|], (nth_error h' w) as [b|];
    try contradiction; [|reflexivity].
  destruct Hsame as (_ & _ & -> & _). reflexivity.
Qed.

Lemma same_identity_cwdOf P w : cwdOf P h' w = cwdOf P h w.
Proof.
  unfold cwdOf. rewrite same_identity_projectFieldsOf. specialize (Hsame w).
  destruct (nth_error h w) as [a|], (nth_error h' w) as [b|];
    try contradiction; [|reflexivity].
  destruct Hsame as (_ & -> & -> & _). reflexivity.
Qed.

Lemma same_identity_packageNameOf w : packageNameOf h' w = packageNameOf h w.
Proof.
  unfold packageNameOf. specialize (Hsame w).
  destruct (nth_error h w) as [a|], (nth_error h' w) as [b|];
    try contradiction; [|reflexivity].
  destruct Hsame as (_ & _ & _ & ->). reflexivity.
Qed.

Lemma same_identity_tagPrefixOf w : tagPrefixOf h' w = tagPrefixOf h w.
Proof.
  unfold tagPrefixOf.
  now rewrite same_identity_configOf, same_identity_packageNameOf.
Qed.

End SameIdentity.

Lemma workspaces_closed this st :
  GradleProject.workspaces this st = (st, workspacesOf (heap st) this).
Proof.
  unfold GradleProject.workspaces, workspacesOf, bind, deref, ret, unmodelled.
  destruct (nth_error (heap st) this) as [o|]; [|reflexivity].
  now destruct (asProject o).
Qed.

Lemma same_identity_workspacesOf h h' w :
  same_identity h h' -> workspacesOf h' w = workspacesOf h w.
Proof.
  intros Hsame. unfold workspacesOf. specialize (Hsame w).
  destruct (nth_error h w) as [a|], (nth_error h' w) as [b|];
    try contradiction; [|reflexivity].
  destruct Hsame as (_ & _ & -> & _). reflexivity.
Qed.

Lemma same_identity_withVersion h this o props version :
  nth_error h this = Some o -> manifestOf o = JObject props ->
  same_identity h (update_nth this (withVersion version o) h).
Proof.
  intros Ho Hm r. destruct (Nat.eq_dec r this) as [->|Hne].
  - rewrite (nth_error_update_nth_eq _ _ _ _ Ho), Ho.
    rewrite (withVersion_eq version o props Hm).
    unfold manifestOf, field in *. cbn [_project relativeCwd asProject
                                        manifestContent manifest].
    rewrite Hm, get_set. repeat split.
  - rewrite nth_error_update_nth_neq by exact Hne.
    destruct (nth_error h r); [now repeat split | exact I].
Qed.

(** [updateVersion] changes the version and nothing of what identifies a
    workspace: on every workspace, the one updated or another, the package
    name, the tag prefix, the directory, the configuration and the list of
    workspaces are what they were. *)
Theorem updateVersion_keeps_identity P st this o folder props version w :
  nth_error (heap st) this = Some o ->
  GradleWorkspace.cwd P this st = (st, Ret folder) ->
  manifestOf o = JObject props ->
  exists st',
    GradleWorkspace.updateVersion P this version st = (st', Ret tt)
    /\ snd (GradleWorkspace.packageName w st') = snd (GradleWorkspace.packageName w st)
    /\ snd (GradleWorkspace.tagPrefix w st') = snd (GradleWorkspace.tagPrefix w st)
    /\ snd (GradleWorkspace.cwd P w st') = snd (GradleWorkspace.cwd P w st)
    /\ snd (GradleWorkspace.config w st') = snd (GradleWorkspace.config w st)
    /\ snd (GradleProject.workspaces w st') = snd (GradleProject.workspaces w st).
Proof.
  intros Ho Hcwd Hm. eexists.
  split; [exact (updateVersion_eq _ _ _ _ _ _ _ Ho Hcwd Hm)|].
  pose proof (same_identity_withVersion _ _ _ _ version Ho Hm) as Hs.
  rewrite !packageName_closed, !tagPrefix_closed, !cwd_closed, !config_closed,
    !workspaces_closed.
  cbn [snd heap].
  rewrite (same_identity_packageNameOf _ _ Hs), (same_identity_tagPrefixOf _ _ Hs),
    (same_identity_cwdOf _ _ Hs), (same_identity_configOf _ _ Hs),
    (same_identity_workspacesOf _ _ _ Hs).
  now repeat split.
Qed.

Lemma updateVersion_keeps_identity_witness :
  exists st',
    GradleWorkspace.updateVersion (posix packages_a_b) 0 (str "2.0.0")
      (fst (GradleProject.initialize (posix packages_a_b) (independent "/repo") sample))
    = (st', Ret tt)
    /\ snd (GradleWorkspace.packageName 1 st')
       = snd (GradleWorkspace.packageName 1
                (fst (GradleProject.initialize (posix packages_a_b)
                                               (independent "/repo") sample)))
    /\ snd (GradleWorkspace.tagPrefix 1 st')
       = snd (GradleWorkspace.tagPrefix 1
                (fst (GradleProject.initialize (posix packages_a_b)
                                               (independent "/repo") sample)))
    /\ snd (GradleWorkspace.cwd (posix packages_a_b) 1 st')
       = snd (GradleWorkspace.cwd (posix packages_a_b) 1
                (fst (GradleProject.initialize (posix packages_a_b)
                                               (independent "/repo") sample)))
    /\ snd (GradleWorkspace.config 1 st')
       = snd (GradleWorkspace.config 1
                (fst (GradleProject.initialize (posix packages_a_b)
                                               (independent "/repo") sample)))
    /\ snd (GradleProject.workspaces 1 st')
       = snd (GradleProject.workspaces 1
                (fst (GradleProject.initialize (posix packages_a_b)
                                               (independent "/repo") sample))).
Proof.
  apply (updateVersion_keeps_identity (posix packages_a_b) _ 0
           (projectInstance 0 (independent "/repo")
              {| manifest := JObject [(str "name", JString (str "root"));
                                      (str "workspaces",
                                       JArray [JString (str "packages/*")])];
                 eofInEnd := true |} [1])
           (str "/repo")
           [(str "name", JString (str "root"));
            (str "workspaces", JArray [JString (str "packages/*")])]).
  - vm_compute. reflexivity.
  - vm_compute. reflexivity.
  - reflexivity.
Defined.

(** ** [updateChangelog] *)

Lemma updateChangelog_eq {ChangelogEntry : Type}
      (addToChangelog : ChangelogEntry -> jsstring -> outcome jsstring)
      P st this folder entry :
  GradleWorkspace.cwd P this st = (st, Ret folder) ->
  GradleWorkspace.updateChangelog addToChangelog P this entry st
  = match addToChangelog entry
            (match files st (path_join P folder (str "CHANGELOG.md")) with
             | Some present => present
             | None => []
             end) with
    | Ret changeLog =>
        ({| files := written (path_join P folder (str "CHANGELOG.md")) changeLog
                             (files st);
            heap := heap st |},
         Ret (path_join P folder (str "CHANGELOG.md")))
    | Throw e => (st, Throw e)
    | Unmodelled => (st, Unmodelled)
    end.
Proof.
  intros Hcwd. unfold GradleWorkspace.updateChangelog. unfold bind at 1.
  rewrite Hcwd. unfold bind at 1. unfold existsSync at 1.
  unfold bind at 1. unfold readFile.
  destruct (files st (path_join P folder (str "CHANGELOG.md"))) as [present|] eqn:E.
  - rewrite E. unfold bind, lift, writeFile, written, ret.
    now destruct (addToChangelog entry present).
  - unfold bind, lift, writeFile, written, ret.
    now destruct (addToChangelog entry []).
Qed.

(** [updateChangelog] starts from the empty text when the workspace has no
    [CHANGELOG.md], where the loader of the manifest would raise; it writes
    what [addToChangelog] makes of the entry and the present text into that
    file alone and returns the path of the file.  When [addToChangelog]
    raises, nothing is written. *)
Theorem updateChangelog_writes {ChangelogEntry : Type}
        (addToChangelog : ChangelogEntry -> jsstring -> outcome jsstring)
        P st this folder entry :
  GradleWorkspace.cwd P this st = (st, Ret folder) ->
  (forall changeLog,
      addToChangelog entry
        (match files st (path_join P folder (str "CHANGELOG.md")) with
         | Some present => present
         | None => []
         end) = Ret changeLog ->
      GradleWorkspace.updateChangelog addToChangelog P this entry st
      = ({| files := written (path_join P folder (str "CHANGELOG.md")) changeLog
                             (files st);
            heap := heap st |},
         Ret (path_join P folder (str "CHANGELOG.md"))))
  /\ (forall e,
         addToChangelog entry
           (match files st (path_join P folder (str "CHANGELOG.md")) with
            | Some present => present
            | None => []
            end) = Throw e ->
         GradleWorkspace.updateChangelog addToChangelog P this entry st
         = (st, Throw e)).
Proof.
  intros Hcwd. rewrite (updateChangelog_eq _ _ _ _ _ _ Hcwd).
  split; intros x Hx; rewrite Hx; reflexivity.
Qed.

Lemma updateChangelog_writes_witness :
  (forall changeLog,
      prepend (str "## 1.1.0")
        (match files initialized
                 (path_join (posix packages_a_b) (str "/repo/packages/b")
                            (str "CHANGELOG.md")) with
         | Some present => present
         | None => []
         end) = Ret changeLog ->
      GradleWorkspace.updateChangelog prepend (posix packages_a_b) 1
                                      (str "## 1.1.0") initialized
      = ({| files := written (path_join (posix packages_a_b) (str "/repo/packages/b")
                                        (str "CHANGELOG.md")) changeLog
                             (files initialized);
            heap := heap initialized |},
         Ret (path_join (posix packages_a_b) (str "/repo/packages/b")
                        (str "CHANGELOG.md"))))
  /\ (forall e,
         prepend (str "## 1.1.0")
           (match files initialized
                    (path_join (posix packages_a_b) (str "/repo/packages/b")
                               (str "CHANGELOG.md")) with
            | Some present => present
            | None => []
            end) = Throw e ->
         GradleWorkspace.updateChangelog prepend (posix packages_a_b) 1
                                         (str "## 1.1.0") initialized
         = (initialized, Throw e)).
Proof.
  apply (updateChangelog_writes prepend (posix packages_a_b) initialized 1
                                (str "/repo/packages/b") (str "## 1.1.0")).
  vm_compute. reflexivity.
Defined.

Example updateChangelog_first_entry :
  let r := GradleWorkspace.updateChangelog prepend (posix packages_a_b) 1
                                           (str "## 1.1.0") initialized in
  snd r = Ret (str "/repo/packages/b/CHANGELOG.md")
  /\ files (fst r) (str "/repo/packages/b/CHANGELOG.md")
     = Some (str "## 1.1.0" ++ [LF]).
Proof. vm_compute. split; reflexivity. Qed.

(** ** Persisting and loading *)

(** Take a manifest content whose manifest fits the schema and is a value
    that this model holds (objects, arrays, strings over U+0000 .. U+00FF,
    booleans, [null], integers of magnitude at most 2^53 - 1), as the
    loader returns it from a file of such values.  Persisted in a folder
    whose [build.gradle] exists, it is loaded from there again as it was:
    the same manifest with the same mark for the line feed at the end.  No
    other file and no object changes. *)
Theorem persist_then_load P folder c st present :
  files st (path_join P folder GRADLE_MANIFEST_NAME) = Some present ->
  isGradleBuildFile (manifest c) = true ->
  well_formed (manifest c) ->
  exists st',
    persistGradleBuildFile P folder c st = (st', Ret tt)
    /\ heap st' = heap st
    /\ (forall p, p <> path_join P folder GRADLE_MANIFEST_NAME ->
                  files st' p = files st p)
    /\ loadGradleBuildFile P folder st' = (st', Ret (Some c)).
Proof.
  intros _ Hvalid Hwf.
  destruct (valid_object _ Hvalid) as (props & Hm).
  eexists. split; [reflexivity|]. split; [reflexivity|]. split.
  - intros p Hp. cbn [files]. apply jsstring_eqb_neq in Hp. now rewrite Hp.
  - rewrite loadGradleBuildFile_eq. f_equal.
    unfold load_outcome. cbn [files]. rewrite jsstring_eqb_refl.
    rewrite with_line_feed, Hm. rewrite Hm in Hvalid, Hwf.
    rewrite (JSON_parse_stringify (JObject props) _ Hwf), Hvalid.
    rewrite endsWith_LF_object. destruct c as [m eof]. simpl in *. now subst m.
Qed.

Lemma persist_then_load_witness :
  exists st',
    persistGradleBuildFile (posix []) (str "/repo/packages/c")
      {| manifest := JObject [(str "name", JString (str "b"));
                              (str "version", JString (str "1.0.0"))];
         eofInEnd := true |} sample
    = (st', Ret tt)
    /\ heap st' = heap sample
    /\ (forall p, p <> path_join (posix []) (str "/repo/packages/c")
                                 GRADLE_MANIFEST_NAME ->
                  files st' p = files sample p)
    /\ loadGradleBuildFile (posix []) (str "/repo/packages/c") st'
       = (st', Ret (Some {| manifest := JObject [(str "name", JString (str "b"));
                                                 (str "version", JString (str "1.0.0"))];
                            eofInEnd := true |})).
Proof.
  apply (persist_then_load (posix []) (str "/repo/packages/c") _ sample
                           (text "{'name':''}")).
  - reflexivity.
  - reflexivity.
  - apply (JSON_parse_well_formed (text "{'name':'b','version':'1.0.0'}" ++ [LF])).
    vm_compute. reflexivity.
Defined.

(** ** When [initialize] returns *)

Lemma mapM_loadWorkspace_returns P init project paths : forall st,
  forallb (passable P init (files st)) paths = true ->
  exists st' rs,
    mapM (GradleProject.loadWorkspace P init project) paths st = (st', Ret rs).
Proof.
  induction paths as [|path paths IH]; intros st H.
  - now exists st, [].
  - simpl in H. apply andb_prop in H. destruct H as [Hp Hps].
    simpl. unfold bind. rewrite loadWorkspace_eq. unfold passable in Hp.
    destruct (load_outcome P (path_join P (cwd init) path) (files st))
      as [[w|]| |]; try discriminate Hp.
    + destruct (accepted w); simpl in Hp.
      * apply negb_true_iff in Hp. rewrite Hp.
        destruct (IH (push st (workspaceInstance project path w)) Hps)
          as (st' & rs & ->).
        now eexists; eexists.
      * destruct (IH st Hps) as (st' & rs & ->). now eexists; eexists.
    + destruct (IH st Hps) as (st' & rs & ->). now eexists; eexists.
Qed.

(** [initialize] returns a project when the root manifest is read, fits
    the schema and has a name, and the manifest of every directory that the
    patterns match is read and is JSON and, where it fits the schema and
    is not marked private, has a name. *)
Theorem initialize_returns P init st c :
  load_outcome P (cwd init) (files st) = Ret (Some c) ->
  nameless c = false ->
  forallb (passable P init (files st)) (candidates P init c) = true ->
  exists st', GradleProject.initialize P init st = (st', Ret (Some (length (heap st)))).
Proof.
  intros Hroot Hn Hps.
  unfold GradleProject.initialize. unfold bind at 1.
  rewrite loadGradleBuildFile_eq, Hroot.
  unfold bind at 1. rewrite GradleProject_new_eq, Hn.
  unfold bind at 1.
  unfold GradleWorkspace.manifest, bind, deref, ret; simpl.
  rewrite nth_error_middle; simpl.
  unfold candidates in Hps. unfold manifestOf; simpl.
  destruct (field "workspaces" (manifest c)) as [[| | | |patterns|]|];
    try (now eexists).
  destruct (mapM_loadWorkspace_returns P init (length (heap st)) _
              (push st (projectInstance (length (heap st)) init c [])) Hps)
    as (st1 & rs & E).
  rewrite E.
  destruct (mapM_loadWorkspace _ _ _ _ _ _ _ E) as (_ & Hh & _).
  unfold GradleProject.set_childWorkspaces, bind, deref, store.
  rewrite Hh. simpl. rewrite <- app_assoc. simpl.
  rewrite nth_error_middle. simpl. now eexists.
Qed.

Lemma initialize_returns_witness :
  exists st',
    GradleProject.initialize (posix packages_a_b) (locked "/repo") sample
    = (st', Ret (Some (length (heap sample)))).
Proof.
  apply (initialize_returns (posix packages_a_b) (locked "/repo") sample
           {| manifest := JObject [(str "name", JString (str "root"));
                                   (str "workspaces",
                                    JArray [JString (str "packages/*")])];
              eofInEnd := true |}).
  - vm_compute. reflexivity.
  - reflexivity.
  - vm_compute. reflexivity.
Defined.

(** ** When [gitExec] returns *)

(** [gitExec] returns exactly when the run started and exited with status
    0.  A run that a signal ended has no exit status: the streams are
    written to the console and the message of the error says [null]. *)
Theorem gitExec_returns_iff_succeeded git args cwd :
  ((exists out s, gitExec git args cwd = (out, Ret s))
   <-> succeeded (git args cwd))
  /\ (error (git args cwd) = None -> exitCode (git args cwd) = None ->
      gitExec git args cwd
      = ([stderr (git args cwd); stdout (git args cwd)],
         Throw (Error (str "Invalid status code from git output: null")))).
Proof.
  split; [split|].
  - intros (out & s & H). destruct (succeeded_dec (git args cwd)) as [Hok|Hf].
    + exact Hok.
    + destruct (gitExec_failed _ _ _ Hf) as (out' & e & E).
      rewrite E in H. discriminate H.
  - intros Hok. rewrite (gitExec_succeeded _ _ _ Hok). now eexists; eexists.
  - intros He Hx. unfold gitExec. now rewrite He, Hx.
Qed.

Lemma gitExec_returns_iff_succeeded_witness :
  ((exists out s,
       gitExec (fun _ _ => {| error := None; exitCode := None;
                              stdout := str "partial"; stderr := str "Killed" |})
               [str "push"] None = (out, Ret s))
   <-> succeeded {| error := None; exitCode := None;
                    stdout := str "partial"; stderr := str "Killed" |})
  /\ (error {| error := None; exitCode := None;
               stdout := str "partial"; stderr := str "Killed" |} = None ->
      exitCode {| error := None; exitCode := None;
                  stdout := str "partial"; stderr := str "Killed" |} = None ->
      gitExec (fun _ _ => {| error := None; exitCode := None;
                             stdout := str "partial"; stderr := str "Killed" |})
              [str "push"] None
      = ([str "Killed"; str "partial"],
         Throw (Error (str "Invalid status code from git output: null")))).
Proof.
  exact (gitExec_returns_iff_succeeded
           (fun _ _ => {| error := None; exitCode := None;
                          stdout := str "partial"; stderr := str "Killed" |})
           [str "push"] None).
Defined.

(** ** The form of the fingerprint *)

Lemma round_length s kw : length s = 8 -> length (Sha256.round s kw) = 8.
Proof.
  intros H. do 9 (destruct s as [|? s]; try discriminate H). reflexivity.
Qed.

Lemma fold_round_length kws : forall s,
  length s = 8 -> length (fold_left Sha256.round kws s) = 8.
Proof.
  induction kws as [|kw kws IH]; intros s H; [exact H|].
  simpl. apply IH. now apply round_length.
Qed.

Lemma compress_length H block :
  length H = 8 -> length (Sha256.compress H block) = 8.
Proof.
  intros Hl. unfold Sha256.compress.
  rewrite length_map, length_combine, fold_round_length by exact Hl.
  rewrite Hl. reflexivity.
Qed.

Lemma blocks_length fuel : forall H ws,
  length H = 8 -> length (Sha256.blocks fuel H ws) = 8.
Proof.
  induction fuel as [|fuel IH]; intros H ws Hl; [exact Hl|].
  simpl. destruct ws; [exact Hl|]. apply IH. now apply compress_length.
Qed.

Lemma be_bytes_length n x : length (Sha256.be_bytes n x) = n.
Proof. induction n as [|n IH]; simpl; [reflexivity | now rewrite IH]. Qed.

(** A digest has 32 bytes. *)
Lemma sha256_length msg : length (Sha256.sha256 msg) = 32.
Proof.
  unfold Sha256.sha256.
  pose proof (blocks_length
                (length (Sha256.words (length (Sha256.pad msg)) (Sha256.pad msg)))
                Sha256.H0
                (Sha256.words (length (Sha256.pad msg)) (Sha256.pad msg))
                eq_refl) as H.
  destruct (Sha256.blocks _ Sha256.H0 _) as [|a l]; [discriminate H|].
  do 8 (destruct l as [|? l]; try discriminate H).
  cbn [flat_map]. rewrite !length_app, !be_bytes_length. reflexivity.
Qed.

Lemma base64_32 bs :
  length bs = 32 ->
  length (toString_base64 bs) = 44 /\ last (toString_base64 bs) " "%char = "="%char.
Proof.
  intros H. do 33 (destruct bs as [|? bs]; try discriminate H).
  split; reflexivity.
Qed.

(** The fingerprint that [gitStatusHash] returns is the base64 text of a
    digest of 32 bytes: 44 characters, the last of which is the padding
    character. *)
Theorem gitStatusHash_form git cwd out digest :
  gitStatusHash git cwd = (out, Ret digest) ->
  length digest = 44 /\ last digest " "%char = "="%char.
Proof.
  unfold gitStatusHash. intros H.
  destruct (gitExec git [str "rev-parse"; str "--revs-only"; str "HEAD"] (Some cwd))
    as [out1 [commit| |]]; try discriminate H.
  cbn [io_bind] in H.
  destruct (gitExec git [str "status"; str "--porcelain"] (Some cwd))
    as [out2 [status| |]]; try discriminate H.
  cbn [io_bind io_ret] in H. injection H as _ <-.
  apply base64_32, sha256_length.
Qed.

Lemma gitStatusHash_form_witness :
  length (str "5UwXnLlBoFJjQtJoUzImnE0CFrqeCsVa8C+QC3QA9N8=") = 44
  /\ last (str "5UwXnLlBoFJjQtJoUzImnE0CFrqeCsVa8C+QC3QA9N8=") " "%char = "="%char.
Proof.
  apply (gitStatusHash_form (repository HEAD []) (str "/repo") []).
  vm_compute. reflexivity.
Defined.

(** ** The schema and the result [null] *)

(** The schema looks at four properties and refuses two names; a manifest
    that fits it still fits it with any other property, whatever its
    value. *)
Theorem isGradleBuildFile_other_property props k v :
  isGradleBuildFile (JObject props) = true ->
  ~ In k schema_names ->
  isGradleBuildFile (JObject (set k v props)) = true.
Proof.
  unfold isGradleBuildFile. rewrite !andb_true_iff, !negb_true_iff.
  intros ((((Hk & Hv) & Hn) & Hp) & Hw) Hother.
  assert (E : forall name, In name schema_names -> jsstring_eqb name k = false).
  { intros name Hin. apply jsstring_eqb_neq. intros ->. contradiction. }
  rewrite !get_set.
  rewrite (E (str "version")), (E (str "name")), (E (str "private")),
    (E (str "workspaces")) by (simpl; tauto).
  repeat split; try assumption.
  destruct (existsb unsafe_name (map fst (set k v props))) eqn:Eu; [|reflexivity].
  apply existsb_exists in Eu. destruct Eu as (k' & Hin & Hu).
  apply keys_set in Hin. destruct Hin as [->|Hin].
  - unfold unsafe_name in Hu. apply orb_prop in Hu.
    destruct Hu as [Hu|Hu]; apply jsstring_eqb_eq in Hu; subst k;
      contradiction Hother; simpl; tauto.
  - assert (existsb unsafe_name (map fst props) = true)
      by (apply existsb_exists; now exists k').
    congruence.
Qed.

Lemma isGradleBuildFile_other_property_witness :
  isGradleBuildFile
    (JObject (set (str "dependencies") (JObject [(str "core", JString (str "^1.0.0"))])
                  [(str "name", JString (str "b"));
                   (str "version", JString (str "1.0.0"))]))
  = true.
Proof.
  apply isGradleBuildFile_other_property.
  - reflexivity.
  - intros H. repeat (destruct H as [H|H]; [discriminate H|]). exact H.
Defined.

(** [initialize] returns [null] in one case only: the root manifest is
    read, is JSON and does not fit the schema.  Nothing is created then. *)
Theorem initialize_null_iff P init st st' :
  GradleProject.initialize P init st = (st', Ret None)
  <-> st' = st
      /\ exists text content,
           files st (path_join P (cwd init) GRADLE_MANIFEST_NAME) = Some text
           /\ JSON_parse text = Ret content
           /\ isGradleBuildFile content = false.
Proof.
  split.
  - intros H. unfold GradleProject.initialize in H. unfold bind at 1 in H.
    rewrite loadGradleBuildFile_eq in H.
    destruct (load_outcome P (cwd init) (files st)) as [[c|]| |] eqn:Hl;
      try discriminate H.
    + exfalso. unfold bind at 1 in H. rewrite GradleProject_new_eq in H.
      destruct (nameless c); [discriminate H|].
      unfold bind at 1 in H.
      destruct (GradleWorkspace.manifest _ _) as [st1 [m| |]]; try discriminate H.
      unfold bind at 1 in H.
      match type of H with
      | context [match ?x with _ => _ end] =>
          destruct x as [st2 [u| |]]; discriminate H
      end.
    + injection H as <-. split; [reflexivity|].
      unfold load_outcome in Hl.
      destruct (files st _) as [text|]; [|discriminate Hl].
      destruct (JSON_parse text) as [content| |] eqn:Hp; try discriminate Hl.
      destruct (isGradleBuildFile content) eqn:Hv; [discriminate Hl|].
      now exists text, content.
  - intros (-> & text & content & Hf & Hp & Hv).
    exact (initialize_schema_mismatch _ _ _ _ _ Hf Hp Hv).
Qed.

Example initialize_null_without_name :
  GradleProject.initialize (posix []) (locked "/app")
    {| files := fun p => if jsstring_eqb p (str "/app/build.gradle")
                         then Some (text "{'version': '1.0.0'}")
                         else None;
       heap := [] |}
  = ({| files := fun p => if jsstring_eqb p (str "/app/build.gradle")
                          then Some (text "{'version': '1.0.0'}")
                          else None;
        heap := [] |}, Ret None).
Proof. vm_compute. reflexivity. Qed.
